(** * The Hail workshop notebooks (IBG ISG 2023), embedded in Rocq

    The repository consists of two teaching notebooks (genetic relatedness,
    rare-variant association) and a solutions guide.  Their code cells are
    Python glue around the Hail library.  This development embeds the cells
    as Rocq functions over a model of the Hail values they manipulate:

    - a Hail expression of type [T] evaluates to [option T], [None] being
      Hail's missing value (NA);
    - [float64] and [int32] values are idealised as exact rationals [Q] and
      integers [Z];
    - a dictionary is a [gmap], a table a list of rows, a matrix table a list
      of rows carrying one entry per column;
    - a run of a notebook threads a [world] (files on disk, live objects,
      log of library calls) through a state-and-exception monad.

    Library functions whose documented behaviour is elementary (filters,
    aggregators, [hl.case], [hl.coalesce], ...) are defined; the statistical
    engines (PCA, regressions, SKAT, kinship estimators, the mating
    simulator) are the fields of a class [Engines], left abstract. *)

From Stdlib Require Import QArith Qpower Qround Lqa Qabs.
From stdpp Require Import gmap strings list.

Local Open Scope Q_scope.

(** ** Hail expressions: missingness and the scalar operators used *)

Module Hl.

(** [hl.if_else(cond, a, b)] with the default [missing_false=False]: a
    missing condition gives a missing result. *)
Definition if_else {A} (cond : option bool) (a b : option A) : option A :=
  match cond with
  | Some true => a
  | Some false => b
  | None => None
  end.

(** [hl.case().when(c1, v1). ... .default(d)] desugars to nested [if_else];
    [when c v rest] is one [.when(c, v)] clause followed by the clauses
    [rest]. *)
Definition when {A} (cond : option bool) (v : option A) (rest : option A)
  : option A := if_else cond v rest.

(** [hl.coalesce(a, b)]: the first non-missing argument. *)
Definition coalesce {A} (a b : option A) : option A :=
  match a with
  | Some x => Some x
  | None => b
  end.

(** Binary operators are strict in missingness. *)
Definition lift2 {A B C} (f : A → B → C) (a : option A) (b : option B)
  : option C :=
  match a, b with
  | Some x, Some y => Some (f x y)
  | _, _ => None
  end.

Definition int_eq : option Z → option Z → option bool :=
  lift2 (λ x y, bool_decide (x = y)).
Definition int_gt : option Z → option Z → option bool :=
  lift2 (λ x y, bool_decide (y < x)%Z).
Definition int_ne : option Z → option Z → option bool :=
  lift2 (λ x y, negb (bool_decide (x = y))).

Definition Qltb (x y : Q) : bool := negb (Qle_bool y x).

Definition float_lt : option Q → option Q → option bool := lift2 Qltb.
Definition float_gt (a b : option Q) : option bool := float_lt b a.
Definition float_add : option Q → option Q → option Q := lift2 Qplus.
Definition float_mul : option Q → option Q → option Q := lift2 Qmult.

(** [d.get(k)] on a dictionary expression: missing when the dictionary or
    the key is missing, or the key is absent. *)
Definition dict_get {V} (d : option (gmap Z V)) (k : option Z) : option V :=
  match d, k with
  | Some m, Some x => m !! x
  | _, _ => None
  end.

(** *** Genotype calls (diploid, as in the workshop datasets) *)

Record call := Call { allele1 : nat; allele2 : nat }.

Definition is_alt (a : nat) : Z := if Nat.eqb a 0 then 0%Z else 1%Z.

(** [c.n_alt_alleles()]: the number of non-reference alleles of the call. *)
Definition n_alt_alleles (c : call) : Z :=
  (is_alt (allele1 c) + is_alt (allele2 c))%Z.

(** [c.is_hom_ref()] *)
Definition is_hom_ref (c : call) : bool :=
  Nat.eqb (allele1 c) 0 && Nat.eqb (allele2 c) 0.

(** *** Aggregators: each folds the value of an expression over records *)

(** [hl.agg.count_where(cond)]: the number of records where [cond] is true;
    records where it is missing are not counted. *)
Fixpoint agg_count_where (l : list (option bool)) : Z :=
  match l with
  | [] => 0%Z
  | Some true :: l' => (1 + agg_count_where l')%Z
  | _ :: l' => agg_count_where l'
  end.

(** [hl.agg.sum(x)]: the sum of the non-missing values. *)
Fixpoint agg_sum (l : list (option Z)) : Z :=
  match l with
  | [] => 0%Z
  | Some x :: l' => (x + agg_sum l')%Z
  | None :: l' => agg_sum l'
  end.

(** [hl.agg.all(cond)]: true when [cond] is true on every record where it is
    defined (the library computes [count_where(~cond) == 0]). *)
Definition agg_all (l : list (option bool)) : bool :=
  bool_decide (agg_count_where (map (option_map negb) l) = 0%Z).

(** The number of copies of allele [a] in a call. *)
Definition allele_count (a : nat) (c : call) : Z :=
  ((if Nat.eqb (allele1 c) a then 1 else 0) +
   (if Nat.eqb (allele2 c) a then 1 else 0))%Z.

(** [hl.agg.call_stats(GT, alleles)], fields [AC[a]] and [AN], over the
    non-missing calls of a row. *)
Definition call_stats_AC (a : nat) (gts : list (option call)) : Z :=
  agg_sum (map (option_map (allele_count a)) gts).
Definition call_stats_AN (gts : list (option call)) : Z :=
  agg_sum (map (option_map (λ _, 2%Z)) gts).

(** [hl.agg.call_stats(GT, alleles).AF[a]]: [AC[a] / AN]; there is no
    frequency when no call is defined.  Rows are assumed to list the
    allele [a] (index [1] below: every variant has an alternate allele). *)
Definition call_stats_AF (a : nat) (gts : list (option call)) : option Q :=
  let an := call_stats_AN gts in
  if bool_decide (an = 0%Z) then None
  else Some (call_stats_AC a gts # Z.to_pos an).

(** [hl.dbeta(x, a, b)] for integer shape parameters [a, b >= 1]: the
    density [x^(a-1) (1-x)^(b-1) / B(a, b)] of the Beta distribution on
    [0, 1], with [1 / B(a, b) = (a+b-1)! / ((a-1)! (b-1)!)]. *)
Fixpoint factorial (n : nat) : Z :=
  match n with
  | O => 1%Z
  | S k => (Z.of_nat n * factorial k)%Z
  end.

Definition beta_norm (a b : nat) : Q :=
  inject_Z (factorial (a + b - 1))
  / inject_Z (factorial (a - 1) * factorial (b - 1)).

Definition dbeta_Q (x : Q) (a b : nat) : Q :=
  if Qle_bool 0 x && Qle_bool x 1
  then beta_norm a b * x ^ Z.of_nat (a - 1) * (1 - x) ^ Z.of_nat (b - 1)
  else 0.

Definition dbeta (x : option Q) (a b : nat) : option Q :=
  option_map (λ v, dbeta_Q v a b) x.

(** The cumulative distribution function of Beta(1, b) on [0, 1],
    [1 - (1 - x)^b], for comparison with the density. *)
Definition pbeta_1 (x : Q) (b : nat) : Q := 1 - (1 - x) ^ Z.of_nat b.

(** [hl.agg.fraction(cond)]: the share of the records where [cond] is
    true; with no record the quotient is undefined. *)
Definition agg_fraction (l : list (option bool)) : option Q :=
  match l with
  | [] => None
  | _ => Some (agg_count_where l # Pos.of_nat (length l))
  end.

(** [hl.agg.counter(x)]: how often each value occurs, in order of first
    occurrence. *)
Definition agg_counter {A} `{EqDecision A} (l : list A) : list (A * Z) :=
  map (λ a, (a, Z.of_nat (length (List.filter (λ b, bool_decide (b = a)) l))))
      (remove_dups l).

(** [hl.agg.hist(x, 0, 1, bins)]: the number of values in each of [bins]
    equal slices of the unit interval, the last slice closed on the right. *)
Definition hist_bin (bins : nat) (x : Q) : nat :=
  Nat.min (Z.to_nat (Qfloor (x * inject_Z (Z.of_nat bins)))) (bins - 1).

Definition agg_hist (bins : nat) (l : list (option Q)) : list Z :=
  let inside :=
    omap (λ o, match o with
               | Some x => if Qle_bool 0 x && Qle_bool x 1
                           then Some (hist_bin bins x) else None
               | None => None
               end) l in
  map (λ b, Z.of_nat (length (List.filter (Nat.eqb b) inside))) (seq 0 bins).

(** *** Matrix tables *)

(** The entry fields read by the notebooks: the genotype call. *)
Record entry := MkEntry { GT : option call }.

(** A matrix table keeps, for every row, the row fields and one entry per
    column. *)
Record MatrixTable (R C E : Type) := MkMatrixTable {
  mt_rows : list (R * list E);
  mt_cols : list C
}.
Arguments MkMatrixTable {R C E} _ _.
Arguments mt_rows {R C E} _.
Arguments mt_cols {R C E} _.

(** [mt.filter_rows(expr, keep)]: with [keep=True] the rows where [expr] is
    true remain, with [keep=False] those where it is false; a row where
    [expr] is missing is removed in both cases.  [expr] may aggregate over
    the entries of the row. *)
Definition filter_rows {R C E} (expr : R → list E → option bool)
    (keep : bool) (mt : MatrixTable R C E) : MatrixTable R C E :=
  MkMatrixTable
    (List.filter (λ re, bool_decide (expr re.1 re.2 = Some keep)) (mt_rows mt))
    (mt_cols mt).

(** [mt.annotate_rows(...)] and [mt.annotate_cols(...)]: every row
    (column) struct is replaced by an extended one. *)
Definition annotate_rows {R R' C E} (f : R → list E → R')
    (mt : MatrixTable R C E) : MatrixTable R' C E :=
  MkMatrixTable (map (λ re, (f re.1 re.2, re.2)) (mt_rows mt)) (mt_cols mt).

Definition annotate_cols {R C C' E} (f : C → C')
    (mt : MatrixTable R C E) : MatrixTable R C' E :=
  MkMatrixTable (mt_rows mt) (map f (mt_cols mt)).

(** The records seen by an entry aggregation for column [j] over the rows
    [rs]: the row fields paired with the entry of that column. *)
Definition column_records {R E} (rs : list (R * list E)) (j : nat)
  : list (R * E) :=
  omap (λ re, option_map (λ e, (re.1, e)) (re.2 !! j)) rs.

(** [mt.group_rows_by(key).aggregate(field = agg)]: one row per distinct
    key, whose entry for column [j] aggregates the records of column [j]
    over the rows carrying that key.  (The library also sorts the keys;
    rows are listed here in order of first occurrence.) *)
Definition group_rows_by_aggregate {R C E K A} `{EqDecision K}
    (key : R → K) (agg : list (R * E) → A) (mt : MatrixTable R C E)
  : MatrixTable K C A :=
  let group k := List.filter (λ re, bool_decide (key re.1 = k)) (mt_rows mt) in
  MkMatrixTable
    (map (λ k, (k, imap (λ j _, agg (column_records (group k) j)) (mt_cols mt)))
         (remove_dups (map (λ re, key re.1) (mt_rows mt))))
    (mt_cols mt).

End Hl.

(** ** Notebook 03: genetic relatedness *)

Module Relatedness.

(** The relatedness graph published by [simulate_random_mating] in the
    globals of [mt1]: [rel = mt1.index_globals().relatedness]. *)
Abbreviation relatedness := (gmap Z (gmap Z Q)).

(** The [hl.case()] expression of [get_rel], before the jitter is added. *)
Definition get_rel_case (rel : relatedness) (s1 s2 : option Z) : option Q :=
  Hl.when (Hl.int_eq s1 s2) (Some (1 # 2))
    (Hl.when (Hl.int_gt s1 s2)
       (Hl.coalesce (Hl.dict_get (Hl.dict_get (Some rel) s1) s2) (Some 0))
       (* .default *)
       (Hl.coalesce (Hl.dict_get (Hl.dict_get (Some rel) s2) s1) (Some 0))).

(** [get_rel(s1, s2)].  [jitter] is the value drawn by
    [hl.rand_norm(0, 0.005)] for the row being evaluated. *)
Definition get_rel (rel : relatedness) (s1 s2 : option Z) (jitter : option Q)
  : option Q :=
  Hl.float_add (get_rel_case rel s1 s2) jitter.

(** The entry [rel[a][b]], with the default [0.0] of the coalesce. *)
Definition rel_entry (rel : relatedness) (a b : Z) : Q :=
  default 0 (rel !! a ≫= (.!! b)).

(** [get_rel(i, j) * 2], the abscissa of the IBD plot. *)
Definition true_relatedness (rel : relatedness) (i j : option Z)
    (jitter : option Q) : option Q :=
  Hl.float_mul (get_rel rel i j jitter) (Some 2).

(** A row of [resources/HGDP_sample_data.tsv], keyed by [sample_id]. *)
Record sample_data_row := MkSampleData {
  sd_continental_pop : option string;
  sd_population : option string
}.

(** Column fields of [mt] and [mt1]: the sample, its index, the joined
    sample data, and the fields splatted from it onto [mt1]. *)
Record sample := MkSample {
  s : string;
  sample_idx : option Z;
  sample_data : option sample_data_row;
  continental_pop : option string;
  population : option string
}.

Abbreviation RelMatrix := (Hl.MatrixTable (string * Z * list string) sample
                             Hl.entry).

(** [mt.annotate_cols(sample_idx = hl.int(hl.scan.count()),
    sample_data = sd[mt.s])]: the scan counts the columns before. *)
Definition annotate_sample_idx (sd : gmap string sample_data_row)
    (mt : RelMatrix) : RelMatrix :=
  Hl.MkMatrixTable (Hl.mt_rows mt)
    (imap (λ n c, MkSample (s c) (Some (Z.of_nat n)) (sd !! s c)
                    (continental_pop c) (population c))
          (Hl.mt_cols mt)).

(** [mt.key_cols_by('sample_idx').index_cols(idx).sample_data] *)
Definition founder_data (mt : RelMatrix) (idx : option Z)
  : option sample_data_row :=
  match idx with
  | Some _ =>
      match List.find (λ c, bool_decide (sample_idx c = idx)) (Hl.mt_cols mt)
      with
      | Some c => sample_data c
      | None => None
      end
  | None => None
  end.

(** [mt1.annotate_cols] with the fields splatted from
    [mt.key_cols_by('sample_idx').index_cols(mt1.sample_idx).sample_data] *)
Definition annotate_founder_data (mt mt1 : RelMatrix) : RelMatrix :=
  Hl.annotate_cols
    (λ c, let d := founder_data mt (sample_idx c) in
          MkSample (s c) (sample_idx c) (sample_data c)
            (d ≫= sd_continental_pop) (d ≫= sd_population))
    mt1.

(** A row of a pairwise table ([ibd], [king], [pcrel]) once keyed by the
    two sample indices, with the estimate it reports. *)
Record pair_row := MkPair {
  i : option Z;
  j : option Z;
  estimate : option Q
}.

(** [king.filter(king.sample_idx != king.sample_idx_1)] *)
Definition remove_self_comparisons (king : list pair_row) : list pair_row :=
  List.filter (λ r, bool_decide (Hl.int_ne (i r) (j r) = Some true)) king.

(** [mt1.filter_cols(hl.literal([50, 100, 1000]).contains(mt1.sample_idx))
      .cols()] *)
Definition interrogate (ids : list Z) (mt1 : RelMatrix) : list sample :=
  List.filter
    (λ c, bool_decide (option_map (λ x, bool_decide (x ∈ ids)) (sample_idx c)
                       = Some true))
    (Hl.mt_cols mt1).

End Relatedness.

(** ** Notebook 02: rare-variant analysis, the data *)

Module RareVariants.

(** Row fields of [resources/hgdp-tgp-rare-variants.mt] that the notebook
    reads, followed by the fields the notebook annotates; an annotated
    field is [None] until its [annotate_rows]. *)
Record variant := MkVariant {
  locus : string * Z;                         (* contig, position *)
  alleles : list string;
  filters : option (list string);             (* set<str> *)
  most_severe_consequence : option string;    (* vep.most_severe_consequence *)
  cadd_phred : option Q;                      (* cadd.phred *)
  gene_name : option string;
  weight1 : option Z;
  weight2 : option Q;
  variant_qc_AF1 : option Q;                  (* variant_qc.AF[1] *)
  weight : option Q
}.

(** Column fields: the sample identifier and the annotated phenotypes and
    principal-component scores. *)
Record sample := MkSample {
  s : string;
  pheno1 : option Q;
  pheno2 : option Q;
  pca : option (list Q)                       (* pca.scores *)
}.

Abbreviation entry := Hl.entry.
Abbreviation MkEntry := Hl.MkEntry.
Abbreviation GT := Hl.GT.

Abbreviation GenotypeMatrix := (Hl.MatrixTable variant sample entry).

(** [resources/genes.ht]: gene names keyed by interval. *)
Record gene_row := MkGene {
  contig : string;
  start : Z;
  stop : Z;
  includes_start : bool;
  includes_end : bool;
  gene : option string                        (* gene_name *)
}.

(** [resources/rare-variant-phenotypes.ht]: phenotypes keyed by sample. *)
Record pheno_row := MkPheno { p1 : option Q; p2 : option Q }.

Definition set_gene_name (g : option string) (v : variant) : variant :=
  MkVariant (locus v) (alleles v) (filters v) (most_severe_consequence v)
    (cadd_phred v) g (weight1 v) (weight2 v) (variant_qc_AF1 v) (weight v).
Definition set_weights (w1 : option Z) (w2 : option Q) (v : variant)
  : variant :=
  MkVariant (locus v) (alleles v) (filters v) (most_severe_consequence v)
    (cadd_phred v) (gene_name v) w1 w2 (variant_qc_AF1 v) (weight v).
Definition set_variant_qc (af : option Q) (v : variant) : variant :=
  MkVariant (locus v) (alleles v) (filters v) (most_severe_consequence v)
    (cadd_phred v) (gene_name v) (weight1 v) (weight2 v) af (weight v).
Definition set_weight (w : option Q) (v : variant) : variant :=
  MkVariant (locus v) (alleles v) (filters v) (most_severe_consequence v)
    (cadd_phred v) (gene_name v) (weight1 v) (weight2 v) (variant_qc_AF1 v) w.
Definition set_phenos (a b : option Q) (c : sample) : sample :=
  MkSample (s c) a b (pca c).
Definition set_pca (sc : option (list Q)) (c : sample) : sample :=
  MkSample (s c) (pheno1 c) (pheno2 c) sc.

(** *** Step 1: quality control *)

(** [mt.filter_rows(hl.len(mt.filters) == 0)] *)
Definition remove_non_pass (mt : GenotypeMatrix) : GenotypeMatrix :=
  Hl.filter_rows
    (λ r _, Hl.int_eq (option_map (λ f, Z.of_nat (length f)) (filters r))
                      (Some 0%Z))
    true mt.

(** [mt.filter_rows(hl.agg.call_stats(mt.GT, mt.alleles).AF[1] < 0.01)] *)
Definition remove_common (mt : GenotypeMatrix) : GenotypeMatrix :=
  Hl.filter_rows
    (λ _ es, Hl.float_lt (Hl.call_stats_AF 1 (map GT es)) (Some (1 # 100)))
    true mt.

(** [mt.filter_rows(hl.agg.all(mt.GT.is_hom_ref()), keep=False)] *)
Definition remove_all_hom_ref (mt : GenotypeMatrix) : GenotypeMatrix :=
  Hl.filter_rows
    (λ _ es, Some (Hl.agg_all (map (λ e, option_map Hl.is_hom_ref (GT e)) es)))
    false mt.

Definition quality_control (mt : GenotypeMatrix) : GenotypeMatrix :=
  remove_all_hom_ref (remove_common (remove_non_pass mt)).

(** *** Step 2: group by gene *)

Definition interval_contains (g : gene_row) (l : string * Z) : bool :=
  bool_decide (contig g = l.1)
  && (if includes_start g then bool_decide (start g ≤ l.2)%Z
      else bool_decide (start g < l.2)%Z)
  && (if includes_end g then bool_decide (l.2 ≤ stop g)%Z
      else bool_decide (l.2 < stop g)%Z).

(** [genes[mt.locus].gene_name]: the name on the (first) interval holding
    the locus, missing when there is none. *)
Definition genes_index (genes : list gene_row) (l : string * Z)
  : option string :=
  match List.find (λ g, interval_contains g l) genes with
  | Some g => gene g
  | None => None
  end.

(** [mt.annotate_rows(gene_name = genes[mt.locus].gene_name)] *)
Definition annotate_gene_name (genes : list gene_row) (mt : GenotypeMatrix)
  : GenotypeMatrix :=
  Hl.annotate_rows (λ r _, set_gene_name (genes_index genes (locus r)) r) mt.

(** [mt.annotate_cols(pheno1 = phenos[mt.s].pheno1,
                      pheno2 = phenos[mt.s].pheno2)] *)
Definition annotate_phenos (phenos : gmap string pheno_row)
    (mt : GenotypeMatrix) : GenotypeMatrix :=
  Hl.annotate_cols
    (λ c, set_phenos (phenos !! s c ≫= p1) (phenos !! s c ≫= p2) c) mt.

(** *** Step 3: aggregate by gene *)

(** [mt.GT.n_alt_alleles() > 0] *)
Definition has_alt (e : entry) : option bool :=
  Hl.int_gt (option_map Hl.n_alt_alleles (GT e)) (Some 0%Z).

(** [hl.agg.count_where(mt.GT.n_alt_alleles() > 0)] *)
Definition n_variants (recs : list (variant * entry)) : Z :=
  Hl.agg_count_where (map (λ re, has_alt re.2) recs).

(** [hl.agg.sum(burden_mt.n_variants) > 0], the filter on grouped rows. *)
Definition some_variant (_ : option string) (es : list Z) : option bool :=
  Hl.int_gt (Some (Hl.agg_sum (map Some es))) (Some 0%Z).

Abbreviation BurdenMatrix := (Hl.MatrixTable (option string) sample Z).

(** [burden_mt = mt.group_rows_by(mt.gene_name).aggregate(n_variants = ...)]
    followed by [burden_mt.filter_rows(hl.agg.sum(burden_mt.n_variants) > 0)] *)
Definition burden_mt (mt : GenotypeMatrix) : BurdenMatrix :=
  Hl.filter_rows some_variant true
    (Hl.group_rows_by_aggregate gene_name n_variants mt).

(** *** Exercise 2: the weighted burden cell *)

(** The [hl.case()] of [weight1] on [mt.vep.most_severe_consequence]. *)
Definition weight1_case (csq : option string) : option Z :=
  let equals c := option_map (λ x, bool_decide (x = c)) csq in
  Hl.when (equals "synonymous_variant"%string) (Some 2%Z)
    (Hl.when (equals "intron_variant"%string) (Some 3%Z)
       (Hl.when (equals "missense_variant"%string) (Some 5%Z)
          (Some 1%Z))).

(** [mt.annotate_rows(weight1 = ..., weight2 = mt.cadd.phred)] *)
Definition annotate_weights (mt : GenotypeMatrix) : GenotypeMatrix :=
  Hl.annotate_rows
    (λ r _, set_weights (weight1_case (most_severe_consequence r))
                        (cadd_phred r) r) mt.

(** [mt.weight2 * mt.GT.n_alt_alleles() > 0] *)
Definition weighted_has_alt (r : variant) (e : entry) : option bool :=
  Hl.float_gt
    (Hl.float_mul (weight2 r)
       (option_map (λ c, inject_Z (Hl.n_alt_alleles c)) (GT e)))
    (Some 0).

(** [hl.agg.count_where(mt.weight2 * mt.GT.n_alt_alleles() > 0)] *)
Definition weighted_n_variants (recs : list (variant * entry)) : Z :=
  Hl.agg_count_where (map (λ re, weighted_has_alt re.1 re.2) recs).

(** [xx = mt.group_rows_by(mt.gene_name).aggregate(n_variants = ...)]
    followed by [xx.filter_rows(hl.agg.sum(xx.n_variants) > 0)] *)
Definition xx (mt : GenotypeMatrix) : BurdenMatrix :=
  Hl.filter_rows some_variant true
    (Hl.group_rows_by_aggregate gene_name weighted_n_variants mt).

(** *** SKAT *)

(** [pca_scores[mt.s]] then [.scores]: the scores of the sample, missing
    for a sample the table does not hold. *)
Definition annotate_pca {R E} (pca_scores : gmap string (list Q))
    (mt : Hl.MatrixTable R sample E) : Hl.MatrixTable R sample E :=
  Hl.annotate_cols (λ c, set_pca (pca_scores !! s c) c) mt.

(** [hl.variant_qc(skat_mt)]: of the statistics it adds, the notebook reads
    [variant_qc.AF[1]], which the library takes from [call_stats]. *)
Definition variant_qc (mt : GenotypeMatrix) : GenotypeMatrix :=
  Hl.annotate_rows
    (λ r es, set_variant_qc (Hl.call_stats_AF 1 (map GT es)) r) mt.

(** [skat_mt.annotate_rows(weight = hl.dbeta(skat_mt.variant_qc.AF[1], 1, 25))] *)
Definition annotate_weight (mt : GenotypeMatrix) : GenotypeMatrix :=
  Hl.annotate_rows
    (λ r _, set_weight (Hl.dbeta (variant_qc_AF1 r) 1 25) r) mt.

Definition skat_mt (pca_scores : gmap string (list Q)) (mt : GenotypeMatrix)
  : GenotypeMatrix :=
  annotate_weight (variant_qc (annotate_pca pca_scores mt)).

(** A row of the table returned by [hl.skat]. *)
Record skat_row := MkSkat {
  id : option string;
  size : Z;
  q_stat : option Q;
  p_value : option Q;
  fault : option Z
}.

(** [ht.annotate(p_value = hl.if_else(ht.fault == 0, ht.p_value, 1))] *)
Definition annotate_p_value (r : skat_row) : skat_row :=
  MkSkat (id r) (size r) (q_stat r)
    (Hl.if_else (Hl.int_eq (fault r) (Some 0%Z)) (p_value r) (Some 1))
    (fault r).

(** *** The arguments of the association tests *)

(** What a regression call receives: the phenotype [y] and the covariates
    of every column, and for every row its key and the value of [x] in
    every column. *)
Record regression_input (K : Type) := MkRegression {
  reg_y : list (option Q);
  reg_x : list (K * list (option Q));
  reg_covariates : list (list (option Q))
}.
Arguments MkRegression {K} _ _ _.
Arguments reg_y {K} _.
Arguments reg_x {K} _.
Arguments reg_covariates {K} _.

(** [covariates=[1.0, mt.pca.scores[0], mt.pca.scores[1], mt.pca.scores[2]]] *)
Definition covariates (c : sample) : list (option Q) :=
  [Some 1; pca c ≫= (.!! 0%nat); pca c ≫= (.!! 1%nat); pca c ≫= (.!! 2%nat)].

(** [hl.linear_regression_rows(y=m.pheno1, x=m.n_variants, covariates=...)]
    on a grouped matrix [m] ([burden_mt] or [xx]). *)
Definition burden_regression_input (m : BurdenMatrix)
  : regression_input (option string) :=
  MkRegression (map pheno1 (Hl.mt_cols m))
    (map (λ re, (re.1, map (λ n, Some (inject_Z n)) re.2)) (Hl.mt_rows m))
    (map covariates (Hl.mt_cols m)).

(** [mt.GT.n_alt_alleles()] as the regressor. *)
Definition dosage (e : entry) : option Q :=
  option_map (λ c, inject_Z (Hl.n_alt_alleles c)) (GT e).

(** [hl.linear_regression_rows(y=..., x=mt.GT.n_alt_alleles(),
    covariates=...)], the per-variant regression; [y] is [mt.pheno1] or
    [mt.pheno2]. *)
Definition gwas_regression_input (y : sample → option Q) (mt : GenotypeMatrix)
  : regression_input (string * Z * list string) :=
  MkRegression (map y (Hl.mt_cols mt))
    (map (λ re, ((locus re.1, alleles re.1), map dosage re.2)) (Hl.mt_rows mt))
    (map covariates (Hl.mt_cols mt)).

(** [hl.skat(skat_mt.gene_name, skat_mt.weight, y=skat_mt.pheno2,
    x=skat_mt.GT.n_alt_alleles(), covariates=...)]: every row carries its
    group key and its weight. *)
Definition skat_input (m : GenotypeMatrix)
  : regression_input (option string * option Q) :=
  MkRegression (map pheno2 (Hl.mt_cols m))
    (map (λ re, ((gene_name re.1, weight re.1), map dosage re.2))
         (Hl.mt_rows m))
    (map covariates (Hl.mt_cols m)).

(** *** The matrix tables the notebook feeds to its tests *)

(** [mt] after Step 2, the input of [burden_mt] and of the PCA. *)
Definition mt_step2 (genes : list gene_row) (phenos : gmap string pheno_row)
    (mt : GenotypeMatrix) : GenotypeMatrix :=
  annotate_phenos phenos (annotate_gene_name genes (quality_control mt)).

(** [mt] in the Exercise 2 cell, the input of [xx]. *)
Definition mt_exercise2 (pca_scores : gmap string (list Q))
    (genes : list gene_row) (phenos : gmap string pheno_row)
    (mt : GenotypeMatrix) : GenotypeMatrix :=
  annotate_pca pca_scores
    (annotate_weights (annotate_pca pca_scores (mt_step2 genes phenos mt))).

(** [pca_scores] as a table keyed by sample: the scores [sc] that the PCA
    returns for the columns of [mt]. *)
Definition pca_table {R E} (mt : Hl.MatrixTable R sample E)
    (sc : list (list Q)) : gmap string (list Q) :=
  list_to_map (zip (map s (Hl.mt_cols mt)) sc).

(** What the tests of the notebook receive, in terms of
    the contents [mt], [genes], [phenos] of the three files and of the
    scores [sc] returned by the PCA of [mt] after Step 2. *)
Definition burden_test_input (genes : list gene_row)
    (phenos : gmap string pheno_row) (mt : GenotypeMatrix)
    (sc : list (list Q)) : regression_input (option string) :=
  let mt := mt_step2 genes phenos mt in
  burden_regression_input (annotate_pca (pca_table mt sc) (burden_mt mt)).

Definition gwas_test_input (genes : list gene_row)
    (phenos : gmap string pheno_row) (mt : GenotypeMatrix)
    (sc : list (list Q)) : regression_input (string * Z * list string) :=
  let mt := mt_step2 genes phenos mt in
  gwas_regression_input pheno1 (annotate_pca (pca_table mt sc) mt).

Definition weighted_burden_test_input (genes : list gene_row)
    (phenos : gmap string pheno_row) (mt : GenotypeMatrix)
    (sc : list (list Q)) : regression_input (option string) :=
  let pca_scores := pca_table (mt_step2 genes phenos mt) sc in
  burden_regression_input (xx (mt_exercise2 pca_scores genes phenos mt)).

Definition skat_test_input (genes : list gene_row)
    (phenos : gmap string pheno_row) (mt : GenotypeMatrix)
    (sc : list (list Q)) : regression_input (option string * option Q) :=
  let pca_scores := pca_table (mt_step2 genes phenos mt) sc in
  skat_input (skat_mt pca_scores (mt_exercise2 pca_scores genes phenos mt)).

(** *** Vocabulary of the properties *)

(** The rows of [mt] that [group_rows_by(mt.gene_name)] puts under [g]. *)
Definition gene_rows (mt : GenotypeMatrix) (g : option string)
  : list (variant * list entry) :=
  List.filter (λ re, bool_decide (gene_name re.1 = g)) (Hl.mt_rows mt).

(** The alternate-allele count of sample [i] at a row; a missing call
    contributes nothing. *)
Definition alt_count (i : nat) (re : variant * list entry) : Z :=
  match re.2 !! i with
  | Some (MkEntry (Some c)) => Hl.n_alt_alleles c
  | _ => 0%Z
  end.

(** The burden of the notebook's theory section,
    [sum over j in S_k of G_ij]. *)
Definition alt_allele_sum (rs : list (variant * list entry)) (i : nat) : Z :=
  foldr (λ re acc, (alt_count i re + acc)%Z) 0%Z rs.

(** The weighted burden of the theory section,
    [sum over j in S_k of w_j G_ij], with [w = weight2]. *)
Definition weighted_alt_allele_sum (rs : list (variant * list entry))
    (i : nat) : Q :=
  foldr (λ re acc, default 0 (weight2 re.1) * inject_Z (alt_count i re) + acc)
        0 rs.

(** The number of rows at which sample [i] carries an alternate allele. *)
Definition carrier_count (rs : list (variant * list entry)) (i : nat) : Z :=
  Z.of_nat (length (List.filter (λ re, 0 <? alt_count i re)%Z rs)).

(** The quality-control predicate on a row and its entries: PASS, rare,
    and not homozygous reference throughout. *)
Definition qc_ok (re : variant * list entry) : Prop :=
  filters re.1 = Some []
  ∧ (∃ af, Hl.call_stats_AF 1 (map GT re.2) = Some af ∧ af < 1 # 100)
  ∧ (∃ e c, e ∈ re.2 ∧ GT e = Some c ∧ Hl.is_hom_ref c = false).

End RareVariants.

(** ** A notebook session *)

Module Session.

(** Whatever exception the library raises. *)
Inductive exn := Raised (msg : string).

(** A row of the table returned by [hl.linear_regression_rows]. *)
Record linreg_row := MkLinreg { lr_beta : option Q; lr_p_value : option Q }.

(** A figure: the points it draws and what [add_layout] put on it. *)
Inductive coordinate :=
| Num (v : option Q)
| Int (n : option Z)
| Label (l : option string).

Record point := MkPoint {
  px : coordinate;
  py : coordinate;
  info : list coordinate                (* label and hover fields *)
}.

Record figure := MkFigure {
  fig_points : list point;
  fig_kwargs : list (string * string);
  fig_layout : list string
}.

(** The objects of a session.  All but figures are owned by the library. *)
Inductive obj :=
| OMatrix (mt : RareVariants.GenotypeMatrix)
| OGrouped (m : RareVariants.BurdenMatrix)
| OAnnotated (m : Hl.MatrixTable (option string * option Q)
                    RareVariants.sample Z)
| OGenes (t : list RareVariants.gene_row)
| OPhenos (t : gmap string RareVariants.pheno_row)
| OScores (t : list (string * list Q))
| OResults (t : list (option string * linreg_row))
| OVariantResults (t : list (string * Z * list string * linreg_row))
| OSkat (t : list RareVariants.skat_row)
| ORelMatrix (mt : Relatedness.RelMatrix)
    (globals : option Relatedness.relatedness)
| OSampleData (t : gmap string Relatedness.sample_data_row)
| OScoresByIdx (t : list (option Z * list Q))
| ORawPairs (t : list (string * string * option Q))
| OPairs (t : list Relatedness.pair_row)
| OSamples (t : list Relatedness.sample)
| OFigure (f : figure).

Definition library_owned (o : obj) : bool :=
  match o with
  | OFigure _ => false
  | _ => true
  end.

(** The library's loaders. *)
Inductive loader := matrix_table_loader | table_loader | text_loader.

(** What a cell puts on the screen. *)
Inductive output :=
| Shown (call : string) (kwargs : list (string * string)) (o : obj)
| Number (v : option Q)
| Histogram (h : list Z)
| Counter (c : list (Z * Z))
| StrCounter (c : list (option string * Z)).

Record world := MkWorld {
  files : gmap string obj;            (* the pre-built files under resources/ *)
  noise : nat → Q;                    (* the standard normal draws to come *)
  drawn : nat;                        (* how many were consumed *)
  objs : list obj;                    (* objects created so far *)
  reads : list (loader * string);     (* files loaded so far *)
  calls : list string;                (* library calls made so far *)
  screen : list output                (* what was displayed so far *)
}.

(** A fresh kernel over the given files and draws. *)
Definition start (files : gmap string obj) (noise : nat → Q) : world :=
  MkWorld files noise 0 [] [] [] [].

Definition M (A : Type) : Type := world → exn + A * world.

#[export] Instance M_ret : MRet M := λ A a w, inr (a, w).
#[export] Instance M_bind : MBind M := λ A B k m w,
  match m w with
  | inl e => inl e
  | inr (a, w') => k a w'
  end.

Definition raise {A} (e : exn) : M A := λ _, inl e.

Definition of_result {A} (r : exn + A) : M A :=
  match r with
  | inl e => raise e
  | inr a => mret a
  end.

(** A reference to an object is its index in [objs]. *)
Definition new (o : obj) : M nat := λ w,
  inr (length (objs w),
       MkWorld (files w) (noise w) (drawn w) (objs w ++ [o]) (reads w)
         (calls w) (screen w)).

Definition deref (r : nat) : M obj := λ w,
  match objs w !! r with
  | Some o => inr (o, w)
  | None => inl (Raised "NameError")
  end.

(** An in-place update of the object behind a reference. *)
Definition assign (r : nat) (o : obj) : M unit := λ w,
  inr (tt, MkWorld (files w) (noise w) (drawn w) (<[r := o]> (objs w))
             (reads w) (calls w) (screen w)).

Definition call (name : string) : M unit := λ w,
  inr (tt, MkWorld (files w) (noise w) (drawn w) (objs w) (reads w)
             (calls w ++ [name]) (screen w)).

Definition print (o : output) : M unit := λ w,
  inr (tt, MkWorld (files w) (noise w) (drawn w) (objs w) (reads w) (calls w)
             (screen w ++ [o])).

(** [hl.rand_norm(mean, sd)], evaluated once. *)
Definition rand_norm (mean sd : Q) : M Q := λ w,
  inr (mean + sd * noise w (drawn w),
       MkWorld (files w) (noise w) (S (drawn w)) (objs w) (reads w) (calls w)
         (screen w)).

Fixpoint for_each {A B} (f : A → M B) (l : list A) : M (list B) :=
  match l with
  | [] => mret []
  | a :: l' => b ← f a; bs ← for_each f l'; mret (b :: bs)
  end.

(** Loading: the file at the path, when it is of the kind the loader
    reads, becomes a new object of the session; on a path that holds
    nothing, or a file of another kind, the library's loaders raise
    [hail.utils.java.FatalError]. *)
Definition load (l : loader) (name : string) (kind : obj → bool)
    (path : string) : M nat := λ w,
  match files w !! path with
  | Some o =>
      if kind o then
        inr (length (objs w),
             MkWorld (files w) (noise w) (drawn w) (objs w ++ [o])
               (reads w ++ [(l, path)]) (calls w ++ [name]) (screen w))
      else inl (Raised "FatalError")
  | None => inl (Raised "FatalError")
  end.

Definition is_matrix_table (o : obj) : bool :=
  match o with
  | OMatrix _ | OGrouped _ | OAnnotated _ | ORelMatrix _ _ => true
  | _ => false
  end.

Definition is_table (o : obj) : bool :=
  match o with
  | OGenes _ | OPhenos _ | OScores _ | OResults _ | OVariantResults _
  | OSkat _ | OSampleData _ | OScoresByIdx _ | ORawPairs _ | OPairs _
  | OSamples _ => true
  | _ => false
  end.

(** [hl.read_matrix_table(path)], [hl.read_table(path)] and
    [hl.import_table(path, key='sample_id', impute=True)] *)
Definition read_matrix_table : string → M nat :=
  load matrix_table_loader "read_matrix_table" is_matrix_table.
Definition read_table : string → M nat :=
  load table_loader "read_table" is_table.
Definition import_table : string → M nat :=
  load text_loader "import_table" is_table.

(** Reading an object at the type a cell uses it at; any other object
    lacks the fields the cell names. *)
Definition as_matrix (r : nat) : M RareVariants.GenotypeMatrix :=
  o ← deref r;
  match o with OMatrix m => mret m | _ => raise (Raised "AttributeError") end.
Definition as_grouped (r : nat) : M RareVariants.BurdenMatrix :=
  o ← deref r;
  match o with OGrouped m => mret m | _ => raise (Raised "AttributeError") end.
Definition as_genes (r : nat) : M (list RareVariants.gene_row) :=
  o ← deref r;
  match o with OGenes t => mret t | _ => raise (Raised "AttributeError") end.
Definition as_phenos (r : nat) : M (gmap string RareVariants.pheno_row) :=
  o ← deref r;
  match o with OPhenos t => mret t | _ => raise (Raised "AttributeError") end.
Definition as_scores (r : nat) : M (list (string * list Q)) :=
  o ← deref r;
  match o with OScores t => mret t | _ => raise (Raised "AttributeError") end.
Definition as_results (r : nat) : M (list (option string * linreg_row)) :=
  o ← deref r;
  match o with OResults t => mret t | _ => raise (Raised "AttributeError") end.
Definition as_variant_results (r : nat)
  : M (list (string * Z * list string * linreg_row)) :=
  o ← deref r;
  match o with
  | OVariantResults t => mret t
  | _ => raise (Raised "AttributeError")
  end.
Definition as_skat (r : nat) : M (list RareVariants.skat_row) :=
  o ← deref r;
  match o with OSkat t => mret t | _ => raise (Raised "AttributeError") end.
Definition as_rel_matrix (r : nat)
  : M (Relatedness.RelMatrix * option Relatedness.relatedness) :=
  o ← deref r;
  match o with
  | ORelMatrix m g => mret (m, g)
  | _ => raise (Raised "AttributeError")
  end.
Definition as_sample_data (r : nat)
  : M (gmap string Relatedness.sample_data_row) :=
  o ← deref r;
  match o with
  | OSampleData t => mret t
  | _ => raise (Raised "AttributeError")
  end.
Definition as_scores_by_idx (r : nat) : M (list (option Z * list Q)) :=
  o ← deref r;
  match o with
  | OScoresByIdx t => mret t
  | _ => raise (Raised "AttributeError")
  end.
Definition as_pairs (r : nat) : M (list Relatedness.pair_row) :=
  o ← deref r;
  match o with OPairs t => mret t | _ => raise (Raised "AttributeError") end.
Definition as_figure (r : nat) : M figure :=
  o ← deref r;
  match o with OFigure f => mret f | _ => raise (Raised "AttributeError") end.

(** A library call that builds a new object. *)
Definition method (name : string) (o : obj) : M nat := call name;; new o.

(** [x.show()], [x.describe()], [x.summarize()]: the object on the screen. *)
Definition show (name : string) (kwargs : list (string * string)) (r : nat)
  : M unit :=
  o ← deref r; call name;; print (Shown name kwargs o).

(** [fig.add_layout(item)]: the figure behind the reference changes. *)
Definition add_layout (fig : nat) (item : string) : M unit :=
  f ← as_figure fig;
  call "add_layout";;
  assign fig (OFigure (MkFigure (fig_points f) (fig_kwargs f)
                         (fig_layout f ++ [item]))).

(** The genotype calls of a matrix table, row by row: what [mt.GT] hands
    to an engine. *)
Definition gt_matrix {R C} (m : Hl.MatrixTable R C Hl.entry)
  : list (list (option Hl.call)) :=
  map (λ re, map Hl.GT re.2) (Hl.mt_rows m).

(** *** The statistical engines of the library *)

Class Engines := {
  (** [hl.hwe_normalized_pca(mt.GT)]: the scores of every column *)
  hwe_normalized_pca : list (list (option Hl.call)) → exn + list (list Q);
  linear_regression_rows :
    ∀ K : Type, RareVariants.regression_input K → exn + list (K * linreg_row);
  skat : RareVariants.regression_input (option string * option Q)
         → exn + list RareVariants.skat_row;
  (** [hl.log(x, base)] *)
  log : Q → Q → Q;
  (** [hl.simulate_random_mating(mt, pairs_per_generation_multiplier,
      children_per_pair, n_rounds, seed)]: the new matrix table and the
      relatedness graph in its globals *)
  simulate_random_mating :
    Relatedness.RelMatrix → Q → nat → nat → Z
    → exn + Relatedness.RelMatrix * Relatedness.relatedness;
  (** [hl.str] and [hl.int] on sample indices *)
  str : Z → string;
  int : string → option Z;
  (** [hl.identity_by_descent(mt, min, max)] on the column keys and calls:
      rows [i], [j], [ibd.PI_HAT] *)
  identity_by_descent :
    list (option string) → list (list (option Hl.call)) → Q → Q
    → exn + list (string * string * option Q);
  (** [hl.king(mt.GT)]: [phi] for every pair of columns *)
  king : list (list (option Hl.call)) → exn + list (list (option Q));
  (** [hl.pc_relate(mt.GT, min_individual_maf, k, statistics='kin')]:
      rows of two column positions and [kin] *)
  pc_relate : list (list (option Hl.call)) → Q → nat
              → exn + list (nat * nat * option Q)
}.

End Session.

(** ** Notebook 03 as a session *)

Module Notebook03.
Import Session Relatedness.

Section Cells.
Context `{Engines}.

(** [mt = hl.read_matrix_table('resources/hgdp.mt')],
    [sd = hl.import_table('resources/HGDP_sample_data.tsv', ...)],
    [mt = mt.annotate_cols(sample_idx = ..., sample_data = sd[mt.s])] *)
Definition read_hgdp : M (nat * nat) :=
  mt ← read_matrix_table "resources/hgdp.mt";
  sd ← import_table "resources/HGDP_sample_data.tsv";
  '(m, g) ← as_rel_matrix mt;
  t ← as_sample_data sd;
  mt ← method "annotate_cols" (ORelMatrix (annotate_sample_idx t m) g);
  mret (mt, sd).

(** [_, scores, _ = hl.hwe_normalized_pca(mt.GT)] *)
Definition pca (mt : nat) : M nat :=
  '(m, _) ← as_rel_matrix mt;
  sc ← of_result (hwe_normalized_pca (gt_matrix m));
  method "hwe_normalized_pca" (OScores (zip (map s (Hl.mt_cols m)) sc)).

(** [show(hl.plot.scatter(scores.scores[0], scores.scores[1],
    label=mt.index_cols(scores.key).sample_data.continental_pop, ...))] *)
Definition plot_pca (mt scores : nat) : M unit :=
  '(m, _) ← as_rel_matrix mt;
  sc ← as_scores scores;
  let label k :=
    c ← List.find (λ c, bool_decide (s c = k)) (Hl.mt_cols m);
    d ← sample_data c;
    sd_continental_pop d in
  fig ← method "plot.scatter"
    (OFigure (MkFigure
       (map (λ kv, MkPoint (Num (kv.2 !! 0%nat)) (Num (kv.2 !! 1%nat))
                     [Label (label kv.1)]) sc)
       [("size", "8"); ("xlabel", "PC1"); ("ylabel", "PC2")] []));
  show "show" [] fig.

(** [mt1 = hl.simulate_random_mating(mt, ...).key_cols_by('sample_idx')],
    [mt1 = mt1.annotate_cols(...).persist()], [mt1.count()] *)
Definition simulate (mt : nat) : M nat :=
  '(m, g) ← as_rel_matrix mt;
  '(m1, rel) ← of_result (simulate_random_mating m (1 # 2) 2 3 5);
  mt1 ← method "simulate_random_mating" (ORelMatrix m1 (Some rel));
  mt1 ← method "key_cols_by" (ORelMatrix m1 (Some rel));
  keyed ← method "key_cols_by" (ORelMatrix m g);
  mt1 ← method "annotate_cols"
    (ORelMatrix (annotate_founder_data m m1) (Some rel));
  mt1 ← method "persist" (ORelMatrix (annotate_founder_data m m1) (Some rel));
  show "count" [] mt1;;
  mret mt1.

(** [_, scores1, _ = hl.hwe_normalized_pca(mt1.GT)] *)
Definition pca1 (mt1 : nat) : M nat :=
  '(m, _) ← as_rel_matrix mt1;
  sc ← of_result (hwe_normalized_pca (gt_matrix m));
  method "hwe_normalized_pca"
    (OScoresByIdx (zip (map sample_idx (Hl.mt_cols m)) sc)).

(** [joined_data = mt1.index_cols(scores1.key)] and the scatter plot
    labelled by [joined_data.continental_pop]. *)
Definition plot_pca1 (mt1 scores1 : nat) : M unit :=
  '(m, _) ← as_rel_matrix mt1;
  sc ← as_scores_by_idx scores1;
  let joined_data k :=
    List.find (λ c, bool_decide (sample_idx c = k)) (Hl.mt_cols m) in
  fig ← method "plot.scatter"
    (OFigure (MkFigure
       (map (λ kv, MkPoint (Num (kv.2 !! 0%nat)) (Num (kv.2 !! 1%nat))
                     [Label (joined_data kv.1 ≫= continental_pop);
                      Label (s <$> joined_data kv.1)]) sc)
       [("size", "6"); ("xlabel", "PC1"); ("ylabel", "PC2")] []));
  show "show" [] fig.

(** [rel = mt1.index_globals().relatedness] *)
Definition index_relatedness (mt1 : nat) : M relatedness :=
  '(_, g) ← as_rel_matrix mt1;
  call "index_globals";;
  match g with
  | Some rel => mret rel
  | None => raise (Raised "AttributeError")
  end.

(** The point of a pair in a relatedness plot: [truth] of the pair and
    of a fresh jitter against the estimate, with the two ids to hover. *)
Definition pair_point (truth : option Z → option Z → option Q → option Q)
    (r : pair_row) : M point :=
  z ← rand_norm 0 (5 # 1000);
  mret (MkPoint (Num (truth (i r) (j r) (Some z))) (Num (estimate r))
          [Int (i r); Int (j r)]).

(** [fig = hl.plot.scatter(...)],
    [fig.add_layout(Slope(gradient=1, y_intercept=0, ...))], [show(fig)] *)
Definition plot_pairs (truth : option Z → option Z → option Q → option Q)
    (xlabel ylabel : string) (pairs : nat) : M unit :=
  t ← as_pairs pairs;
  points ← for_each (pair_point truth) t;
  fig ← method "plot.scatter"
    (OFigure (MkFigure points [("xlabel", xlabel); ("ylabel", ylabel)] []));
  add_layout fig "Slope(gradient=1, y_intercept=0)";;
  show "show" [] fig.

(** [ibd = hl.identity_by_descent(
      mt1.key_cols_by(sample_idx=hl.str(mt1.sample_idx)), min=0, max=1)],
    [ibd = ibd.key_by(i=hl.int(ibd.i), j=hl.int(ibd.j))] and the plot of
    [get_rel(ibd.i, ibd.j) * 2] against [ibd.ibd.PI_HAT]. *)
Definition ibd_cell (rel : relatedness) (mt1 : nat) : M nat :=
  '(m, g) ← as_rel_matrix mt1;
  keyed ← method "key_cols_by" (ORelMatrix m g);
  rows ← of_result
    (identity_by_descent (map (λ c, str <$> sample_idx c) (Hl.mt_cols m))
       (gt_matrix m) 0 1);
  ibd ← method "identity_by_descent" (ORawPairs rows);
  ibd ← method "key_by"
    (OPairs (map (λ r, MkPair (int r.1.1) (int r.1.2) r.2) rows));
  plot_pairs (true_relatedness rel) "True coefficient of relatedness"
    "IBD PI_HAT" ibd;;
  mret ibd.

(** [hl.king(mt1.GT).entries()]: one row per ordered pair of columns. *)
Definition king_entries (cols : list sample) (phi : list (list (option Q)))
  : list pair_row :=
  concat (imap (λ a ca,
            imap (λ b cb, MkPair (sample_idx ca) (sample_idx cb)
                            (mjoin (phi !! a ≫= (.!! b))))
                 cols)
          cols).

(** [king = hl.king(mt1.GT).entries()],
    [king = king.filter(king.sample_idx != king.sample_idx_1)] and the plot
    of [get_rel(king.sample_idx, king.sample_idx_1)] against [king.phi]. *)
Definition king_cells (rel : relatedness) (mt1 : nat) : M nat :=
  '(m, _) ← as_rel_matrix mt1;
  phi ← of_result (king (gt_matrix m));
  call "king";;
  king ← method "entries" (OPairs (king_entries (Hl.mt_cols m) phi));
  king ← method "filter"
    (OPairs (remove_self_comparisons (king_entries (Hl.mt_cols m) phi)));
  plot_pairs (get_rel rel) "True kinship" "KING Phi" king;;
  mret king.

(** [pcrel = hl.pc_relate(mt1.GT, 0.01, k=4, statistics='kin')],
    [pcrel = pcrel.key_by(i=pcrel.i.sample_idx, j=pcrel.j.sample_idx)] and
    the plot of [get_rel(pcrel.i, pcrel.j)] against [pcrel.kin]. *)
Definition pcrel_cell (rel : relatedness) (mt1 : nat) : M nat :=
  '(m, _) ← as_rel_matrix mt1;
  rows ← of_result (pc_relate (gt_matrix m) (1 # 100) 4);
  let keyed :=
    map (λ r, MkPair (Hl.mt_cols m !! r.1.1 ≫= sample_idx)
                     (Hl.mt_cols m !! r.1.2 ≫= sample_idx) r.2) rows in
  pcrel ← method "pc_relate" (OPairs keyed);
  pcrel ← method "key_by" (OPairs keyed);
  plot_pairs (get_rel rel) "True kinship" "PC-Relate Kinship" pcrel;;
  mret pcrel.

(** [mt1.filter_cols(hl.literal([50, 100, 1000]).contains(mt1.sample_idx))
      .cols().show()] *)
Definition interrogate_cell (mt1 : nat) : M unit :=
  '(m, _) ← as_rel_matrix mt1;
  call "filter_cols";;
  t ← method "cols" (OSamples (interrogate [50; 100; 1000]%Z m));
  show "show" [] t.

Definition notebook : M unit :=
  '(mt, sd) ← read_hgdp;
  scores ← pca mt;
  plot_pca mt scores;;
  mt1 ← simulate mt;
  scores1 ← pca1 mt1;
  plot_pca1 mt1 scores1;;
  rel ← index_relatedness mt1;
  ibd ← ibd_cell rel mt1;
  king ← king_cells rel mt1;
  pcrel ← pcrel_cell rel mt1;
  interrogate_cell mt1.

End Cells.
End Notebook03.

(** ** Notebook 02 as a session *)

Module Notebook02.
Import Session RareVariants.

Section Cells.
Context `{Engines}.

(** Step 1: [mt = hl.read_matrix_table(...)] and the three
    [mt = mt.filter_rows(...)] *)
Definition step1 : M nat :=
  mt ← read_matrix_table "resources/hgdp-tgp-rare-variants.mt";
  m ← as_matrix mt;
  mt ← method "filter_rows" (OMatrix (remove_non_pass m));
  m ← as_matrix mt;
  mt ← method "filter_rows" (OMatrix (remove_common m));
  m ← as_matrix mt;
  method "filter_rows" (OMatrix (remove_all_hom_ref m)).

(** Step 2: [genes = hl.read_table(...)], [genes.show()], the gene names,
    [phenos = hl.read_table(...)], the phenotypes, [mt.gene_name.show()] *)
Definition step2 (mt : nat) : M (nat * nat * nat) :=
  genes ← read_table "resources/genes.ht";
  show "show" [] genes;;
  m ← as_matrix mt;
  t ← as_genes genes;
  mt ← method "annotate_rows" (OMatrix (annotate_gene_name t m));
  phenos ← read_table "resources/rare-variant-phenotypes.ht";
  m ← as_matrix mt;
  p ← as_phenos phenos;
  mt ← method "annotate_cols" (OMatrix (annotate_phenos p m));
  show "gene_name.show" [] mt;;
  mret (mt, genes, phenos).

(** Step 3: [burden_mt = mt.group_rows_by(mt.gene_name).aggregate(...)],
    [burden_mt = burden_mt.filter_rows(...)], [describe] and [show] *)
Definition step3 (mt : nat) : M nat :=
  m ← as_matrix mt;
  burden_mt ← method "group_rows_by.aggregate"
    (OGrouped (Hl.group_rows_by_aggregate gene_name n_variants m));
  g ← as_grouped burden_mt;
  burden_mt ← method "filter_rows"
    (OGrouped (Hl.filter_rows some_variant true g));
  show "describe" [("widget", "True")] burden_mt;;
  show "show" [("n_cols", "5"); ("n_rows", "5")] burden_mt;;
  mret burden_mt.

(** [xx = burden_mt],
    [xx.aggregate_entries(hl.agg.fraction(xx.n_variants == 0))] *)
Definition fraction_zero (burden_mt : nat) : M unit :=
  let xx := burden_mt in
  m ← as_grouped xx;
  call "aggregate_entries";;
  print (Number (Hl.agg_fraction
                   (map (λ n, Some (Z.eqb n 0))
                        (concat (map snd (Hl.mt_rows m)))))).

(** [xx = burden_mt],
    [xx = xx.annotate_rows(frac_zero = hl.agg.fraction(xx.n_variants == 0))],
    [xx.aggregate_rows(hl.agg.hist(xx.frac_zero, 0, 1, 20))] *)
Definition histogram_zero (burden_mt : nat) : M unit :=
  let xx := burden_mt in
  m ← as_grouped xx;
  let annotated :=
    Hl.annotate_rows
      (λ g es, (g, Hl.agg_fraction (map (λ n, Some (Z.eqb n 0)) es))) m in
  xx ← method "annotate_rows" (OAnnotated annotated);
  call "aggregate_rows";;
  print (Histogram (Hl.agg_hist 20 (map (λ re, re.1.2) (Hl.mt_rows annotated)))).

(** [xx = burden_mt],
    [xx = xx.annotate_rows(n_zero_variants =
       hl.agg.count_where(xx.n_variants == 0))],
    [xx.aggregate_rows(hl.agg.counter(xx.n_zero_variants))] *)
Definition counter_zero (burden_mt : nat) : M unit :=
  let xx := burden_mt in
  m ← as_grouped xx;
  let n_zero_variants es :=
    Hl.agg_count_where (map (λ n, Some (Z.eqb n 0)) es) in
  xx ← method "annotate_rows"
    (OAnnotated
       (Hl.annotate_rows
          (λ g es, (g, Some (inject_Z (n_zero_variants es)))) m));
  call "aggregate_rows";;
  print (Counter (Hl.agg_counter
                    (map (λ re, n_zero_variants re.2) (Hl.mt_rows m)))).

(** [mt.describe(widget=True)], [mt.splice_ai.summarize()],
    [mt.cadd.summarize()] and
    [mt.aggregate_rows(hl.agg.counter(mt.vep.most_severe_consequence))] *)
Definition explore_annotations (mt : nat) : M unit :=
  show "describe" [("widget", "True")] mt;;
  show "splice_ai.summarize" [] mt;;
  show "cadd.summarize" [] mt;;
  m ← as_matrix mt;
  call "aggregate_rows";;
  print (StrCounter
           (Hl.agg_counter
              (map (λ re, most_severe_consequence re.1) (Hl.mt_rows m)))).

(** The bar chart [ggplot(ht) + geom_col(aes(x=ht.gene_name,
    y=-hl.log(ht.p_value, base=10)))] of a table of p-values by gene. *)
Definition plot_p_values (bars : list (option string * option Q)) : M unit :=
  fig ← method "ggplot"
    (OFigure (MkFigure
       (map (λ b, MkPoint (Label b.1) (Num ((λ p, - log p 10) <$> b.2)) [])
            bars)
       [("base", "10")] ["geom_col"]));
  show "show" [] fig.

(** The Exercise 2 cell: the weights, the weighted aggregation [xx], its
    regression [weighted_burden] and the bar chart of [ht]; the cell
    leaves [mt] and [ht] rebound. *)
Definition weighted_burden_cell (mt pca_scores : nat) : M (nat * nat) :=
  m ← as_matrix mt;
  mt ← method "annotate_rows" (OMatrix (annotate_weights m));
  m ← as_matrix mt;
  sc ← as_scores pca_scores;
  mt ← method "annotate_cols" (OMatrix (annotate_pca (list_to_map sc) m));
  m ← as_matrix mt;
  xx ← method "group_rows_by.aggregate"
    (OGrouped (Hl.group_rows_by_aggregate gene_name weighted_n_variants m));
  g ← as_grouped xx;
  xx ← method "filter_rows" (OGrouped (Hl.filter_rows some_variant true g));
  g ← as_grouped xx;
  res ← of_result (linear_regression_rows _ (burden_regression_input g));
  weighted_burden ← method "linear_regression_rows" (OResults res);
  let ht := weighted_burden in
  t ← as_results ht;
  plot_p_values (map (λ kr, (kr.1, lr_p_value kr.2)) t);;
  mret (mt, ht).

(** [xx = xx.annotate_rows(n_zero = hl.agg.count_where(xx.n_variants != 0))],
    [ggplot(xx) + geom_col(aes(x=xx.gene_name, y=xx.n_zero))] *)
Definition plot_n_zero (burden_mt : nat) : M unit :=
  let xx := burden_mt in
  m ← as_grouped xx;
  let n_zero es :=
    Hl.agg_count_where (map (λ n, Some (negb (Z.eqb n 0))) es) in
  xx ← method "annotate_rows"
    (OAnnotated
       (Hl.annotate_rows (λ g es, (g, Some (inject_Z (n_zero es)))) m));
  fig ← method "ggplot"
    (OFigure (MkFigure
       (map (λ re, MkPoint (Label re.1) (Int (Some (n_zero re.2))) [])
            (Hl.mt_rows m))
       [] ["geom_col"]));
  show "show" [] fig.

(** [_, pca_scores, _ = hl.hwe_normalized_pca(mt.GT)] *)
Definition pca (mt : nat) : M nat :=
  m ← as_matrix mt;
  sc ← of_result (hwe_normalized_pca (gt_matrix m));
  method "hwe_normalized_pca" (OScores (zip (map s (Hl.mt_cols m)) sc)).

(** Step 4: [burden_mt = burden_mt.annotate_cols(pca = ...)],
    [burden_results = hl.linear_regression_rows(...)], the bar chart, the
    ordered table and the Q-Q plot. *)
Definition step4 (burden_mt pca_scores : nat) : M nat :=
  g ← as_grouped burden_mt;
  sc ← as_scores pca_scores;
  burden_mt ← method "annotate_cols"
    (OGrouped (annotate_pca (list_to_map sc) g));
  g ← as_grouped burden_mt;
  res ← of_result (linear_regression_rows _ (burden_regression_input g));
  burden_results ← method "linear_regression_rows" (OResults res);
  let ht := burden_results in
  t ← as_results ht;
  plot_p_values (map (λ kr, (kr.1, lr_p_value kr.2)) t);;
  show "order_by.show" [] burden_results;;
  p ← method "plot.qq"
    (OFigure (MkFigure
       (map (λ kr, MkPoint (Label kr.1) (Num (lr_p_value kr.2)) []) t) [] []));
  show "plot.show" [] p;;
  mret burden_results.

(** [genes.filter(hl.set([...]).contains(genes.gene_name)).show()] *)
Definition show_genes (names : list string) (genes : nat) : M unit :=
  t ← as_genes genes;
  shown ← method "filter"
    (OGenes (List.filter
               (λ g, bool_decide (option_map (λ n, bool_decide (n ∈ names))
                                    (gene g) = Some true)) t));
  show "show" [] shown.

(** [mt = mt.annotate_cols(pca = pca_scores[mt.s])],
    [linreg_results = hl.linear_regression_rows(y=..., x=mt.GT.n_alt_alleles(),
    ...)], the Manhattan plot and the ordered table. *)
Definition gwas (y : sample → option Q) (mt pca_scores : nat) : M nat :=
  m ← as_matrix mt;
  sc ← as_scores pca_scores;
  mt ← method "annotate_cols" (OMatrix (annotate_pca (list_to_map sc) m));
  m ← as_matrix mt;
  res ← of_result (linear_regression_rows _ (gwas_regression_input y m));
  linreg_results ← method "linear_regression_rows" (OVariantResults res);
  let ht := linreg_results in
  t ← as_variant_results ht;
  p ← method "plot.manhattan"
    (OFigure (MkFigure
       (map (λ kr, MkPoint (Int (Some kr.1.1.2)) (Num (lr_p_value kr.2))
                     [Label (Some kr.1.1.1)]) t) [] []));
  show "plot.show" [] p;;
  show "order_by.show" [] linreg_results;;
  mret mt.

(** The SKAT cells: [skat_mt], [skat_results = hl.skat(...)],
    [ht.describe()], the fault translation and its bar chart, and the
    ordered table of [skat_results]. *)
Definition skat_cells (mt pca_scores ht : nat) : M nat :=
  let skat_mt := mt in
  m ← as_matrix skat_mt;
  sc ← as_scores pca_scores;
  skat_mt ← method "annotate_cols"
    (OMatrix (annotate_pca (list_to_map sc) m));
  m ← as_matrix skat_mt;
  skat_mt ← method "variant_qc" (OMatrix (variant_qc m));
  m ← as_matrix skat_mt;
  skat_mt ← method "annotate_rows" (OMatrix (annotate_weight m));
  m ← as_matrix skat_mt;
  res ← of_result (skat (skat_input m));
  skat_results ← method "skat" (OSkat res);
  show "describe" [] ht;;
  let ht := skat_results in
  t ← as_skat ht;
  ht ← method "annotate" (OSkat (map annotate_p_value t));
  t ← as_skat ht;
  plot_p_values (map (λ r, (id r, p_value r)) t);;
  show "order_by.show" [] skat_results;;
  mret skat_results.

Definition notebook : M unit :=
  mt ← step1;
  '(mt, genes, phenos) ← step2 mt;
  burden_mt ← step3 mt;
  fraction_zero burden_mt;;
  histogram_zero burden_mt;;
  counter_zero burden_mt;;
  plot_n_zero burden_mt;;
  pca_scores ← pca mt;
  burden_results ← step4 burden_mt pca_scores;
  show_genes ["MREG"; "TFB2M"] genes;;
  mt ← gwas pheno1 mt pca_scores;
  explore_annotations mt;;
  '(mt, ht) ← weighted_burden_cell mt pca_scores;
  show "order_by.show" [] ht;;
  skat_results ← skat_cells mt pca_scores ht;
  show_genes ["KLHL5"; "SFT2D2"] genes;;
  mt ← gwas pheno2 mt pca_scores;
  mret ().

End Cells.
End Notebook02.

(** ** The solutions guide: its code cells *)

Module SolutionGuide.
Import Session RareVariants.

Section Cells.
Context `{Engines}.

(** [xx = burden_mt],
    [xx.aggregate_entries(hl.agg.fraction(xx.n_variants == 0))] *)
Definition fraction_zero (burden_mt : nat) : M unit :=
  let xx := burden_mt in
  m ← as_grouped xx;
  call "aggregate_entries";;
  print (Number (Hl.agg_fraction
                   (map (λ n, Some (Z.eqb n 0))
                        (concat (map snd (Hl.mt_rows m)))))).

(** [xx = burden_mt],
    [xx = xx.annotate_rows(frac_zero = hl.agg.fraction(xx.n_variants == 0))],
    [xx.aggregate_rows(hl.agg.hist(xx.frac_zero, 0, 1, 20))] *)
Definition histogram_zero (burden_mt : nat) : M unit :=
  let xx := burden_mt in
  m ← as_grouped xx;
  let annotated :=
    Hl.annotate_rows
      (λ g es, (g, Hl.agg_fraction (map (λ n, Some (Z.eqb n 0)) es))) m in
  xx ← method "annotate_rows" (OAnnotated annotated);
  call "aggregate_rows";;
  print (Histogram (Hl.agg_hist 20 (map (λ re, re.1.2) (Hl.mt_rows annotated)))).

(** [xx = burden_mt],
    [xx = xx.annotate_rows(n_zero_variants =
       hl.agg.count_where(xx.n_variants == 0))],
    [xx.aggregate_rows(hl.agg.counter(xx.n_zero_variants))] *)
Definition counter_zero (burden_mt : nat) : M unit :=
  let xx := burden_mt in
  m ← as_grouped xx;
  let n_zero_variants es :=
    Hl.agg_count_where (map (λ n, Some (Z.eqb n 0)) es) in
  xx ← method "annotate_rows"
    (OAnnotated
       (Hl.annotate_rows
          (λ g es, (g, Some (inject_Z (n_zero_variants es)))) m));
  call "aggregate_rows";;
  print (Counter (Hl.agg_counter
                    (map (λ re, n_zero_variants re.2) (Hl.mt_rows m)))).

(** [mt.describe(widget=True)], [mt.splice_ai.summarize()],
    [mt.cadd.summarize()] and
    [mt.aggregate_rows(hl.agg.counter(mt.vep.most_severe_consequence))] *)
Definition explore_annotations (mt : nat) : M unit :=
  show "describe" [("widget", "True")] mt;;
  show "splice_ai.summarize" [] mt;;
  show "cadd.summarize" [] mt;;
  m ← as_matrix mt;
  call "aggregate_rows";;
  print (StrCounter
           (Hl.agg_counter
              (map (λ re, most_severe_consequence re.1) (Hl.mt_rows m)))).

(** The bar chart [ggplot(ht) + geom_col(aes(x=ht.gene_name,
    y=-hl.log(ht.p_value, base=10)))] of a table of p-values by gene. *)
Definition plot_p_values (bars : list (option string * option Q)) : M unit :=
  fig ← method "ggplot"
    (OFigure (MkFigure
       (map (λ b, MkPoint (Label b.1) (Num ((λ p, - log p 10) <$> b.2)) [])
            bars)
       [("base", "10")] ["geom_col"]));
  show "show" [] fig.

(** The Exercise 2 cell: the weights, the weighted aggregation [xx], its
    regression [weighted_burden] and the bar chart of [ht]; the cell
    leaves [mt] and [ht] rebound. *)
Definition weighted_burden_cell (mt pca_scores : nat) : M (nat * nat) :=
  m ← as_matrix mt;
  mt ← method "annotate_rows" (OMatrix (annotate_weights m));
  m ← as_matrix mt;
  sc ← as_scores pca_scores;
  mt ← method "annotate_cols" (OMatrix (annotate_pca (list_to_map sc) m));
  m ← as_matrix mt;
  xx ← method "group_rows_by.aggregate"
    (OGrouped (Hl.group_rows_by_aggregate gene_name weighted_n_variants m));
  g ← as_grouped xx;
  xx ← method "filter_rows" (OGrouped (Hl.filter_rows some_variant true g));
  g ← as_grouped xx;
  res ← of_result (linear_regression_rows _ (burden_regression_input g));
  weighted_burden ← method "linear_regression_rows" (OResults res);
  let ht := weighted_burden in
  t ← as_results ht;
  plot_p_values (map (λ kr, (kr.1, lr_p_value kr.2)) t);;
  mret (mt, ht).

End Cells.
End SolutionGuide.

(** ** Vocabulary of the session properties *)

Module Logic.
Import Session.

(** From [w] to [w'] no file was rewritten and no library-owned object
    was changed: every such object of [w] is the same object in [w']. *)
Definition unchanged (w w' : world) : Prop :=
  files w' = files w
  ∧ ∀ r o, objs w !! r = Some o → library_owned o = true →
           objs w' !! r = Some o.

(** Every run of [m] that returns leaves files and library-owned objects
    unchanged. *)
Definition preserves {A} (m : M A) : Prop :=
  ∀ w a w', m w = inr (a, w') → unchanged w w'.

(** Every run of [m] that returns loads the files [l], in that order. *)
Definition reads_exactly {A} (m : M A) (l : list (loader * string)) : Prop :=
  ∀ w a w', m w = inr (a, w') → reads w' = reads w ++ l.

(** [Q] holds after every run of [m] that returns. *)
Definition ensures {A} (m : M A) (Q : world → Prop) : Prop :=
  ∀ w a w', m w = inr (a, w') → Q w'.

Definition stable (Q : world → Prop) : Prop :=
  ∀ w w', unchanged w w' → Q w → Q w'.

(** The session holds an object equal to the file at [path]. *)
Definition loaded (path : string) (w : world) : Prop :=
  ∃ r o, files w !! path = Some o ∧ objs w !! r = Some o
         ∧ library_owned o = true.

(** The file at [path] is of the given kind. *)
Definition holds (path : string) (kind : obj → Prop) (w : world) : Prop :=
  ∃ o, files w !! path = Some o ∧ kind o.

(** The four kinds of input: genotype matrix tables (of either notebook),
    the sample-data table, the gene-interval table, the phenotype table. *)
Inductive genotype_matrix_table : obj → Prop :=
| rare_variant_matrix m : genotype_matrix_table (OMatrix m)
| relatedness_matrix m g : genotype_matrix_table (ORelMatrix m g).
Inductive sample_data_table : obj → Prop :=
| sample_data_of t : sample_data_table (OSampleData t).
Inductive gene_interval_table : obj → Prop :=
| gene_intervals_of t : gene_interval_table (OGenes t).
Inductive phenotype_table : obj → Prop :=
| phenotypes_of t : phenotype_table (OPhenos t).

(** Two worlds that differ at most in files outside [paths]. *)
Definition agree (paths : list string) (w1 w2 : world) : Prop :=
  (∀ p, p ∈ paths → files w1 !! p = files w2 !! p)
  ∧ noise w1 = noise w2 ∧ drawn w1 = drawn w2 ∧ objs w1 = objs w2
  ∧ reads w1 = reads w2 ∧ calls w1 = calls w2 ∧ screen w1 = screen w2.

(** [m] consults no file outside [paths]: on worlds that agree it raises
    the same exception or returns the same value in worlds that agree. *)
Definition consults_only {A} (paths : list string) (m : M A) : Prop :=
  ∀ w1 w2, agree paths w1 w2 →
    match m w1, m w2 with
    | inl e1, inl e2 => e1 = e2
    | inr (a1, w1'), inr (a2, w2') => a1 = a2 ∧ agree paths w1' w2'
    | _, _ => False
    end.

(** The files each notebook loads, in order. *)
Definition notebook02_reads : list (loader * string) :=
  [(matrix_table_loader, "resources/hgdp-tgp-rare-variants.mt"%string);
   (table_loader, "resources/genes.ht"%string);
   (table_loader, "resources/rare-variant-phenotypes.ht"%string)].

Definition notebook03_reads : list (loader * string) :=
  [(matrix_table_loader, "resources/hgdp.mt"%string);
   (text_loader, "resources/HGDP_sample_data.tsv"%string)].

(** A value that the library handed over: missing, a jitter draw, or an
    entry of the relatedness graph. *)
Definition passed_through (rel : Relatedness.relatedness) (jitter : Q)
    (v : option Q) : Prop :=
  match v with
  | None => True
  | Some q =>
      q == jitter
      ∨ ∃ a b q', rel !! a ≫= (.!! b) = Some q' ∧ q == q'
  end.

End Logic.

(** ** Concrete inputs *)

Module Examples.
Import RareVariants.

(** A relatedness graph with one pair of full siblings. *)
Definition sibling_graph : Relatedness.relatedness :=
  {[ 5%Z := {[ 2%Z := 1 # 4 ]} ]}.

(** A SKAT result row whose computation reported fault code [1]. *)
Definition faulted_row : skat_row :=
  MkSkat (Some "KLHL5"%string) 12 (Some (7 # 2)) (Some (3 # 100)) (Some 1%Z).

(** One PASS missense variant inside the MREG interval, carried only by
    the first of 101 samples, who is homozygous for the alternate allele. *)
Definition mreg_variant : variant :=
  MkVariant ("chr2"%string, 216000000%Z) ["A"; "T"]%string (Some [])
    (Some "missense_variant"%string) (Some 20) None None None None None.

Definition hom_alt : entry := MkEntry (Some (Hl.Call 1 1)).
Definition hom_ref : entry := MkEntry (Some (Hl.Call 0 0)).

Definition cohort : list sample :=
  map (λ n, MkSample (String.append "S"
                       (String (Ascii.ascii_of_nat (48 + n / 100))
                       (String (Ascii.ascii_of_nat (48 + n / 10 mod 10))
                       (String (Ascii.ascii_of_nat (48 + n mod 10)) EmptyString))))
                     (Some (inject_Z (Z.of_nat n))) (Some 0) None)
      (seq 0 101).

Definition one_carrier : GenotypeMatrix :=
  Hl.MkMatrixTable [(mreg_variant, hom_alt :: replicate 100 hom_ref)] cohort.

Definition gene_intervals : list gene_row :=
  [MkGene "chr2" 215940000 216034000 true false (Some "MREG"%string)].

(** Six founders typed at one variant, and their sample sheet. *)
Definition founders : Relatedness.RelMatrix :=
  Hl.MkMatrixTable
    [(("chr1"%string, 1000%Z, ["A"; "G"]%string),
      [hom_ref; hom_alt; hom_ref; hom_ref; hom_alt; hom_ref])]
    (map (λ n, Relatedness.MkSample n None None None None)
         ["HGDP00001"; "HGDP00002"; "HGDP00003"; "HGDP00004"; "HGDP00005";
          "HGDP00006"]%string).

Definition sample_sheet : gmap string Relatedness.sample_data_row :=
  {[ "HGDP00001"%string :=
       Relatedness.MkSampleData (Some "EUROPE"%string) (Some "french"%string) ]}.

(** Engines that answer with fixed numbers, to run the notebooks on; the
    toy logarithm is the identity in its first argument. *)
Definition toy_str (z : Z) : string :=
  String (Ascii.ascii_of_nat (Z.to_nat z)) EmptyString.
Definition toy_int (x : string) : option Z :=
  match x with
  | String a EmptyString => Some (Z.of_nat (Ascii.nat_of_ascii a))
  | _ => None
  end.

Definition toy_engines : Session.Engines := {|
  Session.hwe_normalized_pca gts :=
    inr (map (λ _, [0; 0; 0]) (default [] (head gts)));
  Session.linear_regression_rows K inp :=
    inr (map (λ kx, (kx.1, Session.MkLinreg (Some 0) (Some (1 # 2))))
             (reg_x inp));
  Session.skat inp :=
    inr (map (λ kx, MkSkat kx.1.1 1 (Some 1) (Some (3 # 100)) (Some 1%Z))
             (reg_x inp));
  Session.log p _ := p;
  Session.simulate_random_mating m _ _ _ _ := inr (m, sibling_graph);
  Session.str := toy_str;
  Session.int := toy_int;
  Session.identity_by_descent _ _ _ _ :=
    inr [(toy_str 2, toy_str 5, Some (3 # 5))];
  Session.king _ := inr [];
  Session.pc_relate _ _ _ := inr [(2%nat, 5%nat, Some (1 # 4))]
|}.


(** A fresh session over the five files of [resources/]; every standard
    normal draw is [1], so every jitter is [0.005]. *)
Definition resources : gmap string Session.obj :=
  {[ "resources/hgdp.mt"%string := Session.ORelMatrix founders None;
     "resources/HGDP_sample_data.tsv"%string := Session.OSampleData sample_sheet;
     "resources/hgdp-tgp-rare-variants.mt"%string := Session.OMatrix one_carrier;
     "resources/genes.ht"%string := Session.OGenes gene_intervals;
     "resources/rare-variant-phenotypes.ht"%string := Session.OPhenos ∅ ]}.

Definition fresh : Session.world := Session.start resources (λ _, 1).

End Examples.


(** ** Notebook 02: the cell that contrasts a sum of effects with their
    magnitude *)

Module Effects.

(** [effects = np.random.normal(0, 1, size=100)]: one hundred draws, each
    the mean [0] plus the standard deviation [1] times a standard normal
    draw. *)
Definition effects (noise : nat → Q) : list Q :=
  map (λ k, 0 + 1 * noise k) (seq 0 100).

(** [np.sum(effects)] *)
Definition sum_of_effects (effects : list Q) : Q := foldr Qplus 0 effects.

(** [effects.T @ effects], the argument of [np.sqrt] in
    [magnitude_of_effects]; the square root itself is not a rational
    operation and is left to the reader of the value. *)
Definition squared_magnitude_of_effects (effects : list Q) : Q :=
  foldr Qplus 0 (zip_with Qmult effects effects).

(** [np.sum(np.abs(effects))] *)
Definition sum_of_abs_of_effects (effects : list Q) : Q :=
  foldr Qplus 0 (map Qabs effects).

End Effects.

(** ** Vocabulary of the further properties *)

Module Shape.

(** A matrix table holds one entry for every row and column. *)
Definition rectangular {R C E} (mt : Hl.MatrixTable R C E) : Prop :=
  Forall (λ re, length re.2 = length (Hl.mt_cols mt)) (Hl.mt_rows mt).

(** Whether [hl.len(filters) == 0], [AF[1] < 0.01] and
    [~hl.agg.all(GT.is_hom_ref())] all hold of a row: the three
    conditions of Step 1, decided together. *)
Definition passes_quality_control
    (re : RareVariants.variant * list RareVariants.entry) : bool :=
  bool_decide (RareVariants.filters re.1 = Some [])
  && match Hl.call_stats_AF 1 (map RareVariants.GT re.2) with
     | Some af => Hl.Qltb af (1 # 100)
     | None => false
     end
  && existsb (λ e, match RareVariants.GT e with
                   | Some c => negb (Hl.is_hom_ref c)
                   | None => false
                   end) re.2.

(** Whether [weight2] is defined and positive. *)
Definition positive_weight2 (r : RareVariants.variant) : bool :=
  match RareVariants.weight2 r with
  | Some w => Hl.Qltb 0 w
  | None => false
  end.

(** The arguments of a regression fit together: every row gives [x] for
    every sample that has a [y], and every sample has its four
    covariates. *)
Definition consistent {K} (inp : RareVariants.regression_input K) : Prop :=
  Forall (λ kx, length kx.2 = length (RareVariants.reg_y inp))
    (RareVariants.reg_x inp)
  ∧ length (RareVariants.reg_covariates inp)
    = length (RareVariants.reg_y inp)
  ∧ Forall (λ c, length c = 4%nat) (RareVariants.reg_covariates inp).

End Shape.

(** * Properties *)

(** ** The relatedness lookup [get_rel] *)

Section GetRel.
Import Relatedness.
Variable rel : relatedness.

Lemma get_rel_case_gt (s1 s2 : Z) :
  (s2 < s1)%Z →
  get_rel_case rel (Some s1) (Some s2) = Some (rel_entry rel s1 s2).
Proof.
  intros Hlt. unfold get_rel_case, rel_entry, Hl.when, Hl.int_eq, Hl.int_gt.
  cbn [Hl.lift2 Hl.if_else].
  rewrite bool_decide_eq_false_2 by lia.
  rewrite bool_decide_eq_true_2 by lia.
  cbn [Hl.dict_get]. destruct (rel !! s1) as [row|]; cbn; [|reflexivity].
  destruct (row !! s2); reflexivity.
Qed.

Lemma get_rel_case_lt (s1 s2 : Z) :
  (s1 < s2)%Z →
  get_rel_case rel (Some s1) (Some s2) = Some (rel_entry rel s2 s1).
Proof.
  intros Hlt. unfold get_rel_case, rel_entry, Hl.when, Hl.int_eq, Hl.int_gt.
  cbn [Hl.lift2 Hl.if_else].
  rewrite bool_decide_eq_false_2 by lia.
  rewrite bool_decide_eq_false_2 by lia.
  cbn [Hl.dict_get]. destruct (rel !! s2) as [row|]; cbn; [|reflexivity].
  destruct (row !! s1); reflexivity.
Qed.

Lemma get_rel_case_eq (s : Z) :
  get_rel_case rel (Some s) (Some s) = Some (1 # 2).
Proof.
  unfold get_rel_case, Hl.when, Hl.int_eq. cbn [Hl.lift2 Hl.if_else].
  rewrite bool_decide_eq_true_2 by reflexivity. reflexivity.
Qed.

End GetRel.

(** C3, as amended.  For every sample index [s], the case expression of
    [get_rel(s, s)] (the value before the jitter is added) is exactly
    [0.5], and [get_rel(s, s)] returns the sum of [0.5] and the jitter
    drawn by [hl.rand_norm(0, 0.005)], not [0.5] itself. *)
Theorem get_rel_self_kinship (rel : Relatedness.relatedness) (s : Z) (z : Q) :
  Relatedness.get_rel_case rel (Some s) (Some s) = Some (1 # 2)
  ∧ Relatedness.get_rel rel (Some s) (Some s) (Some z) = Some ((1 # 2) + z).
Proof.
  split; [apply get_rel_case_eq|].
  unfold Relatedness.get_rel. rewrite get_rel_case_eq. reflexivity.
Qed.

(** C3 as stated fails: with a jitter draw of [0.005], [get_rel(7, 7)] is
    [0.505], not [0.5]. *)
Lemma get_rel_self_not_half :
  ∃ q, Relatedness.get_rel ∅ (Some 7%Z) (Some 7%Z) (Some (1 # 200)) = Some q
       ∧ ¬ q == 1 # 2.
Proof.
  eexists. split; [reflexivity|]. intros H. vm_compute in H. discriminate H.
Qed.

(** C10.  For distinct sample indices the case expression of [get_rel]
    is the relatedness-graph entry [rel[max(s1,s2)][min(s1,s2)]],
    defaulting to [0.0], and swapping the arguments gives the same value. *)
Theorem get_rel_case_symmetric (rel : Relatedness.relatedness) (s1 s2 : Z) :
  s1 ≠ s2 →
  Relatedness.get_rel_case rel (Some s1) (Some s2)
    = Some (Relatedness.rel_entry rel (Z.max s1 s2) (Z.min s1 s2))
  ∧ Relatedness.get_rel_case rel (Some s2) (Some s1)
    = Relatedness.get_rel_case rel (Some s1) (Some s2).
Proof.
  intros Hne. destruct (Z.lt_total s1 s2) as [Hlt|[Heq|Hgt]]; [|done|].
  - rewrite (get_rel_case_lt rel s1 s2 Hlt), (get_rel_case_gt rel s2 s1 Hlt).
    rewrite Z.max_r, Z.min_l by lia. done.
  - rewrite (get_rel_case_gt rel s1 s2 Hgt), (get_rel_case_lt rel s2 s1 Hgt).
    rewrite Z.max_l, Z.min_r by lia. done.
Qed.

Lemma get_rel_case_symmetric_witness :
  Relatedness.get_rel_case Examples.sibling_graph (Some 2%Z) (Some 5%Z)
    = Some (1 # 4)
  ∧ Relatedness.get_rel_case Examples.sibling_graph (Some 5%Z) (Some 2%Z)
    = Relatedness.get_rel_case Examples.sibling_graph (Some 2%Z) (Some 5%Z).
Proof.
  destruct (get_rel_case_symmetric Examples.sibling_graph 2 5 ltac:(lia))
    as [H1 H2].
  split; [|exact H2]. rewrite H1. vm_compute. reflexivity.
Defined.

(** ** Matrix-table operations *)

Section MatrixTableFacts.
Context {R C E : Type}.

Lemma filter_rows_In (expr : R → list E → option bool) keep
    (mt : Hl.MatrixTable R C E) re :
  In re (Hl.mt_rows (Hl.filter_rows expr keep mt))
  ↔ In re (Hl.mt_rows mt) ∧ expr re.1 re.2 = Some keep.
Proof.
  unfold Hl.filter_rows. cbn [Hl.mt_rows]. rewrite filter_In.
  rewrite bool_decide_eq_true. reflexivity.
Qed.

Lemma group_rows_by_aggregate_entry {K A} `{EqDecision K}
    (key : R → K) (agg : list (R * E) → A) (mt : Hl.MatrixTable R C E)
    k es (j : nat) x :
  In (k, es) (Hl.mt_rows (Hl.group_rows_by_aggregate key agg mt)) →
  es !! j = Some x →
  x = agg (Hl.column_records
             (List.filter (λ re, bool_decide (key re.1 = k)) (Hl.mt_rows mt)) j).
Proof.
  unfold Hl.group_rows_by_aggregate. cbn [Hl.mt_rows].
  rewrite in_map_iff. intros (k' & Heq & _) Hj.
  injection Heq as -> <-. rewrite list_lookup_imap in Hj.
  destruct (Hl.mt_cols mt !! j); cbn in Hj; congruence.
Qed.

End MatrixTableFacts.

(** ** The burden statistic *)

Section Burden.
Import RareVariants.

Lemma n_alt_alleles_range (c : Hl.call) : (0 ≤ Hl.n_alt_alleles c ≤ 2)%Z.
Proof.
  unfold Hl.n_alt_alleles, Hl.is_alt.
  destruct (Nat.eqb (Hl.allele1 c) 0), (Nat.eqb (Hl.allele2 c) 0); lia.
Qed.

Lemma alt_count_range i re : (0 ≤ alt_count i re ≤ 2)%Z.
Proof.
  unfold alt_count. destruct (re.2 !! i) as [[[c|]]|]; try lia.
  apply n_alt_alleles_range.
Qed.

(** The aggregation of the burden cell counts carriers. *)
Lemma n_variants_carrier_count rs i :
  n_variants (Hl.column_records rs i) = carrier_count rs i.
Proof.
  unfold n_variants, carrier_count, Hl.column_records.
  induction rs as [|re rs IH]; [reflexivity|].
  cbn [omap list_omap List.filter].
  pose proof (eq_refl : alt_count i re = alt_count i re) as Ha.
  unfold alt_count at 2 in Ha.
  destruct (re.2 !! i) as [[[c|]]|]; rewrite Ha;
    cbn [option_map map Hl.agg_count_where has_alt GT Hl.int_gt Hl.lift2 snd].
  - destruct (Z.ltb_spec 0 (Hl.n_alt_alleles c)).
    + rewrite bool_decide_eq_true_2 by done. cbn [length]. rewrite IH. lia.
    + rewrite bool_decide_eq_false_2 by lia. exact IH.
  - exact IH.
  - exact IH.
Qed.

(** Counting carriers never exceeds summing their alleles, and the two
    agree exactly when no call carries two alternate alleles. *)
Lemma carrier_count_vs_sum rs i :
  (carrier_count rs i ≤ alt_allele_sum rs i)%Z
  ∧ (carrier_count rs i = alt_allele_sum rs i
     ↔ Forall (λ re, (alt_count i re ≤ 1)%Z) rs).
Proof.
  unfold carrier_count.
  induction rs as [|re rs [IHle IHeq]]; [cbn; split; [lia|by split]|].
  cbn [List.filter alt_allele_sum foldr]. fold (alt_allele_sum rs i).
  pose proof (alt_count_range i re) as Hr.
  rewrite Forall_cons.
  destruct (Z.ltb_spec 0 (alt_count i re)) as [Hpos|Hz]; cbn [length].
  - split; [lia|]. rewrite <- IHeq. lia.
  - split; [lia|]. rewrite <- IHeq. lia.
Qed.

End Burden.

(** The entries of [burden_mt]: for every gene and sample the number of
    variants of the gene at which the sample carries an alternate allele. *)
Lemma burden_mt_counts_carriers (mt : RareVariants.GenotypeMatrix)
    (g : option string) (es : list Z) (i : nat) (x : Z) :
  In (g, es) (Hl.mt_rows (RareVariants.burden_mt mt)) →
  es !! i = Some x →
  x = RareVariants.carrier_count (RareVariants.gene_rows mt g) i.
Proof.
  intros Hrow Hi. unfold RareVariants.burden_mt in Hrow.
  apply filter_rows_In in Hrow as [Hrow _].
  pose proof (group_rows_by_aggregate_entry _ _ _ _ _ _ _ Hrow Hi) as ->.
  fold (RareVariants.gene_rows mt g). apply n_variants_carrier_count.
Qed.

(** The same, read off the argument [x] of the regression. *)
Lemma burden_regression_counts_carriers pca_scores
    (mt : RareVariants.GenotypeMatrix) g xs (i : nat) x :
  In (g, xs)
     (RareVariants.reg_x
        (RareVariants.burden_regression_input
           (RareVariants.annotate_pca pca_scores (RareVariants.burden_mt mt)))) →
  xs !! i = Some x →
  x = Some (inject_Z (RareVariants.carrier_count
                        (RareVariants.gene_rows mt g) i)).
Proof.
  unfold RareVariants.burden_regression_input. cbn [RareVariants.reg_x].
  change (Hl.mt_rows (RareVariants.annotate_pca pca_scores
                        (RareVariants.burden_mt mt)))
    with (Hl.mt_rows (RareVariants.burden_mt mt)).
  intros ([g' es] & [= <- <-] & Hrow)%in_map_iff Hi.
  change (map ?f es) with (f <$> es) in Hi. rewrite list_lookup_fmap in Hi.
  destruct (es !! i) as [n|] eqn:Hn; [|done]. injection Hi as <-.
  by rewrite (burden_mt_counts_carriers _ _ _ _ _ Hrow Hn).
Qed.

(** ** Quality control *)

Section QualityControl.
Import RareVariants.

Lemma agg_count_where_nonneg l : (0 ≤ Hl.agg_count_where l)%Z.
Proof. induction l as [|[[]|] l IH]; cbn; lia. Qed.

Lemma agg_count_where_pos l :
  Hl.agg_count_where l ≠ 0%Z → In (Some true) l.
Proof.
  induction l as [|[[]|] l IH]; cbn; intros H; auto.
Qed.

Lemma agg_sum_nonneg l :
  Forall (λ o, ∀ x, o = Some x → (0 ≤ x)%Z) l → (0 ≤ Hl.agg_sum l)%Z.
Proof.
  induction 1 as [|[x|] l Hx _ IH]; cbn; [lia| |done].
  specialize (Hx x eq_refl). lia.
Qed.

Lemma call_stats_AC_nonneg a gts : (0 ≤ Hl.call_stats_AC a gts)%Z.
Proof.
  apply agg_sum_nonneg, Forall_forall. intros o Ho x ->.
  apply list_elem_of_In, in_map_iff in Ho as ([c|] & Hc & _); [|done].
  injection Hc as <-. unfold Hl.allele_count.
  destruct (Nat.eqb _ a), (Nat.eqb _ a); lia.
Qed.

Lemma call_stats_AF_nonneg a gts af :
  Hl.call_stats_AF a gts = Some af → 0 <= af.
Proof.
  unfold Hl.call_stats_AF. case_bool_decide; [done|]. intros [= <-].
  unfold Qle. cbn. pose proof (call_stats_AC_nonneg a gts). lia.
Qed.

Lemma Qltb_lt x y : Hl.Qltb x y = true → x < y.
Proof.
  unfold Hl.Qltb. intros H%negb_true_iff. apply Qnot_le_lt.
  intros Hle%Qle_bool_iff. congruence.
Qed.

Lemma remove_non_pass_ok mt re :
  In re (Hl.mt_rows (remove_non_pass mt)) →
  In re (Hl.mt_rows mt) ∧ filters re.1 = Some [].
Proof.
  intros [Hin H]%filter_rows_In. split; [done|].
  destruct (filters re.1) as [[|f fs]|]; cbn in H; [done| |done].
  discriminate H.
Qed.

Lemma remove_common_ok mt re :
  In re (Hl.mt_rows (remove_common mt)) →
  In re (Hl.mt_rows mt)
  ∧ ∃ af, Hl.call_stats_AF 1 (map GT re.2) = Some af ∧ af < 1 # 100.
Proof.
  intros [Hin H]%filter_rows_In. split; [done|].
  destruct (Hl.call_stats_AF 1 (map GT re.2)) as [af|]; cbn in H; [|done].
  exists af. split; [done|]. apply Qltb_lt. congruence.
Qed.

Lemma remove_all_hom_ref_ok mt re :
  In re (Hl.mt_rows (remove_all_hom_ref mt)) →
  In re (Hl.mt_rows mt)
  ∧ ∃ e c, e ∈ re.2 ∧ GT e = Some c ∧ Hl.is_hom_ref c = false.
Proof.
  intros [Hin H]%filter_rows_In. split; [done|].
  injection H as H. unfold Hl.agg_all in H.
  apply bool_decide_eq_false, agg_count_where_pos in H.
  apply in_map_iff in H as (o & Ho & Hin').
  apply in_map_iff in Hin' as (e & <- & He).
  destruct (GT e) as [c|] eqn:Hc; [|done]. cbn in Ho.
  exists e, c. split; [by apply list_elem_of_In|]. split; [done|].
  destruct (Hl.is_hom_ref c); [done|reflexivity].
Qed.

Lemma quality_control_ok mt : Forall qc_ok (Hl.mt_rows (quality_control mt)).
Proof.
  apply Forall_forall. intros re Hre%list_elem_of_In.
  unfold quality_control in Hre.
  apply remove_all_hom_ref_ok in Hre as [Hre Hhom].
  apply remove_common_ok in Hre as [Hre Haf].
  apply remove_non_pass_ok in Hre as [_ Hpass].
  done.
Qed.

(** Annotations keep the rows' filters and entries, hence the predicate. *)
Lemma annotate_rows_qc_ok (f : variant → list entry → variant)
    (mt : GenotypeMatrix) :
  (∀ r es, filters (f r es) = filters r) →
  Forall qc_ok (Hl.mt_rows mt) →
  Forall qc_ok (Hl.mt_rows (Hl.annotate_rows f mt)).
Proof.
  intros Hf H. unfold Hl.annotate_rows. cbn [Hl.mt_rows].
  induction H as [|[r es] rs Hre _ IH]; cbn [map]; constructor; [|done].
  destruct Hre as (Hp & Ha & Hh). repeat split; cbn in *; [|done..].
  by rewrite Hf.
Qed.

Lemma mt_step2_ok genes phenos mt :
  Forall qc_ok (Hl.mt_rows (mt_step2 genes phenos mt)).
Proof.
  unfold mt_step2, annotate_phenos, Hl.annotate_cols. cbn [Hl.mt_rows].
  apply annotate_rows_qc_ok; [done|]. apply quality_control_ok.
Qed.

Lemma mt_exercise2_ok pca_scores genes phenos mt :
  Forall qc_ok (Hl.mt_rows (mt_exercise2 pca_scores genes phenos mt)).
Proof.
  unfold mt_exercise2, annotate_pca, Hl.annotate_cols. cbn [Hl.mt_rows].
  apply annotate_rows_qc_ok; [done|]. apply mt_step2_ok.
Qed.

Lemma skat_mt_ok pca_scores mt :
  Forall qc_ok (Hl.mt_rows mt) →
  Forall qc_ok (Hl.mt_rows (skat_mt pca_scores mt)).
Proof.
  intros H. unfold skat_mt. do 2 (apply annotate_rows_qc_ok; [done|]).
  exact H.
Qed.

End QualityControl.

(** Every matrix table of the pipeline holds only rows that pass the
    quality control. *)
Lemma pipeline_rows_pass_quality_control (pca_scores : gmap string (list Q))
    (genes : list RareVariants.gene_row)
    (phenos : gmap string RareVariants.pheno_row)
    (mt : RareVariants.GenotypeMatrix) :
  Forall RareVariants.qc_ok (Hl.mt_rows (RareVariants.quality_control mt))
  ∧ Forall RareVariants.qc_ok
      (Hl.mt_rows (RareVariants.mt_step2 genes phenos mt))
  ∧ Forall RareVariants.qc_ok
      (Hl.mt_rows (RareVariants.mt_exercise2 pca_scores genes phenos mt))
  ∧ Forall RareVariants.qc_ok
      (Hl.mt_rows
         (RareVariants.skat_mt pca_scores
            (RareVariants.mt_exercise2 pca_scores genes phenos mt))).
Proof.
  split; [apply quality_control_ok|].
  split; [apply mt_step2_ok|].
  split; [apply mt_exercise2_ok|].
  apply skat_mt_ok, mt_exercise2_ok.
Qed.

(** ** The SKAT weights *)

Section SkatWeights.
Import RareVariants.

Lemma annotate_rows_In {R R' C E} (f : R → list E → R')
    (mt : Hl.MatrixTable R C E) r' es :
  In (r', es) (Hl.mt_rows (Hl.annotate_rows f mt))
  ↔ ∃ r, In (r, es) (Hl.mt_rows mt) ∧ r' = f r es.
Proof.
  unfold Hl.annotate_rows. cbn [Hl.mt_rows]. rewrite in_map_iff. split.
  - intros ([r es0] & [= <- <-] & Hin). by exists r.
  - intros (r & Hin & ->). by exists (r, es).
Qed.

Lemma Qpower_nat_le_compat (a b : Q) (n : nat) :
  0 <= a → a <= b → a ^ Z.of_nat n <= b ^ Z.of_nat n.
Proof.
  intros Ha Hab. induction n as [|n IH]; [change (1 <= 1); lra|].
  rewrite Nat2Z.inj_succ, <- Z.add_1_r.
  rewrite !Qpower_plus' by lia. rewrite !Qpower_1_r.
  apply Qmult_le_compat_nonneg; split; try done.
  by apply Qpower_0_le.
Qed.

(** The Beta(1, 25) density is [25 (1 - x)^24] on the unit interval. *)
Lemma dbeta_1_25 (x : Q) :
  0 <= x → x <= 1 → Hl.dbeta_Q x 1 25 == 25 * (1 - x) ^ 24.
Proof.
  intros H0 H1. unfold Hl.dbeta_Q.
  apply Qle_bool_iff in H0 as ->. apply Qle_bool_iff in H1 as ->.
  cbn [andb]. change (Z.of_nat (1 - 1)) with 0%Z.
  change (Z.of_nat (25 - 1)) with 24%Z.
  assert (Hl.beta_norm 1 25 == 25) as -> by (vm_compute; reflexivity).
  rewrite Qpower_0_r. ring.
Qed.

(** On rare variants the density exceeds every value of the distribution
    function. *)
Lemma dbeta_above_pbeta (x : Q) :
  0 <= x → x < 1 # 100 → Hl.pbeta_1 x 25 < Hl.dbeta_Q x 1 25.
Proof.
  intros H0 H1. rewrite dbeta_1_25 by lra. unfold Hl.pbeta_1.
  change (Z.of_nat 25) with 25%Z.
  assert (0 <= (1 - x) ^ 25) as Hq by (apply Qpower_0_le; lra).
  pose proof (Qpower_nat_le_compat (99 # 100) (1 - x) 24) as Hp.
  change (Z.of_nat 24) with 24%Z in Hp.
  assert (1 < 25 * (99 # 100) ^ 24) as Hc by (vm_compute; reflexivity).
  specialize (Hp ltac:(lra) ltac:(lra)).
  set (c := (99 # 100) ^ 24) in *. set (p := (1 - x) ^ 24) in *.
  set (q := (1 - x) ^ 25) in *. lra.
Qed.

Lemma skat_mt_rows pca_scores mt r es :
  In (r, es) (Hl.mt_rows (skat_mt pca_scores mt)) →
  variant_qc_AF1 r = Hl.call_stats_AF 1 (map GT es)
  ∧ weight r = Hl.dbeta (variant_qc_AF1 r) 1 25
  ∧ ∃ r0, In (r0, es) (Hl.mt_rows mt) ∧ gene_name r = gene_name r0.
Proof.
  unfold skat_mt, annotate_weight, variant_qc.
  intros (r1 & (r0 & Hin & ->)%annotate_rows_In & ->)%annotate_rows_In.
  cbn. split; [done|]. split; [done|]. by exists r0.
Qed.

End SkatWeights.

(** The weight that [skat_mt] carries on a row of the pipeline. *)
Lemma skat_mt_weight_is_beta_density (pca_scores : gmap string (list Q))
    (genes : list RareVariants.gene_row)
    (phenos : gmap string RareVariants.pheno_row)
    (mt : RareVariants.GenotypeMatrix)
    (r : RareVariants.variant) (es : list RareVariants.entry) :
  In (r, es)
     (Hl.mt_rows (RareVariants.skat_mt pca_scores
                    (RareVariants.mt_exercise2 pca_scores genes phenos mt))) →
  ∃ af, RareVariants.variant_qc_AF1 r = Some af
    ∧ Hl.call_stats_AF 1 (map RareVariants.GT es) = Some af
    ∧ RareVariants.weight r = Hl.dbeta (Some af) 1 25
    ∧ Hl.dbeta_Q af 1 25 == 25 * (1 - af) ^ 24
    ∧ Hl.pbeta_1 af 25 < Hl.dbeta_Q af 1 25.
Proof.
  intros Hin.
  pose proof (skat_mt_rows _ _ _ _ Hin) as (Haf & Hw & _).
  pose proof (skat_mt_ok pca_scores _
                (mt_exercise2_ok pca_scores genes phenos mt)) as Hok.
  rewrite Forall_forall in Hok.
  destruct (Hok (r, es)) as (_ & (af & Hcs & Hlt) & _);
    [by apply list_elem_of_In|].
  cbn in Hcs. pose proof (call_stats_AF_nonneg _ _ _ Hcs) as H0.
  exists af. rewrite Hw, Haf, Hcs. repeat split.
  - apply dbeta_1_25; lra.
  - by apply dbeta_above_pbeta.
Qed.

(** The same, read off the arguments of [hl.skat]. *)
Lemma skat_input_weight_is_beta_density (pca_scores : gmap string (list Q))
    (genes : list RareVariants.gene_row)
    (phenos : gmap string RareVariants.pheno_row)
    (mt : RareVariants.GenotypeMatrix) g wgt xs :
  In ((g, wgt), xs)
     (RareVariants.reg_x
        (RareVariants.skat_input
           (RareVariants.skat_mt pca_scores
              (RareVariants.mt_exercise2 pca_scores genes phenos mt)))) →
  ∃ r es af,
    In (r, es)
       (Hl.mt_rows (RareVariants.skat_mt pca_scores
                      (RareVariants.mt_exercise2 pca_scores genes phenos mt)))
    ∧ g = RareVariants.gene_name r
    ∧ xs = map RareVariants.dosage es
    ∧ RareVariants.variant_qc_AF1 r = Some af
    ∧ Hl.call_stats_AF 1 (map RareVariants.GT es) = Some af
    ∧ wgt = Hl.dbeta (Some af) 1 25
    ∧ Hl.dbeta_Q af 1 25 == 25 * (1 - af) ^ 24
    ∧ Hl.pbeta_1 af 25 < Hl.dbeta_Q af 1 25.
Proof.
  unfold RareVariants.skat_input at 1. cbn [RareVariants.reg_x].
  intros ([r es] & [= <- <- <-] & Hrow)%in_map_iff.
  destruct (skat_mt_weight_is_beta_density _ _ _ _ _ _ Hrow)
    as (af & ? & ? & ? & ? & ?).
  by exists r, es, af.
Qed.

(** ** Sessions: running the monad *)

Section Running.
Import Session.

Lemma bind_inv {A B} (m : M A) (k : A → M B) w b w' :
  (m ≫= k) w = inr (b, w') →
  ∃ a w1, m w = inr (a, w1) ∧ k a w1 = inr (b, w').
Proof.
  unfold mbind, M_bind. destruct (m w) as [e|[a w1]]; [done|]. eauto.
Qed.

Lemma bind_raises {A B} (m : M A) (k : A → M B) w e :
  m w = inl e → (m ≫= k) w = inl e.
Proof. unfold mbind, M_bind. by intros ->. Qed.

Lemma bind_returns {A B} (m : M A) (k : A → M B) w a w1 :
  m w = inr (a, w1) → (m ≫= k) w = k a w1.
Proof. unfold mbind, M_bind. by intros ->. Qed.

Lemma deref_inv r w o w' :
  deref r w = inr (o, w') → w' = w ∧ objs w !! r = Some o.
Proof. unfold deref. destruct (objs w !! r); naive_solver. Qed.

Lemma load_inv l name kind path w r w' :
  load l name kind path w = inr (r, w') →
  ∃ o, files w !! path = Some o ∧ kind o = true ∧ r = length (objs w)
       ∧ w' = MkWorld (files w) (noise w) (drawn w) (objs w ++ [o])
                (reads w ++ [(l, path)]) (calls w ++ [name]) (screen w).
Proof.
  unfold load. destruct (files w !! path) as [o|]; [|done].
  destruct (kind o) eqn:Hk; [|done]. intros [= <- <-]. by exists o.
Qed.

End Running.

(** ** Sessions: what a run leaves unchanged *)

Section Preservation.
Import Session Logic.

Lemma unchanged_refl w : unchanged w w.
Proof. by split. Qed.

Lemma unchanged_trans w1 w2 w3 :
  unchanged w1 w2 → unchanged w2 w3 → unchanged w1 w3.
Proof.
  intros [Hf1 Ho1] [Hf2 Ho2]. split; [congruence|]. eauto.
Qed.

Lemma preserves_ret {A} (a : A) : preserves (mret a).
Proof. intros w x w' [= <- <-]. apply unchanged_refl. Qed.

Lemma preserves_bind {A B} (m : M A) (k : A → M B) :
  preserves m → (∀ a, preserves (k a)) → preserves (m ≫= k).
Proof.
  intros Hm Hk w b w' (a & w1 & H1 & H2)%bind_inv.
  eapply unchanged_trans; [by eapply Hm|by eapply Hk].
Qed.

Lemma preserves_raise {A} e : preserves (raise (A := A) e).
Proof. intros w a w' [=]. Qed.

Lemma preserves_of_result {A} (r : exn + A) : preserves (of_result r).
Proof. destruct r; [apply preserves_raise|apply preserves_ret]. Qed.

Lemma preserves_new o : preserves (new o).
Proof.
  intros w r w' [= <- <-]. split; [done|]. cbn. intros r o' Hr _.
  by apply lookup_app_l_Some.
Qed.

Lemma preserves_deref r : preserves (deref r).
Proof. intros w o w' [-> _]%deref_inv. apply unchanged_refl. Qed.

Lemma preserves_call name : preserves (call name).
Proof. intros w [] w' [= <-]. by split. Qed.

Lemma preserves_print o : preserves (print o).
Proof. intros w [] w' [= <-]. by split. Qed.

Lemma preserves_rand_norm mean sd : preserves (rand_norm mean sd).
Proof. intros w z w' [= <- <-]. by split. Qed.

Lemma preserves_load l name kind path : preserves (load l name kind path).
Proof.
  intros w r w' (o & _ & _ & _ & ->)%load_inv. split; [done|]. cbn.
  intros r' o' Hr _. by apply lookup_app_l_Some.
Qed.

Lemma preserves_for_each {A B} (f : A → M B) l :
  (∀ a, preserves (f a)) → preserves (for_each f l).
Proof.
  intros Hf. induction l as [|a l IH]; cbn [for_each].
  - apply preserves_ret.
  - apply preserves_bind; [done|intros b].
    apply preserves_bind; [done|intros bs]. apply preserves_ret.
Qed.

(** The one in-place update of the notebooks rewrites a figure. *)
Lemma preserves_add_layout fig item : preserves (add_layout fig item).
Proof.
  intros w [] w' Hrun. unfold add_layout, as_figure in Hrun.
  apply bind_inv in Hrun as (f & w1 & Hf & Hrun).
  apply bind_inv in Hf as (o & w0 & [-> Ho]%deref_inv & Hf).
  destruct o; try done. injection Hf as -> <-.
  injection Hrun as <-. split; [done|]. cbn. intros r o Hr Hown.
  destruct (decide (r = fig)) as [->|Hne].
  - rewrite Ho in Hr. injection Hr as <-. done.
  - by rewrite list_lookup_insert_ne.
Qed.

End Preservation.

Create HintDb session.

#[local] Hint Resolve preserves_ret preserves_raise preserves_of_result
  preserves_new preserves_deref preserves_call preserves_print
  preserves_rand_norm preserves_load preserves_add_layout : session.

(** Decompose a program along its binds and case distinctions. *)
Ltac preserves_step :=
  lazymatch goal with
  | |- Logic.preserves (mbind _ _) =>
      apply preserves_bind; [|intros ?]
  | |- Logic.preserves (Session.for_each _ _) =>
      apply preserves_for_each; intros ?
  | |- Logic.preserves (match ?x with _ => _ end) => destruct x
  | |- Logic.preserves _ => solve [auto with session]
  end.

Ltac preserves_auto := repeat preserves_step.

Ltac intros_binders :=
  repeat lazymatch goal with |- ∀ _, _ => intros ? end.

Section PreservationOfCells.
Import Session Logic.
Context `{Engines}.

Lemma preserves_method name o : preserves (method name o).
Proof. unfold method. preserves_auto. Qed.

Lemma preserves_show name kwargs r : preserves (show name kwargs r).
Proof. unfold show. preserves_auto. Qed.

Lemma preserves_reader r :
  preserves (as_matrix r) ∧ preserves (as_grouped r) ∧ preserves (as_genes r)
  ∧ preserves (as_phenos r) ∧ preserves (as_scores r)
  ∧ preserves (as_results r) ∧ preserves (as_variant_results r)
  ∧ preserves (as_skat r) ∧ preserves (as_rel_matrix r)
  ∧ preserves (as_sample_data r) ∧ preserves (as_scores_by_idx r)
  ∧ preserves (as_pairs r) ∧ preserves (as_figure r).
Proof.
  unfold as_matrix, as_grouped, as_genes, as_phenos, as_scores, as_results,
    as_variant_results, as_skat, as_rel_matrix, as_sample_data,
    as_scores_by_idx, as_pairs, as_figure.
  repeat apply conj; preserves_auto.
Qed.

End PreservationOfCells.

#[local] Hint Resolve preserves_method preserves_show : session.
#[local] Hint Extern 1 (Logic.preserves (Session.as_matrix _)) =>
  apply preserves_reader : session.
#[local] Hint Extern 1 (Logic.preserves (Session.as_grouped _)) =>
  apply preserves_reader : session.
#[local] Hint Extern 1 (Logic.preserves (Session.as_genes _)) =>
  apply preserves_reader : session.
#[local] Hint Extern 1 (Logic.preserves (Session.as_phenos _)) =>
  apply preserves_reader : session.
#[local] Hint Extern 1 (Logic.preserves (Session.as_scores _)) =>
  apply preserves_reader : session.
#[local] Hint Extern 1 (Logic.preserves (Session.as_results _)) =>
  apply preserves_reader : session.
#[local] Hint Extern 1 (Logic.preserves (Session.as_variant_results _)) =>
  apply preserves_reader : session.
#[local] Hint Extern 1 (Logic.preserves (Session.as_skat _)) =>
  apply preserves_reader : session.
#[local] Hint Extern 1 (Logic.preserves (Session.as_rel_matrix _)) =>
  apply preserves_reader : session.
#[local] Hint Extern 1 (Logic.preserves (Session.as_sample_data _)) =>
  apply preserves_reader : session.
#[local] Hint Extern 1 (Logic.preserves (Session.as_scores_by_idx _)) =>
  apply preserves_reader : session.
#[local] Hint Extern 1 (Logic.preserves (Session.as_pairs _)) =>
  apply preserves_reader : session.
#[local] Hint Extern 1 (Logic.preserves (Session.as_figure _)) =>
  apply preserves_reader : session.

Section PreservationOfNotebooks.
Import Session Logic.
Context `{Engines}.

Lemma preserves_plot_pairs truth xlabel ylabel pairs :
  preserves (Notebook03.plot_pairs truth xlabel ylabel pairs).
Proof. unfold Notebook03.plot_pairs, Notebook03.pair_point. preserves_auto. Qed.

Lemma preserves_notebook03_cells :
  preserves Notebook03.read_hgdp
  ∧ (∀ mt, preserves (Notebook03.pca mt))
  ∧ (∀ mt scores, preserves (Notebook03.plot_pca mt scores))
  ∧ (∀ mt, preserves (Notebook03.simulate mt))
  ∧ (∀ mt1, preserves (Notebook03.pca1 mt1))
  ∧ (∀ mt1 scores1, preserves (Notebook03.plot_pca1 mt1 scores1))
  ∧ (∀ mt1, preserves (Notebook03.index_relatedness mt1))
  ∧ (∀ rel mt1, preserves (Notebook03.ibd_cell rel mt1))
  ∧ (∀ rel mt1, preserves (Notebook03.king_cells rel mt1))
  ∧ (∀ rel mt1, preserves (Notebook03.pcrel_cell rel mt1))
  ∧ (∀ mt1, preserves (Notebook03.interrogate_cell mt1)).
Proof.
  pose proof preserves_plot_pairs.
  unfold Notebook03.read_hgdp, Notebook03.pca, Notebook03.plot_pca,
    Notebook03.simulate, Notebook03.pca1, Notebook03.plot_pca1,
    Notebook03.index_relatedness, Notebook03.ibd_cell, Notebook03.king_cells,
    Notebook03.pcrel_cell, Notebook03.interrogate_cell, read_matrix_table,
    import_table.
  repeat apply conj; intros_binders; preserves_auto.
Qed.

Lemma preserves_notebook03 : preserves Notebook03.notebook.
Proof.
  destruct preserves_notebook03_cells
    as (? & ? & ? & ? & ? & ? & ? & ? & ? & ? & ?).
  unfold Notebook03.notebook. preserves_auto.
Qed.

Lemma preserves_plot_p_values bars : preserves (Notebook02.plot_p_values bars).
Proof. unfold Notebook02.plot_p_values. preserves_auto. Qed.

Lemma preserves_notebook02_cells :
  preserves Notebook02.step1
  ∧ (∀ mt, preserves (Notebook02.step2 mt))
  ∧ (∀ mt, preserves (Notebook02.step3 mt))
  ∧ (∀ burden_mt, preserves (Notebook02.fraction_zero burden_mt))
  ∧ (∀ burden_mt, preserves (Notebook02.histogram_zero burden_mt))
  ∧ (∀ burden_mt, preserves (Notebook02.counter_zero burden_mt))
  ∧ (∀ burden_mt, preserves (Notebook02.plot_n_zero burden_mt))
  ∧ (∀ mt, preserves (Notebook02.pca mt))
  ∧ (∀ burden_mt pca_scores, preserves (Notebook02.step4 burden_mt pca_scores))
  ∧ (∀ names genes, preserves (Notebook02.show_genes names genes))
  ∧ (∀ y mt pca_scores, preserves (Notebook02.gwas y mt pca_scores))
  ∧ (∀ mt, preserves (Notebook02.explore_annotations mt))
  ∧ (∀ mt pca_scores,
       preserves (Notebook02.weighted_burden_cell mt pca_scores))
  ∧ (∀ mt pca_scores ht, preserves (Notebook02.skat_cells mt pca_scores ht)).
Proof.
  pose proof preserves_plot_p_values.
  unfold Notebook02.step1, Notebook02.step2, Notebook02.step3,
    Notebook02.fraction_zero, Notebook02.histogram_zero,
    Notebook02.counter_zero, Notebook02.plot_n_zero, Notebook02.pca,
    Notebook02.step4, Notebook02.show_genes, Notebook02.gwas,
    Notebook02.explore_annotations, Notebook02.weighted_burden_cell,
    Notebook02.skat_cells, read_matrix_table, read_table.
  repeat apply conj; intros_binders; preserves_auto.
Qed.

Lemma preserves_notebook02 : preserves Notebook02.notebook.
Proof.
  destruct preserves_notebook02_cells
    as (? & ? & ? & ? & ? & ? & ? & ? & ? & ? & ? & ? & ? & ?).
  unfold Notebook02.notebook. preserves_auto.
Qed.

End PreservationOfNotebooks.

(** ** Sessions: the files a run loads *)

Section Reads.
Import Session Logic.

Lemma reads_ret {A} (a : A) : reads_exactly (mret a) [].
Proof. intros w x w' [= <- <-]. by rewrite app_nil_r. Qed.

Lemma reads_bind {A B} (m : M A) (k : A → M B) l1 l2 :
  reads_exactly m l1 → (∀ a, reads_exactly (k a) l2) →
  reads_exactly (m ≫= k) (l1 ++ l2).
Proof.
  intros Hm Hk w b w' (a & w1 & H1 & H2)%bind_inv.
  rewrite (Hk _ _ _ _ H2), (Hm _ _ _ H1). by rewrite app_assoc.
Qed.

Lemma reads_raise {A} e l : reads_exactly (raise (A := A) e) l.
Proof. intros w a w' [=]. Qed.

Lemma reads_of_result {A} (r : exn + A) : reads_exactly (of_result r) [].
Proof. destruct r; [apply reads_raise|apply reads_ret]. Qed.

Lemma reads_new o : reads_exactly (new o) [].
Proof. intros w r w' [= <- <-]. cbn. by rewrite app_nil_r. Qed.

Lemma reads_deref r : reads_exactly (deref r) [].
Proof. intros w o w' [-> _]%deref_inv. by rewrite app_nil_r. Qed.

Lemma reads_assign r o : reads_exactly (assign r o) [].
Proof. intros w [] w' [= <-]. cbn. by rewrite app_nil_r. Qed.

Lemma reads_call name : reads_exactly (call name) [].
Proof. intros w [] w' [= <-]. cbn. by rewrite app_nil_r. Qed.

Lemma reads_print o : reads_exactly (print o) [].
Proof. intros w [] w' [= <-]. cbn. by rewrite app_nil_r. Qed.

Lemma reads_rand_norm mean sd : reads_exactly (rand_norm mean sd) [].
Proof. intros w z w' [= <- <-]. cbn. by rewrite app_nil_r. Qed.

Lemma reads_load l name kind path :
  reads_exactly (load l name kind path) [(l, path)].
Proof. by intros w r w' (o & _ & _ & _ & ->)%load_inv. Qed.

Lemma reads_for_each {A B} (f : A → M B) l :
  (∀ a, reads_exactly (f a) []) → reads_exactly (for_each f l) [].
Proof.
  intros Hf. induction l as [|a l IH]; cbn [for_each].
  - apply reads_ret.
  - change (@nil (loader * string)) with (@nil (loader * string) ++ ([] ++ [])).
    apply reads_bind; [done|intros b].
    apply reads_bind; [done|intros bs]. apply reads_ret.
Qed.

Lemma reads_exactly_eq {A} (m : M A) l l' :
  reads_exactly m l → l = l' → reads_exactly m l'.
Proof. by intros ? <-. Qed.

(** ** Sessions: the files a run depends on *)

Lemma agree_refl paths w : agree paths w w.
Proof. by repeat split. Qed.

Lemma consults_ret {A} paths (a : A) : consults_only paths (mret a).
Proof. intros w1 w2 Hw. by split. Qed.

Lemma consults_bind {A B} paths (m : M A) (k : A → M B) :
  consults_only paths m → (∀ a, consults_only paths (k a)) →
  consults_only paths (m ≫= k).
Proof.
  intros Hm Hk w1 w2 Hw. specialize (Hm w1 w2 Hw).
  unfold mbind, M_bind.
  destruct (m w1) as [e1|[a1 w1']], (m w2) as [e2|[a2 w2']]; try done.
  destruct Hm as [<- Hw']. by apply Hk.
Qed.

Lemma consults_raise {A} paths e : consults_only paths (raise (A := A) e).
Proof. by intros w1 w2 Hw. Qed.

Lemma consults_of_result {A} paths (r : exn + A) :
  consults_only paths (of_result r).
Proof. destruct r; [apply consults_raise|apply consults_ret]. Qed.

Lemma consults_new paths o : consults_only paths (new o).
Proof.
  intros w1 w2 (Hf & Hn & Hd & Ho & Hr & Hc & Hs). cbn.
  rewrite Ho. repeat split; cbn; first [assumption|congruence].
Qed.

Lemma consults_deref paths r : consults_only paths (deref r).
Proof.
  intros w1 w2 Hw. pose proof Hw as (Hf & Hn & Hd & Ho & Hr & Hc & Hs).
  unfold deref. rewrite Ho. by destruct (objs w2 !! r).
Qed.

Lemma consults_assign paths r o : consults_only paths (assign r o).
Proof.
  intros w1 w2 (Hf & Hn & Hd & Ho & Hr & Hc & Hs). cbn.
  repeat split; cbn; first [assumption|congruence].
Qed.

Lemma consults_call paths name : consults_only paths (call name).
Proof.
  intros w1 w2 (Hf & Hn & Hd & Ho & Hr & Hc & Hs). cbn.
  repeat split; cbn; first [assumption|congruence].
Qed.

Lemma consults_print paths o : consults_only paths (print o).
Proof.
  intros w1 w2 (Hf & Hn & Hd & Ho & Hr & Hc & Hs). cbn.
  repeat split; cbn; first [assumption|congruence].
Qed.

Lemma consults_rand_norm paths mean sd :
  consults_only paths (rand_norm mean sd).
Proof.
  intros w1 w2 (Hf & Hn & Hd & Ho & Hr & Hc & Hs). cbn.
  rewrite Hn, Hd. repeat split; cbn; first [assumption|congruence].
Qed.

Lemma consults_load paths l name kind path :
  path ∈ paths → consults_only paths (load l name kind path).
Proof.
  intros Hp w1 w2 (Hf & Hn & Hd & Ho & Hr & Hc & Hs). unfold load.
  rewrite <- (Hf _ Hp). destruct (files w1 !! path) as [o|]; [|done].
  destruct (kind o); [|done]. rewrite Ho. repeat split; cbn; first [assumption|congruence].
Qed.

Lemma consults_for_each {A B} paths (f : A → M B) l :
  (∀ a, consults_only paths (f a)) → consults_only paths (for_each f l).
Proof.
  intros Hf. induction l as [|a l IH]; cbn [for_each].
  - apply consults_ret.
  - apply consults_bind; [done|intros b].
    apply consults_bind; [done|intros bs]. apply consults_ret.
Qed.

End Reads.

Create HintDb session_reads.
Create HintDb session_consults.

#[local] Hint Resolve reads_ret reads_raise reads_of_result reads_new
  reads_deref reads_assign reads_call reads_print reads_rand_norm reads_load
  : session_reads.
#[local] Hint Resolve consults_ret consults_raise consults_of_result
  consults_new consults_deref consults_assign consults_call consults_print
  consults_rand_norm : session_consults.

Ltac unfold_session :=
  unfold Session.read_matrix_table, Session.read_table, Session.import_table,
    Session.method, Session.show, Session.add_layout, Session.as_matrix,
    Session.as_grouped, Session.as_genes, Session.as_phenos,
    Session.as_scores, Session.as_results, Session.as_variant_results,
    Session.as_skat, Session.as_rel_matrix, Session.as_sample_data,
    Session.as_scores_by_idx, Session.as_pairs, Session.as_figure.

Ltac reads_go :=
  repeat lazymatch goal with
  | |- Logic.reads_exactly (mbind _ _) _ => eapply reads_bind; [|intros ?]
  | |- Logic.reads_exactly (Session.for_each _ _) _ =>
      apply reads_for_each; intros ?;
      eapply reads_exactly_eq; [reads_go|reflexivity]
  | |- Logic.reads_exactly (match ?x with _ => _ end) _ => destruct x
  | |- Logic.reads_exactly _ _ => solve [eauto with session_reads]
  end.

Ltac reads_auto := eapply reads_exactly_eq; [reads_go|reflexivity].

Ltac consults_step :=
  lazymatch goal with
  | |- Logic.consults_only _ (mbind _ _) =>
      apply consults_bind; [|intros ?]
  | |- Logic.consults_only _ (Session.for_each _ _) =>
      apply consults_for_each; intros ?
  | |- Logic.consults_only _ (match ?x with _ => _ end) => destruct x
  | |- Logic.consults_only _ (Session.load _ _ _ _) =>
      apply consults_load; set_solver
  | |- Logic.consults_only _ _ => solve [auto with session_consults]
  end.

Ltac consults_auto := repeat consults_step.

Section ReadsOfNotebooks.
Import Session Logic.
Context `{Engines}.

Lemma reads_notebook02 : reads_exactly Notebook02.notebook notebook02_reads.
Proof.
  unfold Notebook02.notebook, Notebook02.step1, Notebook02.step2,
    Notebook02.step3, Notebook02.fraction_zero, Notebook02.histogram_zero,
    Notebook02.counter_zero, Notebook02.plot_n_zero, Notebook02.pca,
    Notebook02.step4, Notebook02.show_genes, Notebook02.gwas,
    Notebook02.explore_annotations, Notebook02.weighted_burden_cell,
    Notebook02.skat_cells, Notebook02.plot_p_values.
  unfold_session. reads_auto.
Qed.

Lemma reads_notebook03 : reads_exactly Notebook03.notebook notebook03_reads.
Proof.
  unfold Notebook03.notebook, Notebook03.read_hgdp, Notebook03.pca,
    Notebook03.plot_pca, Notebook03.simulate, Notebook03.pca1,
    Notebook03.plot_pca1, Notebook03.index_relatedness, Notebook03.ibd_cell,
    Notebook03.king_cells, Notebook03.pcrel_cell,
    Notebook03.interrogate_cell, Notebook03.plot_pairs,
    Notebook03.pair_point.
  unfold_session. reads_auto.
Qed.

Lemma consults_notebook02 :
  consults_only (map snd notebook02_reads) Notebook02.notebook.
Proof.
  unfold Notebook02.notebook, Notebook02.step1, Notebook02.step2,
    Notebook02.step3, Notebook02.fraction_zero, Notebook02.histogram_zero,
    Notebook02.counter_zero, Notebook02.plot_n_zero, Notebook02.pca,
    Notebook02.step4, Notebook02.show_genes, Notebook02.gwas,
    Notebook02.explore_annotations, Notebook02.weighted_burden_cell,
    Notebook02.skat_cells, Notebook02.plot_p_values.
  unfold_session. consults_auto.
Qed.

Lemma consults_notebook03 :
  consults_only (map snd notebook03_reads) Notebook03.notebook.
Proof.
  unfold Notebook03.notebook, Notebook03.read_hgdp, Notebook03.pca,
    Notebook03.plot_pca, Notebook03.simulate, Notebook03.pca1,
    Notebook03.plot_pca1, Notebook03.index_relatedness, Notebook03.ibd_cell,
    Notebook03.king_cells, Notebook03.pcrel_cell,
    Notebook03.interrogate_cell, Notebook03.plot_pairs,
    Notebook03.pair_point.
  unfold_session. consults_auto.
Qed.

End ReadsOfNotebooks.

(** ** Sessions: what the loading cells establish *)

Section Loading.
Import Session Logic.
Context `{Engines}.

Lemma load_bind_inv {B} l name kind path (k : nat → M B) w b w' :
  (load l name kind path ≫= k) w = inr (b, w') →
  ∃ o, files w !! path = Some o ∧ kind o = true
       ∧ k (length (objs w))
           (MkWorld (files w) (noise w) (drawn w) (objs w ++ [o])
              (reads w ++ [(l, path)]) (calls w ++ [name]) (screen w))
         = inr (b, w').
Proof.
  intros (r & w1 & (o & Hf & Hk & -> & ->)%load_inv & Hrun)%bind_inv.
  by exists o.
Qed.

Lemma show_bind_inv {B} name kwargs r (k : unit → M B) w b w' :
  (show name kwargs r ≫= k) w = inr (b, w') →
  ∃ o, k () (MkWorld (files w) (noise w) (drawn w) (objs w) (reads w)
               (calls w ++ [name]) (screen w ++ [Shown name kwargs o]))
       = inr (b, w').
Proof.
  intros (u & w1 & Hshow & Hrun)%bind_inv. unfold show in Hshow.
  apply bind_inv in Hshow as (o & w0 & [-> _]%deref_inv & Hshow).
  injection Hshow as <- <-. by exists o.
Qed.

Lemma method_bind_inv {B} name o (k : nat → M B) w b w' :
  (method name o ≫= k) w = inr (b, w') →
  k (length (objs w))
    (MkWorld (files w) (noise w) (drawn w) (objs w ++ [o]) (reads w)
       (calls w ++ [name]) (screen w))
  = inr (b, w').
Proof. by intros (r & w1 & [= <- <-] & Hrun)%bind_inv. Qed.

Lemma as_matrix_bind_inv {B} r (k : _ → M B) w b w' :
  (as_matrix r ≫= k) w = inr (b, w') →
  ∃ m, objs w !! r = Some (OMatrix m) ∧ k m w = inr (b, w').
Proof.
  intros (m & w1 & Hm & Hrun)%bind_inv. unfold as_matrix in Hm.
  apply bind_inv in Hm as (o & w0 & [-> Ho]%deref_inv & Hm).
  destruct o; try done. injection Hm as -> <-. eauto.
Qed.

Lemma as_genes_bind_inv {B} r (k : _ → M B) w b w' :
  (as_genes r ≫= k) w = inr (b, w') →
  ∃ t, objs w !! r = Some (OGenes t) ∧ k t w = inr (b, w').
Proof.
  intros (m & w1 & Hm & Hrun)%bind_inv. unfold as_genes in Hm.
  apply bind_inv in Hm as (o & w0 & [-> Ho]%deref_inv & Hm).
  destruct o; try done. injection Hm as -> <-. eauto.
Qed.

Lemma as_phenos_bind_inv {B} r (k : _ → M B) w b w' :
  (as_phenos r ≫= k) w = inr (b, w') →
  ∃ t, objs w !! r = Some (OPhenos t) ∧ k t w = inr (b, w').
Proof.
  intros (m & w1 & Hm & Hrun)%bind_inv. unfold as_phenos in Hm.
  apply bind_inv in Hm as (o & w0 & [-> Ho]%deref_inv & Hm).
  destruct o; try done. injection Hm as -> <-. eauto.
Qed.

Lemma as_rel_matrix_bind_inv {B} r (k : _ → M B) w b w' :
  (as_rel_matrix r ≫= k) w = inr (b, w') →
  ∃ m g, objs w !! r = Some (ORelMatrix m g) ∧ k (m, g) w = inr (b, w').
Proof.
  intros (m & w1 & Hm & Hrun)%bind_inv. unfold as_rel_matrix in Hm.
  apply bind_inv in Hm as (o & w0 & [-> Ho]%deref_inv & Hm).
  destruct o; try done. injection Hm as <- <-. eauto.
Qed.

Lemma as_sample_data_bind_inv {B} r (k : _ → M B) w b w' :
  (as_sample_data r ≫= k) w = inr (b, w') →
  ∃ t, objs w !! r = Some (OSampleData t) ∧ k t w = inr (b, w').
Proof.
  intros (m & w1 & Hm & Hrun)%bind_inv. unfold as_sample_data in Hm.
  apply bind_inv in Hm as (o & w0 & [-> Ho]%deref_inv & Hm).
  destruct o; try done. injection Hm as -> <-. eauto.
Qed.

Lemma stable_loaded path : stable (loaded path).
Proof.
  intros w w' [Hf Ho] (r & o & Hfile & Hobj & Hown).
  exists r, o. rewrite Hf. eauto.
Qed.

Lemma is_matrix_table_owned o : is_matrix_table o = true → library_owned o = true.
Proof. by destruct o. Qed.

Lemma is_table_owned o : is_table o = true → library_owned o = true.
Proof. by destruct o. Qed.

(** Step 1 of notebook 02 loads a genotype matrix and keeps it. *)
Lemma step1_loads w mt w' :
  Notebook02.step1 w = inr (mt, w') →
  (∃ m, files w !! "resources/hgdp-tgp-rare-variants.mt"%string
        = Some (OMatrix m))
  ∧ loaded "resources/hgdp-tgp-rare-variants.mt" w'.
Proof.
  unfold Notebook02.step1, read_matrix_table.
  intros (o & Hfile & Hkind & Hrun)%load_bind_inv.
  assert (Hrest : unchanged
    (MkWorld (files w) (noise w) (drawn w) (objs w ++ [o])
       (reads w ++ [(matrix_table_loader,
                     "resources/hgdp-tgp-rare-variants.mt"%string)])
       (calls w ++ ["read_matrix_table"%string]) (screen w)) w').
  { revert Hrun. match goal with |- ?p _ = _ → _ =>
      assert (preserves p) as Hp by preserves_auto; apply Hp end. }
  apply as_matrix_bind_inv in Hrun as (m & Hm & _). cbn in Hm.
  rewrite list_lookup_middle in Hm by reflexivity. injection Hm as ->.
  split; [by exists m|].
  apply (stable_loaded _ _ _ Hrest).
  exists (length (objs w)), (OMatrix m). cbn.
  by rewrite list_lookup_middle.
Qed.

(** Step 2 loads the gene intervals and the phenotypes and keeps them. *)
Lemma step2_loads mt w r w' :
  Notebook02.step2 mt w = inr (r, w') →
  (∃ t, files w !! "resources/genes.ht"%string = Some (OGenes t))
  ∧ (∃ t, files w !! "resources/rare-variant-phenotypes.ht"%string
          = Some (OPhenos t))
  ∧ loaded "resources/genes.ht" w'
  ∧ loaded "resources/rare-variant-phenotypes.ht" w'.
Proof.
  unfold Notebook02.step2, read_table.
  intros (o & Hfile & Hkind & Hrun)%load_bind_inv.
  pose proof Hrun as Hrest1. revert Hrest1.
  match goal with |- ?p ?w1 = _ → _ =>
    assert (preserves p) as Hp by preserves_auto; intros Hrest1%Hp end.
  apply show_bind_inv in Hrun as (shown & Hrun).
  apply as_matrix_bind_inv in Hrun as (m & _ & Hrun).
  apply as_genes_bind_inv in Hrun as (t & Ht & Hrun). cbn in Ht.
  rewrite list_lookup_middle in Ht by reflexivity. injection Ht as ->.
  apply method_bind_inv in Hrun. cbn in Hrun.
  apply load_bind_inv in Hrun as (o2 & Hfile2 & Hkind2 & Hrun). cbn in *.
  pose proof Hrun as Hrest2. revert Hrest2. clear Hp.
  match goal with |- ?p ?w1 = _ → _ =>
    assert (preserves p) as Hp by preserves_auto; intros Hrest2%Hp end.
  apply as_matrix_bind_inv in Hrun as (m2 & _ & Hrun).
  apply as_phenos_bind_inv in Hrun as (p & Hphen & _). cbn in Hphen.
  rewrite list_lookup_middle in Hphen by reflexivity. injection Hphen as ->.
  split; [by exists t|]. split; [by exists p|]. split.
  - apply (stable_loaded _ _ _ Hrest1).
    exists (length (objs w)), (OGenes t). cbn.
    by rewrite list_lookup_middle.
  - apply (stable_loaded _ _ _ Hrest2).
    eexists _, (OPhenos p). cbn. split; [done|].
    by rewrite list_lookup_middle.
Qed.

(** The first cell of notebook 03 loads the genotype matrix and the
    sample sheet and keeps them. *)
Lemma read_hgdp_loads w r w' :
  Notebook03.read_hgdp w = inr (r, w') →
  (∃ m g, files w !! "resources/hgdp.mt"%string = Some (ORelMatrix m g))
  ∧ (∃ t, files w !! "resources/HGDP_sample_data.tsv"%string
          = Some (OSampleData t))
  ∧ loaded "resources/hgdp.mt" w'
  ∧ loaded "resources/HGDP_sample_data.tsv" w'.
Proof.
  unfold Notebook03.read_hgdp, read_matrix_table, import_table.
  intros (o & Hfile & Hkind & Hrun)%load_bind_inv.
  apply load_bind_inv in Hrun as (o2 & Hfile2 & Hkind2 & Hrun). cbn in *.
  pose proof Hrun as Hrest. revert Hrest.
  match goal with |- ?p ?w1 = _ → _ =>
    assert (preserves p) as Hp by preserves_auto; intros Hrest%Hp end.
  apply as_rel_matrix_bind_inv in Hrun as (m & g & Hm & Hrun). cbn in Hm.
  rewrite lookup_app_l in Hm by (rewrite length_app; cbn; lia).
  rewrite list_lookup_middle in Hm by reflexivity. injection Hm as ->.
  apply as_sample_data_bind_inv in Hrun as (t & Ht & _). cbn in Ht.
  rewrite list_lookup_middle in Ht by reflexivity. injection Ht as ->.
  split; [by exists m, g|]. split; [by exists t|]. split.
  - apply (stable_loaded _ _ _ Hrest).
    exists (length (objs w)), (ORelMatrix m g). cbn.
    rewrite lookup_app_l by (rewrite length_app; cbn; lia).
    by rewrite list_lookup_middle.
  - apply (stable_loaded _ _ _ Hrest).
    eexists _, (OSampleData t). cbn. split; [done|].
    by rewrite list_lookup_middle.
Qed.

(** What a run of notebook 02 found in its three files, and still holds. *)
Lemma notebook02_inputs w w' :
  Notebook02.notebook w = inr ((), w') →
  ((∃ m, files w !! "resources/hgdp-tgp-rare-variants.mt"%string
         = Some (OMatrix m))
   ∧ (∃ t, files w !! "resources/genes.ht"%string = Some (OGenes t))
   ∧ (∃ t, files w !! "resources/rare-variant-phenotypes.ht"%string
           = Some (OPhenos t)))
  ∧ loaded "resources/hgdp-tgp-rare-variants.mt" w'
  ∧ loaded "resources/genes.ht" w'
  ∧ loaded "resources/rare-variant-phenotypes.ht" w'.
Proof.
  unfold Notebook02.notebook.
  intros (mt & w1 & Hs1 & Hrun)%bind_inv.
  pose proof Hrun as Hrest1. revert Hrest1.
  destruct preserves_notebook02_cells
    as (P1 & ? & ? & ? & ? & ? & ? & ? & ? & ? & ? & ? & ? & ?).
  match goal with |- ?p ?w1 = _ → _ =>
    assert (preserves p) as Hp by preserves_auto; intros Hrest1%Hp end.
  apply bind_inv in Hrun as (r & w2 & Hs2 & Hrun).
  revert Hrun. clear Hp.
  match goal with |- ?p ?w1 = _ → _ =>
    assert (preserves p) as Hp by preserves_auto; intros Hrest2%Hp end.
  assert (files w1 = files w) as Hfiles by (eapply P1, Hs1).
  apply step1_loads in Hs1 as [Hmt Hl1].
  apply step2_loads in Hs2 as (Hg & Hp' & Hl2 & Hl3).
  rewrite Hfiles in Hg, Hp'. repeat split; try done.
  - by apply (stable_loaded _ _ _ Hrest1).
  - by apply (stable_loaded _ _ _ Hrest2).
  - by apply (stable_loaded _ _ _ Hrest2).
Qed.

Lemma notebook03_inputs w w' :
  Notebook03.notebook w = inr ((), w') →
  ((∃ m g, files w !! "resources/hgdp.mt"%string = Some (ORelMatrix m g))
   ∧ (∃ t, files w !! "resources/HGDP_sample_data.tsv"%string
           = Some (OSampleData t)))
  ∧ loaded "resources/hgdp.mt" w'
  ∧ loaded "resources/HGDP_sample_data.tsv" w'.
Proof.
  unfold Notebook03.notebook.
  intros (r & w1 & Hs1 & Hrun)%bind_inv.
  revert Hrun.
  destruct preserves_notebook03_cells
    as (? & ? & ? & ? & ? & ? & ? & ? & ? & ? & ?).
  match goal with |- ?p ?w1 = _ → _ =>
    assert (preserves p) as Hp by preserves_auto; intros Hrest%Hp end.
  apply read_hgdp_loads in Hs1 as (Hm & Ht & Hl1 & Hl2).
  repeat split; try done; by apply (stable_loaded _ _ _ Hrest).
Qed.

End Loading.

(** ** The SKAT fault code and the library's exceptions *)

Section Exceptions.
Import Session.
Context `{Engines}.

Lemma as_matrix_run r w m :
  objs w !! r = Some (OMatrix m) → as_matrix r w = inr (m, w).
Proof. intros Hr. unfold as_matrix, deref, mbind, M_bind. by rewrite Hr. Qed.

Lemma as_scores_run r w t :
  objs w !! r = Some (OScores t) → as_scores r w = inr (t, w).
Proof. intros Hr. unfold as_scores, deref, mbind, M_bind. by rewrite Hr. Qed.

Lemma method_run name o w :
  method name o w
  = inr (length (objs w),
         MkWorld (files w) (noise w) (drawn w) (objs w ++ [o]) (reads w)
           (calls w ++ [name]) (screen w)).
Proof. reflexivity. Qed.

(** An exception raised by [hl.skat] leaves the SKAT cells as it is. *)
Lemma skat_exception_propagates mt pca_scores ht w m sc e :
  objs w !! mt = Some (OMatrix m) →
  objs w !! pca_scores = Some (OScores sc) →
  skat (RareVariants.skat_input (RareVariants.skat_mt (list_to_map sc) m))
    = inl e →
  Notebook02.skat_cells mt pca_scores ht w = inl e.
Proof.
  intros Hmt Hsc Hskat. unfold Notebook02.skat_cells.
  rewrite (bind_returns _ _ _ _ _ (as_matrix_run _ _ _ Hmt)).
  rewrite (bind_returns _ _ _ _ _ (as_scores_run _ _ _ Hsc)).
  rewrite (bind_returns _ _ _ _ _ (method_run _ _ _)).
  erewrite bind_returns;
    [|apply as_matrix_run; cbn; by apply list_lookup_middle].
  rewrite (bind_returns _ _ _ _ _ (method_run _ _ _)).
  erewrite bind_returns;
    [|apply as_matrix_run; cbn; by apply list_lookup_middle].
  rewrite (bind_returns _ _ _ _ _ (method_run _ _ _)).
  erewrite bind_returns;
    [|apply as_matrix_run; cbn; by apply list_lookup_middle].
  apply bind_raises. unfold RareVariants.skat_mt in Hskat.
  by rewrite Hskat.
Qed.

End Exceptions.

(** ** The notebooks as a whole *)

(** C6.  No operation of the notebooks changes a library-owned structure.
    Every transformation ([annotate_cols], [annotate_rows], [filter_rows],
    [group_rows_by], [key_by], ...) is a library call that returns a new
    object under a fresh reference; every cell, and each notebook as a
    whole, leaves the files and every library-owned object that existed
    before it as they were (the one in-place update, [fig.add_layout],
    rewrites a figure); and at the end of a notebook the genotype matrix,
    the sample-data table, the gene-interval table and the phenotype table
    that were loaded are still in the session, equal to their files. *)
Theorem library_structures_are_never_mutated `{Session.Engines} :
  (∀ name o w,
     Session.method name o w
     = inr (length (Session.objs w),
            Session.MkWorld (Session.files w) (Session.noise w)
              (Session.drawn w) (Session.objs w ++ [o]) (Session.reads w)
              (Session.calls w ++ [name]) (Session.screen w)))
  ∧ (∀ name o, Logic.preserves (Session.method name o))
  ∧ Logic.preserves Notebook03.read_hgdp
  ∧ (∀ mt, Logic.preserves (Notebook03.simulate mt))
  ∧ (∀ rel mt1, Logic.preserves (Notebook03.ibd_cell rel mt1))
  ∧ (∀ rel mt1, Logic.preserves (Notebook03.pcrel_cell rel mt1))
  ∧ Logic.preserves Notebook02.step1
  ∧ (∀ mt, Logic.preserves (Notebook02.step2 mt))
  ∧ (∀ mt, Logic.preserves (Notebook02.step3 mt))
  ∧ (∀ mt pca_scores,
       Logic.preserves (Notebook02.weighted_burden_cell mt pca_scores))
  ∧ (∀ mt pca_scores ht,
       Logic.preserves (Notebook02.skat_cells mt pca_scores ht))
  ∧ Logic.preserves Notebook03.notebook
  ∧ Logic.preserves Notebook02.notebook
  ∧ Logic.ensures Notebook03.notebook
      (λ w', Logic.loaded "resources/hgdp.mt" w'
             ∧ Logic.loaded "resources/HGDP_sample_data.tsv" w')
  ∧ Logic.ensures Notebook02.notebook
      (λ w', Logic.loaded "resources/hgdp-tgp-rare-variants.mt" w'
             ∧ Logic.loaded "resources/genes.ht" w'
             ∧ Logic.loaded "resources/rare-variant-phenotypes.ht" w').
Proof.
  pose proof preserves_notebook03_cells
    as (? & ? & ? & ? & ? & ? & ? & ? & ? & ? & ?).
  pose proof preserves_notebook02_cells
    as (? & ? & ? & ? & ? & ? & ? & ? & ? & ? & ? & ? & ? & ?).
  repeat apply conj; try done.
  - apply preserves_method.
  - apply preserves_notebook03.
  - apply preserves_notebook02.
  - intros w [] w' Hrun. by apply notebook03_inputs in Hrun as (_ & ? & ?).
  - intros w [] w' Hrun.
    by apply notebook02_inputs in Hrun as (_ & ? & ? & ?).
Qed.

Lemma library_structures_are_never_mutated_witness :
  ∃ w', Notebook02.notebook (H := Examples.toy_engines) Examples.fresh
        = inr ((), w')
        ∧ Logic.loaded "resources/genes.ht" w'.
Proof.
  destruct (Notebook02.notebook (H := Examples.toy_engines) Examples.fresh)
    as [e|[[] w']] eqn:Hrun; [by vm_compute in Hrun|].
  exists w'. split; [reflexivity|].
  pose proof (library_structures_are_never_mutated
                (H := Examples.toy_engines)) as Hthm.
  do 14 apply proj2 in Hthm. by apply (Hthm _ _ _ Hrun).
Defined.

(** C7.  A run of a notebook loads pre-built files through the library's
    loaders and nothing else: notebook 03 loads, in this order, the
    genotype matrix table [hgdp.mt] and the sample-data table
    [HGDP_sample_data.tsv]; notebook 02 loads the genotype matrix table
    [hgdp-tgp-rare-variants.mt], the gene-interval table [genes.ht] and
    the phenotype table [rare-variant-phenotypes.ht]; and the outcome of a
    notebook is the same in any two worlds that agree on these files. *)
Theorem notebooks_read_only_the_prebuilt_inputs `{Session.Engines}
    (w w' : Session.world) :
  (Notebook03.notebook w = inr ((), w') →
   Session.reads w'
   = Session.reads w
     ++ [(Session.matrix_table_loader, "resources/hgdp.mt"%string);
         (Session.text_loader, "resources/HGDP_sample_data.tsv"%string)]
   ∧ Logic.holds "resources/hgdp.mt" Logic.genotype_matrix_table w
   ∧ Logic.holds "resources/HGDP_sample_data.tsv" Logic.sample_data_table w)
  ∧ (Notebook02.notebook w = inr ((), w') →
     Session.reads w'
     = Session.reads w
       ++ [(Session.matrix_table_loader,
            "resources/hgdp-tgp-rare-variants.mt"%string);
           (Session.table_loader, "resources/genes.ht"%string);
           (Session.table_loader,
            "resources/rare-variant-phenotypes.ht"%string)]
     ∧ Logic.holds "resources/hgdp-tgp-rare-variants.mt"
         Logic.genotype_matrix_table w
     ∧ Logic.holds "resources/genes.ht" Logic.gene_interval_table w
     ∧ Logic.holds "resources/rare-variant-phenotypes.ht"
         Logic.phenotype_table w)
  ∧ Logic.consults_only
      ["resources/hgdp.mt"; "resources/HGDP_sample_data.tsv"]%string
      Notebook03.notebook
  ∧ Logic.consults_only
      ["resources/hgdp-tgp-rare-variants.mt"; "resources/genes.ht";
       "resources/rare-variant-phenotypes.ht"]%string
      Notebook02.notebook.
Proof.
  repeat apply conj.
  - intros Hrun. split; [by apply (reads_notebook03 _ _ _ Hrun)|].
    apply notebook03_inputs in Hrun as (((m & g & Hm) & (t & Ht)) & _).
    split; eexists; (split; [eassumption|constructor]).
  - intros Hrun. split; [by apply (reads_notebook02 _ _ _ Hrun)|].
    apply notebook02_inputs
      in Hrun as (((m & Hm) & (t & Ht) & (p & Hp)) & _).
    repeat split; eexists; (split; [eassumption|constructor]).
  - apply consults_notebook03.
  - apply consults_notebook02.
Qed.

Lemma notebooks_read_only_the_prebuilt_inputs_witness :
  ∃ w', Notebook02.notebook (H := Examples.toy_engines) Examples.fresh
        = inr ((), w')
        ∧ Session.reads w'
          = [(Session.matrix_table_loader,
              "resources/hgdp-tgp-rare-variants.mt"%string);
             (Session.table_loader, "resources/genes.ht"%string);
             (Session.table_loader,
              "resources/rare-variant-phenotypes.ht"%string)].
Proof.
  destruct (Notebook02.notebook (H := Examples.toy_engines) Examples.fresh)
    as [e|[[] w']] eqn:Hrun; [by vm_compute in Hrun|].
  exists w'. split; [reflexivity|].
  pose proof (notebooks_read_only_the_prebuilt_inputs
                (H := Examples.toy_engines) Examples.fresh w') as Hthm.
  destruct Hthm as (_ & Hnb & _). by destruct (Hnb Hrun) as [-> _].
Defined.

(** C5.  Every code cell of the solutions guide (the three answers to
    Exercise 1, the four explorations and the weighted burden cell of
    Exercise 2) behaves as the corresponding cell of the teaching
    notebook: from the same session it makes the same library calls with
    the same parameters, displays the same things and ends in the same
    state, or raises the same exception. *)
Theorem solution_guide_repeats_the_notebook `{Session.Engines}
    (burden_mt mt pca_scores : nat) (w : Session.world) :
  SolutionGuide.fraction_zero burden_mt w
    = Notebook02.fraction_zero burden_mt w
  ∧ SolutionGuide.histogram_zero burden_mt w
    = Notebook02.histogram_zero burden_mt w
  ∧ SolutionGuide.counter_zero burden_mt w
    = Notebook02.counter_zero burden_mt w
  ∧ SolutionGuide.explore_annotations mt w
    = Notebook02.explore_annotations mt w
  ∧ SolutionGuide.weighted_burden_cell mt pca_scores w
    = Notebook02.weighted_burden_cell mt pca_scores w.
Proof. repeat split. Qed.

(** ** What the notebooks compute themselves *)

Section OwnLogic.
Import Relatedness.

Lemma sibling_graph_entries a b q :
  Examples.sibling_graph !! a ≫= (.!! b) = Some q → q = 1 # 4.
Proof.
  unfold Examples.sibling_graph. intros Hq.
  destruct (decide (a = 5%Z)) as [->|Hne].
  - rewrite lookup_singleton_eq in Hq. cbn in Hq.
    apply lookup_singleton_Some in Hq as [_ <-]. done.
  - rewrite lookup_singleton_ne in Hq by done. done.
Qed.

Lemma get_rel_closed_form rel (s1 s2 : Z) (z : Q) :
  get_rel rel (Some s1) (Some s2) (Some z)
  = Some ((if decide (s1 = s2) then 1 # 2
           else rel_entry rel (Z.max s1 s2) (Z.min s1 s2)) + z).
Proof.
  unfold get_rel. destruct (decide (s1 = s2)) as [->|Hne].
  - by rewrite get_rel_case_eq.
  - destruct (Z.lt_total s1 s2) as [Hlt|[Heq|Hgt]]; [|done|].
    + rewrite (get_rel_case_lt rel s1 s2 Hlt), Z.max_r, Z.min_l by lia. done.
    + rewrite (get_rel_case_gt rel s1 s2 Hgt), Z.max_l, Z.min_r by lia. done.
Qed.

End OwnLogic.

(** ** The notebooks, run from a fresh kernel *)

(** Unfold the cells and the monad, so that a run that returned is an
    equation between the outcomes of its library calls. *)
Ltac run_notebook02 H :=
  cbv [Session.start Notebook02.notebook Notebook02.step1 Notebook02.step2
       Notebook02.step3 Notebook02.fraction_zero Notebook02.histogram_zero
       Notebook02.counter_zero Notebook02.plot_n_zero Notebook02.pca
       Notebook02.step4 Notebook02.show_genes Notebook02.gwas
       Notebook02.explore_annotations Notebook02.weighted_burden_cell
       Notebook02.skat_cells Notebook02.plot_p_values
       Session.read_matrix_table Session.read_table Session.load
       Session.method Session.show Session.as_matrix Session.as_grouped
       Session.as_genes Session.as_phenos Session.as_scores
       Session.as_results Session.as_variant_results Session.as_skat
       Session.new Session.deref Session.call Session.print
       Session.of_result Session.raise mbind Session.M_bind mret
       Session.M_ret Session.files Session.noise Session.drawn Session.objs
       Session.reads Session.calls Session.screen
       lookup list_lookup length app] in H.

Ltac run_notebook03 H :=
  cbv [Session.start Notebook03.notebook Notebook03.read_hgdp Notebook03.pca
       Notebook03.plot_pca Notebook03.simulate Notebook03.pca1
       Notebook03.plot_pca1 Notebook03.index_relatedness Notebook03.ibd_cell
       Notebook03.king_cells Notebook03.pcrel_cell
       Notebook03.interrogate_cell Notebook03.plot_pairs
       Session.read_matrix_table Session.import_table Session.load
       Session.method Session.show Session.add_layout Session.as_rel_matrix
       Session.as_sample_data Session.as_scores Session.as_scores_by_idx
       Session.as_pairs Session.as_figure Session.new Session.deref
       Session.assign Session.call Session.print Session.of_result
       Session.raise mbind Session.M_bind mret Session.M_ret Session.files
       Session.noise Session.drawn Session.objs Session.reads Session.calls
       Session.screen lookup list_lookup length app insert list_insert] in H.

(** The next file lookup: the file exists and is of the kind the cells
    use it at, or the run did not return. *)
Ltac run_file H :=
  match type of H with
  | context [gmap_lookup ?p ?fs] =>
      let o := fresh "o" in
      let Hf := fresh "Hfile" in
      destruct (gmap_lookup p fs) as [o|] eqn:Hf; cbv beta iota in H;
      [destruct o;
       cbv [Session.is_matrix_table Session.is_table] in H;
       cbv beta iota in H; try discriminate H
      |discriminate H]
  end.

Section Loops.
Import Session.
Context `{Engines}.

Lemma for_each_cons {A B} (f : A → M B) a l w :
  for_each f (a :: l) w
  = match f a w with
    | inl e => inl e
    | inr (b, w1) =>
        match for_each f l w1 with
        | inl e => inl e
        | inr (bs, w2) => inr (b :: bs, w2)
        end
    end.
Proof.
  cbn [for_each]. unfold mbind, M_bind.
  destruct (f a w) as [e|[b w1]]; [done|].
  by destruct (for_each f l w1) as [e|[bs w2]].
Qed.

(** The points of a relatedness plot: the [k]-th pair meets the [k]-th
    of the draws that follow. *)
Lemma for_each_pair_point truth t w :
  for_each (Notebook03.pair_point truth) t w
  = inr (imap (λ k r, MkPoint
                 (Num (truth (Relatedness.i r) (Relatedness.j r)
                         (Some (0 + (5 # 1000) * noise w (drawn w + k)%nat))))
                 (Num (Relatedness.estimate r))
                 [Int (Relatedness.i r); Int (Relatedness.j r)]) t,
         MkWorld (files w) (noise w) (drawn w + length t) (objs w) (reads w)
           (calls w) (screen w)).
Proof.
  revert w. induction t as [|r t IH]; intros [fs nz d os rd cl sc].
  - cbn. by rewrite Nat.add_0_r.
  - rewrite for_each_cons.
    change (Notebook03.pair_point truth r (MkWorld fs nz d os rd cl sc))
      with (inr (A := exn)
              (MkPoint (Num (truth (Relatedness.i r) (Relatedness.j r)
                               (Some (0 + (5 # 1000) * nz d))))
                 (Num (Relatedness.estimate r))
                 [Int (Relatedness.i r); Int (Relatedness.j r)],
               MkWorld fs nz (S d) os rd cl sc)).
    cbv beta iota. rewrite IH.
    cbn [imap length files noise drawn objs reads calls screen].
    rewrite Nat.add_0_r, Nat.add_succ_r. do 3 f_equal.
    apply imap_ext. intros k x _. cbn. by rewrite Nat.add_succ_r.
Qed.

End Loops.

(** The next engine call returned, or the run did not. *)
Ltac run_engine H :=
  match type of H with
  | context [Session.hwe_normalized_pca ?x] =>
      let Hr := fresh "Hpca" in
      destruct (Session.hwe_normalized_pca x) eqn:Hr; cbv beta iota in H;
      [discriminate H|]
  | context [Session.linear_regression_rows ?K ?x] =>
      let Hr := fresh "Hlinreg" in
      destruct (Session.linear_regression_rows K x) eqn:Hr;
      cbv beta iota in H; [discriminate H|]
  | context [Session.skat ?x] =>
      let Hr := fresh "Hskat" in
      destruct (Session.skat x) eqn:Hr; cbv beta iota in H;
      [discriminate H|]
  | context [Session.simulate_random_mating ?m ?a ?b ?c ?d] =>
      let Hr := fresh "Hsim" in
      destruct (Session.simulate_random_mating m a b c d) as [?|[? ?]] eqn:Hr;
      cbv beta iota in H; [discriminate H|]
  | context [Session.identity_by_descent ?k ?m ?a ?b] =>
      let Hr := fresh "Hibd" in
      destruct (Session.identity_by_descent k m a b) eqn:Hr;
      cbv beta iota in H; [discriminate H|]
  | context [Session.king ?m] =>
      let Hr := fresh "Hking" in
      destruct (Session.king m) eqn:Hr; cbv beta iota in H;
      [discriminate H|]
  | context [Session.pc_relate ?m ?a ?b] =>
      let Hr := fresh "Hpcrel" in
      destruct (Session.pc_relate m a b) eqn:Hr; cbv beta iota in H;
      [discriminate H|]
  | context [Session.for_each (Notebook03.pair_point ?f) ?t ?w] =>
      rewrite (for_each_pair_point f t w) in H;
      cbv [Session.files Session.noise Session.drawn Session.objs
           Session.reads Session.calls Session.screen] in H;
      cbv beta iota in H
  end.

Section FreshKernel.
Import Session.
Context `{Engines}.

(** A run of notebook 02 that returned found its three inputs, and called
    the PCA, the regressions and SKAT on the data that the cells derive
    from them; the SKAT bar chart on the screen is drawn from the
    annotated result. *)
Lemma notebook02_runs_pipeline fs nz w' :
  Notebook02.notebook (start fs nz) = inr ((), w') →
  ∃ mt genes phenos sc,
    fs !! "resources/hgdp-tgp-rare-variants.mt"%string = Some (OMatrix mt)
    ∧ fs !! "resources/genes.ht"%string = Some (OGenes genes)
    ∧ fs !! "resources/rare-variant-phenotypes.ht"%string
      = Some (OPhenos phenos)
    ∧ hwe_normalized_pca
        (gt_matrix (RareVariants.mt_step2 genes phenos mt)) = inr sc
    ∧ (∃ res, linear_regression_rows _
                (RareVariants.burden_test_input genes phenos mt sc)
              = inr res)
    ∧ (∃ res, linear_regression_rows _
                (RareVariants.weighted_burden_test_input genes phenos mt sc)
              = inr res)
    ∧ (∃ res, skat (RareVariants.skat_test_input genes phenos mt sc)
              = inr res
        ∧ Shown "show" []
            (OFigure
               (MkFigure
                  (map (λ r, MkPoint
                          (Label (RareVariants.id r))
                          (Num ((λ p, - log p 10)
                                <$> RareVariants.p_value
                                      (RareVariants.annotate_p_value r))) [])
                       res)
                  [("base", "10")] ["geom_col"]))%string
          ∈ screen w').
Proof.
  intros Hrun. run_notebook02 Hrun.
  run_file Hrun; run_file Hrun; run_file Hrun.
  repeat run_engine Hrun.
  injection Hrun as <-.
  eexists _, _, _, _. repeat apply conj; try eassumption.
  - eexists. eassumption.
  - eexists. eassumption.
  - eexists. split; [eassumption|].
    cbv [screen]. do 21 apply list_elem_of_further.
    rewrite !map_map. apply list_elem_of_here.
Qed.

(** A run of notebook 03 that returned shows the IBD plot whose points
    are computed by [get_rel] from the graph of the simulation, the keys
    of the [ibd] table and the draws. *)
Lemma notebook03_plots_get_rel fs nz w' :
  Notebook03.notebook (start fs nz) = inr ((), w') →
  ∃ mt globals sd mt1 rel rows,
    fs !! "resources/hgdp.mt"%string = Some (ORelMatrix mt globals)
    ∧ fs !! "resources/HGDP_sample_data.tsv"%string = Some (OSampleData sd)
    ∧ simulate_random_mating (Relatedness.annotate_sample_idx sd mt)
        (1 # 2) 2 3 5 = inr (mt1, rel)
    ∧ identity_by_descent
        (map (λ c, str <$> Relatedness.sample_idx c)
           (Hl.mt_cols
              (Relatedness.annotate_founder_data
                 (Relatedness.annotate_sample_idx sd mt) mt1)))
        (gt_matrix
           (Relatedness.annotate_founder_data
              (Relatedness.annotate_sample_idx sd mt) mt1)) 0 1
      = inr rows
    ∧ Shown "show" []
        (OFigure
           (MkFigure
              (imap (λ k r,
                 MkPoint
                   (Num (Relatedness.true_relatedness rel (int r.1.1)
                           (int r.1.2) (Some (0 + (5 # 1000) * nz k))))
                   (Num r.2) [Int (int r.1.1); Int (int r.1.2)]) rows)
              [("xlabel", "True coefficient of relatedness");
               ("ylabel", "IBD PI_HAT")]
              ["Slope(gradient=1, y_intercept=0)"]))%string
      ∈ screen w'.
Proof.
  intros Hrun. run_notebook03 Hrun.
  run_file Hrun; run_file Hrun.
  repeat run_engine Hrun.
  injection Hrun as <-.
  eexists _, _, _, _, _, _. repeat apply conj; try eassumption.
  cbv [screen]. do 3 apply list_elem_of_further.
  rewrite imap_fmap. apply list_elem_of_here.
Qed.

End FreshKernel.



Section Raising.
Import Session.
Context `{Engines}.

End Raising.

(** The toy sessions of [Examples] run the notebooks to their end. *)
Lemma toy_notebook02_runs :
  ∃ w', Notebook02.notebook (H := Examples.toy_engines) Examples.fresh
        = inr ((), w').
Proof.
  destruct (Notebook02.notebook (H := Examples.toy_engines) Examples.fresh)
    as [e|[[] w']] eqn:Hrun; [by vm_compute in Hrun|].
  by exists w'.
Defined.

Lemma toy_notebook03_runs :
  ∃ w', Notebook03.notebook (H := Examples.toy_engines) Examples.fresh
        = inr ((), w').
Proof.
  destruct (Notebook03.notebook (H := Examples.toy_engines) Examples.fresh)
    as [e|[[] w']] eqn:Hrun; [by vm_compute in Hrun|].
  by exists w'.
Defined.

(** ** The claims about runs of the notebooks *)

(** C1, as amended.  In a run of notebook 02 the burden regression is
    called on [burden_mt], and for every gene [g] and sample [i] the
    per-gene statistic passed to it as [x] is the number of variants in
    [g] at which the sample carries at least one alternate allele.  It is
    at most the sum over the variants in [g] of the sample's
    alternate-allele count, and equals that sum exactly when none of the
    sample's calls in [g] has two alternate alleles. *)
Theorem burden_statistic_counts_carriers `{Session.Engines}
    (fs : gmap string Session.obj) (nz : nat → Q) (w' : Session.world) :
  Notebook02.notebook (Session.start fs nz) = inr ((), w') →
  ∃ mt genes phenos sc res,
    fs !! "resources/hgdp-tgp-rare-variants.mt"%string
      = Some (Session.OMatrix mt)
    ∧ fs !! "resources/genes.ht"%string = Some (Session.OGenes genes)
    ∧ fs !! "resources/rare-variant-phenotypes.ht"%string
      = Some (Session.OPhenos phenos)
    ∧ Session.hwe_normalized_pca
        (Session.gt_matrix (RareVariants.mt_step2 genes phenos mt)) = inr sc
    ∧ Session.linear_regression_rows _
        (RareVariants.burden_test_input genes phenos mt sc) = inr res
    ∧ ∀ g xs (i : nat) x,
        In (g, xs)
           (RareVariants.reg_x
              (RareVariants.burden_test_input genes phenos mt sc)) →
        xs !! i = Some x →
        let rs := RareVariants.gene_rows
                    (RareVariants.mt_step2 genes phenos mt) g in
        x = Some (inject_Z (RareVariants.carrier_count rs i))
        ∧ (RareVariants.carrier_count rs i
           ≤ RareVariants.alt_allele_sum rs i)%Z
        ∧ (RareVariants.carrier_count rs i = RareVariants.alt_allele_sum rs i
           ↔ Forall (λ re, (RareVariants.alt_count i re ≤ 1)%Z) rs).
Proof.
  intros (mt & genes & phenos & sc & Hmt & Hgenes & Hphenos & Hpca
          & (res & Hres) & _)%notebook02_runs_pipeline.
  exists mt, genes, phenos, sc, res. repeat (split; [done|]).
  intros g xs i x Hrow Hi rs. split.
  - by eapply burden_regression_counts_carriers.
  - apply carrier_count_vs_sum.
Qed.

Lemma burden_statistic_counts_carriers_witness :
  ∃ w' mt,
    Notebook02.notebook (H := Examples.toy_engines) Examples.fresh
    = inr ((), w')
    ∧ Examples.resources !! "resources/hgdp-tgp-rare-variants.mt"%string
      = Some (Session.OMatrix mt).
Proof.
  destruct toy_notebook02_runs as [w' Hrun].
  destruct (burden_statistic_counts_carriers (H := Examples.toy_engines)
              Examples.resources (λ _, 1) w' Hrun)
    as (mt & genes & phenos & sc & res & Hmt & _).
  exists w', mt. split; [exact Hrun|exact Hmt].
Defined.

(** C1 as stated fails: for a sample homozygous for the alternate allele
    at the only MREG variant, both burden cells pass [x = 1], while the
    sum of alternate-allele counts is [2] and the weighted sum is [40]. *)
Lemma burden_statistic_is_not_the_sum :
  In (Some "MREG"%string, Some 1 :: replicate 100 (Some 0))
     (RareVariants.reg_x
        (RareVariants.burden_test_input Examples.gene_intervals ∅
           Examples.one_carrier []))
  ∧ RareVariants.alt_allele_sum
      (RareVariants.gene_rows
         (RareVariants.mt_step2 Examples.gene_intervals ∅ Examples.one_carrier)
         (Some "MREG"%string)) 0 = 2%Z
  ∧ In (Some "MREG"%string, Some 1 :: replicate 100 (Some 0))
       (RareVariants.reg_x
          (RareVariants.weighted_burden_test_input Examples.gene_intervals ∅
             Examples.one_carrier []))
  ∧ RareVariants.weighted_alt_allele_sum
      (RareVariants.gene_rows
         (RareVariants.mt_exercise2 ∅ Examples.gene_intervals ∅
            Examples.one_carrier)
         (Some "MREG"%string)) 0 == 40.
Proof.
  split; [vm_compute; left; reflexivity|].
  split; [vm_compute; reflexivity|].
  split; [vm_compute; left; reflexivity|].
  vm_compute. reflexivity.
Qed.




(** C4, as amended.  The statistics are library calls, but the notebooks
    also compute values of their own that are plotted or aggregated.  In a
    run of notebook 03 the IBD plot that is shown has, for the [k]-th row
    of the table that [hl.identity_by_descent] returned, the abscissa
    [true_relatedness] computed by the notebook from the graph of the
    simulation, the two indices of the row and the jitter
    [0 + 0.005 * draw k], that is twice [get_rel]: [0.5] for equal indices
    and otherwise the graph entry [rel[max][min]], defaulting to [0.0],
    plus the jitter.  And [weight1] of notebook 02 is the notebook's own
    table: synonymous 2, intron 3, missense 5, otherwise 1. *)
Theorem plotted_relatedness_is_computed_by_get_rel `{Session.Engines}
    (fs : gmap string Session.obj) (nz : nat → Q) (w' : Session.world) :
  Notebook03.notebook (Session.start fs nz) = inr ((), w') →
  (∃ mt globals sd mt1 rel rows,
     fs !! "resources/hgdp.mt"%string = Some (Session.ORelMatrix mt globals)
     ∧ fs !! "resources/HGDP_sample_data.tsv"%string
       = Some (Session.OSampleData sd)
     ∧ Session.simulate_random_mating (Relatedness.annotate_sample_idx sd mt)
         (1 # 2) 2 3 5 = inr (mt1, rel)
     ∧ Session.identity_by_descent
         (map (λ c, Session.str <$> Relatedness.sample_idx c)
            (Hl.mt_cols
               (Relatedness.annotate_founder_data
                  (Relatedness.annotate_sample_idx sd mt) mt1)))
         (Session.gt_matrix
            (Relatedness.annotate_founder_data
               (Relatedness.annotate_sample_idx sd mt) mt1)) 0 1
       = inr rows
     ∧ Session.Shown "show" []
         (Session.OFigure
            (Session.MkFigure
               (imap (λ k r,
                  Session.MkPoint
                    (Session.Num
                       (Relatedness.true_relatedness rel
                          (Session.int r.1.1) (Session.int r.1.2)
                          (Some (0 + (5 # 1000) * nz k))))
                    (Session.Num r.2)
                    [Session.Int (Session.int r.1.1);
                     Session.Int (Session.int r.1.2)]) rows)
               [("xlabel", "True coefficient of relatedness");
                ("ylabel", "IBD PI_HAT")]
               ["Slope(gradient=1, y_intercept=0)"]))%string
       ∈ Session.screen w'
     ∧ ∀ (s1 s2 : Z) (z : Q),
         Relatedness.true_relatedness rel (Some s1) (Some s2) (Some z)
         = Some (((if decide (s1 = s2) then 1 # 2
                   else Relatedness.rel_entry rel (Z.max s1 s2)
                          (Z.min s1 s2)) + z) * 2))
  ∧ (∀ (rel : Relatedness.relatedness) (s1 s2 : Z) (z : Q),
       Relatedness.get_rel rel (Some s1) (Some s2) (Some z)
       = Some ((if decide (s1 = s2) then 1 # 2
                else Relatedness.rel_entry rel (Z.max s1 s2) (Z.min s1 s2))
               + z))
  ∧ ∀ csq : string,
      RareVariants.weight1_case (Some csq)
      = Some (if decide (csq = "synonymous_variant"%string) then 2%Z
              else if decide (csq = "intron_variant"%string) then 3%Z
              else if decide (csq = "missense_variant"%string) then 5%Z
              else 1%Z).
Proof.
  intros (mt & globals & sd & mt1 & rel & rows & Hmt & Hsd & Hsim & Hibd
          & Hshown)%notebook03_plots_get_rel.
  split; [|split].
  - exists mt, globals, sd, mt1, rel, rows. do 5 (split; [done|]).
    intros s1 s2 z. unfold Relatedness.true_relatedness.
    by rewrite get_rel_closed_form.
  - apply get_rel_closed_form.
  - intros csq. unfold RareVariants.weight1_case, Hl.when, Hl.if_else. cbn.
    repeat case_decide; repeat case_bool_decide; done.
Qed.

Lemma plotted_relatedness_is_computed_by_get_rel_witness :
  ∃ w',
    Notebook03.notebook (H := Examples.toy_engines) Examples.fresh
    = inr ((), w')
    ∧ RareVariants.weight1_case (Some "missense_variant"%string)
      = Some 5%Z.
Proof.
  destruct toy_notebook03_runs as [w' Hrun].
  destruct (plotted_relatedness_is_computed_by_get_rel
              (H := Examples.toy_engines) Examples.resources (λ _, 1) w'
              Hrun) as (_ & _ & Hweight).
  exists w'. split; [exact Hrun|].
  rewrite (Hweight "missense_variant"%string). reflexivity.
Defined.

(** C4 as stated fails: in a run of notebook 03 the IBD plot shows, for
    the pair (2, 5), the abscissa [0.51]: neither the graph entry [0.25]
    nor the jitter draw [0.005] that the library handed over, but the
    value [(0.25 + 0.005) * 2] the notebook computed from them. *)
Lemma plotted_relatedness_not_passed_through :
  ∃ w' fig q,
    Notebook03.notebook (H := Examples.toy_engines) Examples.fresh
    = inr ((), w')
    ∧ Session.Shown "show" [] (Session.OFigure fig) ∈ Session.screen w'
    ∧ Session.MkPoint (Session.Num (Some q)) (Session.Num (Some (3 # 5)))
        [Session.Int (Some 2%Z); Session.Int (Some 5%Z)]
      ∈ Session.fig_points fig
    ∧ q == 51 # 100
    ∧ ¬ Logic.passed_through Examples.sibling_graph (5 # 1000) (Some q).
Proof.
  eexists _, _, _. split; [vm_compute; reflexivity|].
  split; [do 3 apply list_elem_of_further; apply list_elem_of_here|].
  split; [apply list_elem_of_here|].
  split; [reflexivity|].
  intros [Hq|(a & b & q' & Hq' & Hq)].
  - vm_compute in Hq. discriminate Hq.
  - apply sibling_graph_entries in Hq' as ->. vm_compute in Hq.
    discriminate Hq.
Qed.

(** C8.  In a run of notebook 02, for every variant row handed to
    [hl.skat] the weight handed over with it is
    [hl.dbeta(AF[1], 1, 25)], the Beta(1, 25) probability density
    [25 (1 - AF)^24] at the alternate-allele frequency that [variant_qc]
    computes for the row; the frequency is defined, and the weight is
    strictly above the Beta(1, 25) distribution function
    [1 - (1 - AF)^25] at that frequency, so it is not a CDF value. *)
Theorem skat_weight_is_beta_density `{Session.Engines}
    (fs : gmap string Session.obj) (nz : nat → Q) (w' : Session.world) :
  Notebook02.notebook (Session.start fs nz) = inr ((), w') →
  ∃ mt genes phenos sc res,
    fs !! "resources/hgdp-tgp-rare-variants.mt"%string
      = Some (Session.OMatrix mt)
    ∧ fs !! "resources/genes.ht"%string = Some (Session.OGenes genes)
    ∧ fs !! "resources/rare-variant-phenotypes.ht"%string
      = Some (Session.OPhenos phenos)
    ∧ Session.hwe_normalized_pca
        (Session.gt_matrix (RareVariants.mt_step2 genes phenos mt)) = inr sc
    ∧ Session.skat (RareVariants.skat_test_input genes phenos mt sc)
      = inr res
    ∧ ∀ g wgt xs,
        In ((g, wgt), xs)
           (RareVariants.reg_x
              (RareVariants.skat_test_input genes phenos mt sc)) →
        ∃ r es af,
          In (r, es)
             (Hl.mt_rows
                (RareVariants.skat_mt
                   (RareVariants.pca_table
                      (RareVariants.mt_step2 genes phenos mt) sc)
                   (RareVariants.mt_exercise2
                      (RareVariants.pca_table
                         (RareVariants.mt_step2 genes phenos mt) sc)
                      genes phenos mt)))
          ∧ g = RareVariants.gene_name r
          ∧ xs = map RareVariants.dosage es
          ∧ RareVariants.variant_qc_AF1 r = Some af
          ∧ Hl.call_stats_AF 1 (map RareVariants.GT es) = Some af
          ∧ wgt = Hl.dbeta (Some af) 1 25
          ∧ Hl.dbeta_Q af 1 25 == 25 * (1 - af) ^ 24
          ∧ Hl.pbeta_1 af 25 < Hl.dbeta_Q af 1 25.
Proof.
  intros (mt & genes & phenos & sc & Hmt & Hgenes & Hphenos & Hpca
          & _ & _ & (res & Hskat & _))%notebook02_runs_pipeline.
  exists mt, genes, phenos, sc, res. repeat (split; [done|]).
  intros g wgt xs Hrow.
  by apply skat_input_weight_is_beta_density in Hrow.
Qed.

Lemma skat_weight_is_beta_density_witness :
  ∃ w' mt genes phenos sc res,
    Notebook02.notebook (H := Examples.toy_engines) Examples.fresh
    = inr ((), w')
    ∧ Examples.resources !! "resources/hgdp-tgp-rare-variants.mt"%string
      = Some (Session.OMatrix mt)
    ∧ Session.skat (Engines := Examples.toy_engines)
        (RareVariants.skat_test_input genes phenos mt sc)
      = inr res.
Proof.
  destruct toy_notebook02_runs as [w' Hrun].
  destruct (skat_weight_is_beta_density (H := Examples.toy_engines)
              Examples.resources (λ _, 1) w' Hrun)
    as (mt & genes & phenos & sc & res & Hmt & Hgenes & Hphenos & Hpca
        & Hskat & _).
  exists w', mt, genes, phenos, sc, res.
  split; [exact Hrun|]. split; [exact Hmt|exact Hskat].
Defined.

(** C9.  Every variant row that the three filter steps retain has an
    empty filters set, an alternate-allele frequency strictly below
    [0.01] and at least one call that is not homozygous reference; and in
    a run of notebook 02 the burden test, the weighted burden test and
    SKAT are called on data computed from matrix tables that hold only
    such rows. *)
Theorem quality_control_invariant `{Session.Engines}
    (fs : gmap string Session.obj) (nz : nat → Q) (w' : Session.world)
    (mt0 : RareVariants.GenotypeMatrix) :
  Forall RareVariants.qc_ok (Hl.mt_rows (RareVariants.quality_control mt0))
  ∧ (Notebook02.notebook (Session.start fs nz) = inr ((), w') →
     ∃ mt genes phenos sc,
       fs !! "resources/hgdp-tgp-rare-variants.mt"%string
         = Some (Session.OMatrix mt)
       ∧ fs !! "resources/genes.ht"%string = Some (Session.OGenes genes)
       ∧ fs !! "resources/rare-variant-phenotypes.ht"%string
         = Some (Session.OPhenos phenos)
       ∧ Session.hwe_normalized_pca
           (Session.gt_matrix (RareVariants.mt_step2 genes phenos mt))
         = inr sc
       ∧ let pca_scores :=
           RareVariants.pca_table (RareVariants.mt_step2 genes phenos mt) sc in
         let mt2 := RareVariants.mt_step2 genes phenos mt in
         let mt3 := RareVariants.mt_exercise2 pca_scores genes phenos mt in
         (∃ res, Session.linear_regression_rows _
                   (RareVariants.burden_regression_input
                      (RareVariants.annotate_pca pca_scores
                         (RareVariants.burden_mt mt2)))
                 = inr res)
         ∧ Forall RareVariants.qc_ok (Hl.mt_rows mt2)
         ∧ (∃ res, Session.linear_regression_rows _
                     (RareVariants.burden_regression_input
                        (RareVariants.xx mt3))
                   = inr res)
         ∧ Forall RareVariants.qc_ok (Hl.mt_rows mt3)
         ∧ (∃ res, Session.skat
                     (RareVariants.skat_input
                        (RareVariants.skat_mt pca_scores mt3))
                   = inr res)
         ∧ Forall RareVariants.qc_ok
             (Hl.mt_rows (RareVariants.skat_mt pca_scores mt3))).
Proof.
  split; [apply quality_control_ok|].
  intros (mt & genes & phenos & sc & Hmt & Hgenes & Hphenos & Hpca
          & Hburden & Hweighted & (res & Hskat & _))%notebook02_runs_pipeline.
  exists mt, genes, phenos, sc. do 4 (split; [done|]).
  intros pca_scores mt2 mt3.
  destruct (pipeline_rows_pass_quality_control pca_scores genes phenos mt)
    as (_ & H2 & H3 & H4).
  repeat apply conj; try done. by exists res.
Qed.

Lemma quality_control_invariant_witness :
  ∃ w' mt,
    Notebook02.notebook (H := Examples.toy_engines) Examples.fresh
    = inr ((), w')
    ∧ Examples.resources !! "resources/hgdp-tgp-rare-variants.mt"%string
      = Some (Session.OMatrix mt)
    ∧ Forall RareVariants.qc_ok
        (Hl.mt_rows (RareVariants.quality_control mt)).
Proof.
  destruct toy_notebook02_runs as [w' Hrun].
  destruct (quality_control_invariant (H := Examples.toy_engines)
              Examples.resources (λ _, 1) w' Examples.one_carrier)
    as [Hqc Hthm].
  destruct (Hthm Hrun) as (mt & genes & phenos & sc & Hmt & _).
  exists w', mt. split; [exact Hrun|]. split; [exact Hmt|].
  apply (quality_control_invariant (H := Examples.toy_engines)
           Examples.resources (λ _, 1) w' mt).
Defined.

(** * Further properties of the cells *)

(** ** Filters on rows *)

Section Filters.
Context {A : Type}.
Implicit Types (f g : A → bool) (l : list A).

Lemma List_filter_sublist f l : sublist (List.filter f l) l.
Proof.
  induction l as [|a l IH]; cbn; [constructor|].
  destruct (f a); by constructor.
Qed.

Lemma List_filter_filter f g l :
  List.filter f (List.filter g l) = List.filter (λ a, g a && f a) l.
Proof.
  induction l as [|a l IH]; cbn; [done|].
  destruct (g a); cbn; [destruct (f a)|]; by rewrite IH.
Qed.

Lemma List_filter_comm f g l :
  List.filter f (List.filter g l) = List.filter g (List.filter f l).
Proof.
  rewrite !List_filter_filter. apply List.filter_ext. intros a.
  apply andb_comm.
Qed.

Lemma List_filter_idemp f l :
  List.filter f (List.filter f l) = List.filter f l.
Proof.
  rewrite List_filter_filter. apply List.filter_ext. intros a.
  by destruct (f a).
Qed.

End Filters.

Section FilterRows.
Context {R C E : Type}.
Implicit Types (mt : Hl.MatrixTable R C E) (expr : R → list E → option bool).

Lemma filter_rows_comm expr1 keep1 expr2 keep2 mt :
  Hl.filter_rows expr1 keep1 (Hl.filter_rows expr2 keep2 mt)
  = Hl.filter_rows expr2 keep2 (Hl.filter_rows expr1 keep1 mt).
Proof. unfold Hl.filter_rows. cbn. f_equal. apply List_filter_comm. Qed.

Lemma filter_rows_idemp expr keep mt :
  Hl.filter_rows expr keep (Hl.filter_rows expr keep mt)
  = Hl.filter_rows expr keep mt.
Proof. unfold Hl.filter_rows. cbn. f_equal. apply List_filter_idemp. Qed.

End FilterRows.

(** ** Step 1: quality control *)

Section QualityControlExactly.
Import RareVariants.

Lemma Qltb_true_iff x y : Hl.Qltb x y = true ↔ x < y.
Proof.
  unfold Hl.Qltb. rewrite negb_true_iff, <- not_true_iff_false, Qle_bool_iff.
  split; [apply Qnot_le_lt | apply Qlt_not_le].
Qed.

Lemma agg_count_where_zero l :
  Hl.agg_count_where l = 0%Z ↔ Some true ∉ l.
Proof.
  induction l as [|[[]|] l IH]; cbn.
  - split; [intros _; apply not_elem_of_nil|done].
  - pose proof (agg_count_where_nonneg l). split; [lia|]. intros Hn.
    destruct Hn. apply list_elem_of_here.
  - rewrite IH, not_elem_of_cons.
    split; [intros ?; split; [discriminate|done]|intros [_ ?]; done].
  - rewrite IH, not_elem_of_cons.
    split; [intros ?; split; [discriminate|done]|intros [_ ?]; done].
Qed.

Lemma not_all_hom_ref_iff (es : list entry) :
  Hl.agg_all (map (λ e, option_map Hl.is_hom_ref (GT e)) es) = false
  ↔ ∃ e c, e ∈ es ∧ GT e = Some c ∧ Hl.is_hom_ref c = false.
Proof.
  unfold Hl.agg_all. rewrite bool_decide_eq_false, agg_count_where_zero.
  split.
  - intros Hn. apply dec_stable in Hn. apply list_elem_of_In in Hn.
    rewrite !in_map_iff in Hn.
    destruct Hn as (o & Ho & (e & <- & He)%in_map_iff).
    destruct (GT e) as [c|] eqn:Hc; [|done]. cbn in Ho.
    exists e, c. split; [by apply list_elem_of_In|]. split; [done|].
    injection Ho as Ho. by apply negb_true_iff.
  - intros (e & c & He & Hc & Hr) Hn. apply Hn. apply list_elem_of_In.
    apply in_map_iff. exists (Some false). split; [done|].
    apply in_map_iff. exists e. split; [by rewrite Hc, <- Hr|].
    by apply list_elem_of_In.
Qed.

Lemma passes_quality_control_spec re :
  Shape.passes_quality_control re = true ↔ qc_ok re.
Proof.
  unfold Shape.passes_quality_control, qc_ok.
  rewrite !andb_true_iff, bool_decide_eq_true, existsb_exists.
  split.
  - intros [[Hf Haf] (e & He & Hc)]. split; [done|]. split.
    + destruct (Hl.call_stats_AF 1 (map GT re.2)) as [af|]; [|done].
      exists af. split; [done|]. by apply Qltb_true_iff.
    + destruct (GT e) as [c|] eqn:HGT; [|done].
      exists e, c. split; [by apply list_elem_of_In|].
      split; [done|]. by apply negb_true_iff.
  - intros (Hf & (af & -> & Hlt) & (e & c & He & HGT & Hc)).
    split; [split; [done|by apply Qltb_true_iff]|].
    exists e. split; [by apply list_elem_of_In|]. by rewrite HGT, Hc.
Qed.

Lemma non_pass_condition (r : variant) :
  bool_decide
    (Hl.int_eq (option_map (λ f, Z.of_nat (length f)) (filters r)) (Some 0%Z)
     = Some true)
  = bool_decide (filters r = Some []).
Proof. destruct (filters r) as [[|x f]|]; done. Qed.

Lemma common_condition (es : list entry) :
  bool_decide
    (Hl.float_lt (Hl.call_stats_AF 1 (map GT es)) (Some (1 # 100))
     = Some true)
  = match Hl.call_stats_AF 1 (map GT es) with
    | Some af => Hl.Qltb af (1 # 100)
    | None => false
    end.
Proof.
  destruct (Hl.call_stats_AF 1 (map GT es)) as [af|]; cbn; [|done].
  destruct (Hl.Qltb af (1 # 100)); done.
Qed.

Lemma hom_ref_condition (es : list entry) :
  bool_decide
    (Some (Hl.agg_all (map (λ e, option_map Hl.is_hom_ref (GT e)) es))
     = Some false)
  = existsb (λ e, match GT e with
                  | Some c => negb (Hl.is_hom_ref c)
                  | None => false
                  end) es.
Proof.
  apply eq_true_iff_eq. rewrite bool_decide_eq_true.
  rewrite existsb_exists. split.
  - intros [= Hall]. apply not_all_hom_ref_iff in Hall
      as (e & c & He & HGT & Hc).
    exists e. split; [by apply list_elem_of_In|]. by rewrite HGT, Hc.
  - intros (e & He & Hc). f_equal. apply not_all_hom_ref_iff.
    destruct (GT e) as [c|] eqn:HGT; [|done].
    exists e, c. split; [by apply list_elem_of_In|].
    split; [done|]. by apply negb_true_iff.
Qed.

Lemma quality_control_rows (mt : GenotypeMatrix) :
  Hl.mt_rows (quality_control mt)
  = List.filter Shape.passes_quality_control (Hl.mt_rows mt).
Proof.
  unfold quality_control, remove_all_hom_ref, remove_common, remove_non_pass,
    Hl.filter_rows. cbn. rewrite !List_filter_filter.
  apply List.filter_ext. intros [r es]. cbn.
  unfold Shape.passes_quality_control. cbn.
  rewrite non_pass_condition, common_condition, hom_ref_condition.
  apply andb_assoc.
Qed.

Lemma quality_control_eq (mt : GenotypeMatrix) :
  quality_control mt
  = Hl.MkMatrixTable
      (List.filter Shape.passes_quality_control (Hl.mt_rows mt))
      (Hl.mt_cols mt).
Proof.
  pose proof (quality_control_rows mt) as Hrows.
  unfold quality_control, remove_all_hom_ref, remove_common, remove_non_pass,
    Hl.filter_rows in *. cbn in *. by rewrite Hrows.
Qed.

End QualityControlExactly.

(** X1.  The three filters of Step 1 keep exactly the rows that are PASS
    ([filters] defined and empty), rare ([AF[1]] defined and below [0.01])
    and carry a call that is not homozygous reference, in their order and
    with their fields and entries as they were; a row on which a condition
    is missing (no [filters], no defined call) is removed; the columns are
    not touched. *)
Theorem quality_control_keeps_exactly_the_passing_rows
    (mt : RareVariants.GenotypeMatrix) :
  Hl.mt_rows (RareVariants.quality_control mt)
  = List.filter Shape.passes_quality_control (Hl.mt_rows mt)
  ∧ Hl.mt_cols (RareVariants.quality_control mt) = Hl.mt_cols mt
  ∧ sublist (Hl.mt_rows (RareVariants.quality_control mt)) (Hl.mt_rows mt)
  ∧ (∀ re, Shape.passes_quality_control re = true ↔ RareVariants.qc_ok re)
  ∧ (∀ re, RareVariants.filters re.1 = None →
           Shape.passes_quality_control re = false)
  ∧ (∀ re, Forall (λ e, RareVariants.GT e = None) re.2 →
           Shape.passes_quality_control re = false).
Proof.
  split; [apply quality_control_rows|]. split; [done|].
  split; [rewrite quality_control_rows; apply List_filter_sublist|].
  split; [apply passes_quality_control_spec|]. split.
  - intros re Hf. unfold Shape.passes_quality_control. by rewrite Hf.
  - intros re Hall. unfold Shape.passes_quality_control.
    apply andb_false_intro2. apply not_true_iff_false.
    rewrite existsb_exists. intros (e & He & Hc).
    rewrite Forall_forall in Hall.
    by rewrite (Hall e) in Hc by by apply list_elem_of_In.
Qed.

(** X2.  The three filters of Step 1 can be run in any order, and running
    Step 1 again on its result changes nothing. *)
Theorem quality_control_filters_commute (mt : RareVariants.GenotypeMatrix) :
  RareVariants.remove_common (RareVariants.remove_non_pass mt)
  = RareVariants.remove_non_pass (RareVariants.remove_common mt)
  ∧ RareVariants.remove_all_hom_ref (RareVariants.remove_common mt)
    = RareVariants.remove_common (RareVariants.remove_all_hom_ref mt)
  ∧ RareVariants.remove_all_hom_ref (RareVariants.remove_non_pass mt)
    = RareVariants.remove_non_pass (RareVariants.remove_all_hom_ref mt)
  ∧ RareVariants.quality_control (RareVariants.quality_control mt)
    = RareVariants.quality_control mt.
Proof.
  split; [apply filter_rows_comm|]. split; [apply filter_rows_comm|].
  split; [apply filter_rows_comm|].
  rewrite !quality_control_eq. cbn. by rewrite List_filter_idemp.
Qed.

(** ** Step 3: the grouped matrix table *)

Section Grouping.
Context {R C E K A : Type} `{EqDecision K}.
Implicit Types (mt : Hl.MatrixTable R C E) (key : R → K).

Lemma sublist_map {X Y} (f : X → Y) (l1 l2 : list X) :
  sublist l1 l2 → sublist (map f l1) (map f l2).
Proof. induction 1; cbn; by constructor. Qed.

Lemma group_rows_by_aggregate_keys key (agg : list (R * E) → A) mt :
  map fst (Hl.mt_rows (Hl.group_rows_by_aggregate key agg mt))
  = remove_dups (map (λ re, key re.1) (Hl.mt_rows mt)).
Proof.
  unfold Hl.group_rows_by_aggregate. cbn. rewrite map_map. cbn.
  apply map_id.
Qed.

Lemma group_rows_by_aggregate_length key (agg : list (R * E) → A) mt k es :
  In (k, es) (Hl.mt_rows (Hl.group_rows_by_aggregate key agg mt)) →
  length es = length (Hl.mt_cols mt).
Proof.
  unfold Hl.group_rows_by_aggregate. cbn.
  intros (k' & [= <- <-] & _)%in_map_iff. apply length_imap.
Qed.

Lemma group_rows_by_aggregate_key_In key (agg : list (R * E) → A) mt k es :
  In (k, es) (Hl.mt_rows (Hl.group_rows_by_aggregate key agg mt)) →
  ∃ re, In re (Hl.mt_rows mt) ∧ key re.1 = k.
Proof.
  unfold Hl.group_rows_by_aggregate. cbn.
  intros (k' & [= <- <-] & Hk)%in_map_iff.
  apply list_elem_of_In in Hk. rewrite elem_of_remove_dups in Hk.
  apply list_elem_of_In in Hk.
  apply in_map_iff in Hk as (re & <- & Hre). by exists re.
Qed.

End Grouping.

Section BurdenShape.
Import RareVariants.

Lemma agg_sum_pos (es : list Z) :
  (0 < Hl.agg_sum (map Some es))%Z → ∃ (i : nat) x, es !! i = Some x ∧ (0 < x)%Z.
Proof.
  induction es as [|a es IH]; cbn; [lia|]. intros Hs.
  destruct (decide (0 < a)%Z) as [Ha|Ha]; [by exists 0%nat, a|].
  destruct IH as (i & x & Hi & Hx); [lia|]. by exists (S i), x.
Qed.

Lemma agg_sum_lookup_le (es : list Z) (i : nat) x :
  Forall (λ n, (0 ≤ n)%Z) es → es !! i = Some x →
  (x ≤ Hl.agg_sum (map Some es))%Z.
Proof.
  intros Hall. revert i. induction Hall as [|a es Ha Hall IH]; intros i Hi;
    [done|]. cbn.
  assert (0 ≤ Hl.agg_sum (map Some es))%Z.
  { apply agg_sum_nonneg. apply Forall_forall. intros o Ho n ->.
    apply list_elem_of_In, in_map_iff in Ho as (m & [= <-] & Hm).
    rewrite Forall_forall in Hall. by apply Hall, list_elem_of_In. }
  destruct i as [|i]; cbn in Hi; [injection Hi as <-; lia|].
  specialize (IH i Hi). lia.
Qed.

Lemma carrier_count_range rs i :
  (0 ≤ carrier_count rs i ≤ Z.of_nat (length rs))%Z.
Proof.
  unfold carrier_count. split; [lia|].
  apply Nat2Z.inj_le, List.filter_length_le.
Qed.

Lemma some_variant_true g (es : list Z) :
  some_variant g es = Some true ↔ (0 < Hl.agg_sum (map Some es))%Z.
Proof.
  unfold some_variant. cbn. split.
  - intros [= Hd]. by apply bool_decide_eq_true in Hd.
  - intros Hd. f_equal. by apply bool_decide_eq_true.
Qed.

End BurdenShape.

Lemma burden_mt_row_length (mt : RareVariants.GenotypeMatrix) g es :
  In (g, es) (Hl.mt_rows (RareVariants.burden_mt mt)) →
  length es = length (Hl.mt_cols mt).
Proof.
  intros Hrow. apply filter_rows_In in Hrow as [Hrow _].
  by apply group_rows_by_aggregate_length in Hrow.
Qed.

Lemma burden_mt_row_has_carrier (mt : RareVariants.GenotypeMatrix) g es :
  In (g, es) (Hl.mt_rows (RareVariants.burden_mt mt)) →
  ∃ (i : nat) x, es !! i = Some x ∧ (0 < x)%Z.
Proof.
  intros Hrow. apply filter_rows_In in Hrow as [_ Hsome]. cbn in Hsome.
  apply (some_variant_true g) in Hsome. by apply agg_sum_pos.
Qed.

(** X3.  [burden_mt] has one row per gene name (no name twice), every
    row has one count per sample, every count lies between [0] and the
    number of variants of the gene, and every row kept by
    [filter_rows(hl.agg.sum(burden_mt.n_variants) > 0)] has a sample with
    a positive count. *)
Theorem burden_mt_shape (mt : RareVariants.GenotypeMatrix) :
  NoDup (map fst (Hl.mt_rows (RareVariants.burden_mt mt)))
  ∧ Hl.mt_cols (RareVariants.burden_mt mt) = Hl.mt_cols mt
  ∧ ∀ g es, In (g, es) (Hl.mt_rows (RareVariants.burden_mt mt)) →
      length es = length (Hl.mt_cols mt)
      ∧ (∀ (i : nat) x, es !! i = Some x →
           (0 ≤ x ≤ Z.of_nat (length (RareVariants.gene_rows mt g)))%Z)
      ∧ ∃ (i : nat) x, es !! i = Some x ∧ (0 < x)%Z.
Proof.
  split; [|split; [done|]].
  - unfold RareVariants.burden_mt, Hl.filter_rows.
    cbn -[Hl.group_rows_by_aggregate].
    eapply sublist_NoDup; [|apply sublist_map, List_filter_sublist].
    rewrite group_rows_by_aggregate_keys. apply NoDup_remove_dups.
  - intros g es Hrow. split; [|split].
    + by eapply burden_mt_row_length.
    + intros i x Hi.
      rewrite (burden_mt_counts_carriers mt g es i x Hrow Hi).
      apply carrier_count_range.
    + by eapply burden_mt_row_has_carrier.
Qed.

(** ** One entry per row and column *)

Section Rectangular.
Context {R C E : Type}.
Implicit Types (mt : Hl.MatrixTable R C E).

Lemma rectangular_filter_rows expr keep mt :
  Shape.rectangular mt → Shape.rectangular (Hl.filter_rows expr keep mt).
Proof.
  unfold Shape.rectangular, Hl.filter_rows. cbn. rewrite !Forall_forall.
  intros Hall re Hre. apply Hall. apply list_elem_of_In in Hre.
  apply list_elem_of_In. by apply List.filter_In in Hre as [Hre _].
Qed.

Lemma rectangular_annotate_rows {R'} (f : R → list E → R') mt :
  Shape.rectangular mt → Shape.rectangular (Hl.annotate_rows f mt).
Proof.
  unfold Shape.rectangular, Hl.annotate_rows. cbn. rewrite !Forall_forall.
  intros Hall re Hre. apply list_elem_of_In, in_map_iff in Hre
    as (re0 & <- & Hre0). cbn. by apply Hall, list_elem_of_In.
Qed.

Lemma rectangular_annotate_cols {C'} (f : C → C') mt :
  Shape.rectangular mt → Shape.rectangular (Hl.annotate_cols f mt).
Proof.
  unfold Shape.rectangular, Hl.annotate_cols. cbn. by rewrite length_map.
Qed.

End Rectangular.

Section RectangularPipeline.
Import RareVariants.

Lemma rectangular_quality_control mt :
  Shape.rectangular mt → Shape.rectangular (quality_control mt).
Proof. intros Hr. by do 3 apply rectangular_filter_rows. Qed.

Lemma rectangular_mt_step2 genes phenos mt :
  Shape.rectangular mt → Shape.rectangular (mt_step2 genes phenos mt).
Proof.
  intros Hr. apply rectangular_annotate_cols, rectangular_annotate_rows.
  by apply rectangular_quality_control.
Qed.

Lemma rectangular_mt_exercise2 pca_scores genes phenos mt :
  Shape.rectangular mt →
  Shape.rectangular (mt_exercise2 pca_scores genes phenos mt).
Proof.
  intros Hr. apply rectangular_annotate_cols, rectangular_annotate_rows,
    rectangular_annotate_cols. by apply rectangular_mt_step2.
Qed.

Lemma rectangular_skat_mt pca_scores mt :
  Shape.rectangular mt → Shape.rectangular (skat_mt pca_scores mt).
Proof.
  intros Hr. do 2 apply rectangular_annotate_rows.
  by apply rectangular_annotate_cols.
Qed.

Lemma not_hom_ref_has_alt (c : Hl.call) :
  Hl.is_hom_ref c = false → (0 < Hl.n_alt_alleles c)%Z.
Proof.
  unfold Hl.is_hom_ref, Hl.n_alt_alleles, Hl.is_alt.
  destruct (Nat.eqb (Hl.allele1 c) 0), (Nat.eqb (Hl.allele2 c) 0); cbn;
    intros; (done || lia).
Qed.

Lemma carrier_count_pos rs (j : nat) re e c :
  In re rs → re.2 !! j = Some e → GT e = Some c →
  Hl.is_hom_ref c = false → (0 < carrier_count rs j)%Z.
Proof.
  intros Hre Hj HGT Hc. unfold carrier_count.
  assert (In re (List.filter (λ re, (0 <? alt_count j re)%Z) rs)) as Hin.
  { apply List.filter_In. split; [done|]. apply Z.ltb_lt.
    unfold alt_count. rewrite Hj. destruct e as [g]. cbn in HGT. subst g.
    by apply not_hom_ref_has_alt. }
  destruct (List.filter _ rs); [done|]. cbn. lia.
Qed.

Lemma List_filter_all {X} (f : X → bool) l :
  (∀ a, In a l → f a = true) → List.filter f l = l.
Proof.
  induction l as [|a l IH]; cbn; [done|]. intros Hall.
  rewrite (Hall a) by by left. f_equal. apply IH. intros b Hb.
  apply Hall. by right.
Qed.

Lemma grouped_row_has_carrier (mt : GenotypeMatrix) g es :
  Shape.rectangular mt → Forall qc_ok (Hl.mt_rows mt) →
  In (g, es) (Hl.mt_rows (Hl.group_rows_by_aggregate gene_name n_variants mt)) →
  some_variant g es = Some true.
Proof.
  intros Hrect Hqc Hrow. apply some_variant_true.
  destruct (group_rows_by_aggregate_key_In _ _ _ _ _ Hrow)
    as (re & Hre & Hkey).
  pose proof Hqc as Hok. rewrite Forall_forall in Hok.
  destruct (Hok re) as (_ & _ & (e & c & He & HGT & Hc));
    [by apply list_elem_of_In|].
  apply list_elem_of_lookup in He as [j Hj].
  assert (j < length es)%nat as Hlt.
  { rewrite (group_rows_by_aggregate_length _ _ _ _ _ Hrow).
    unfold Shape.rectangular in Hrect. rewrite Forall_forall in Hrect.
    rewrite <- (Hrect re) by by apply list_elem_of_In.
    by eapply lookup_lt_Some. }
  apply lookup_lt_is_Some in Hlt as [x Hx].
  assert (∀ (i : nat) y, es !! i = Some y
            → y = carrier_count (gene_rows mt g) i) as Hes.
  { intros i y Hi.
    rewrite (group_rows_by_aggregate_entry _ _ _ _ _ _ _ Hrow Hi).
    apply n_variants_carrier_count. }
  eapply Z.lt_le_trans; [|eapply agg_sum_lookup_le; [|exact Hx]].
  - rewrite (Hes j x Hx). eapply carrier_count_pos; [|done..].
    apply List.filter_In. split; [done|]. by apply bool_decide_eq_true.
  - apply Forall_lookup. intros i y Hi. rewrite (Hes i y Hi).
    apply carrier_count_range.
Qed.

End RectangularPipeline.

(** X4.  After the quality control of Step 1 the filter
    [burden_mt.filter_rows(hl.agg.sum(burden_mt.n_variants) > 0)] of
    Step 3 removes nothing: on a matrix table with one entry per row and
    column, every gene of the grouped table already has a carrier, because
    Step 1 kept only variants with a call that is not homozygous
    reference. *)
Theorem burden_filter_removes_nothing_after_quality_control
    (genes : list RareVariants.gene_row)
    (phenos : gmap string RareVariants.pheno_row)
    (mt : RareVariants.GenotypeMatrix) :
  Shape.rectangular mt →
  RareVariants.burden_mt (RareVariants.mt_step2 genes phenos mt)
  = Hl.group_rows_by_aggregate RareVariants.gene_name RareVariants.n_variants
      (RareVariants.mt_step2 genes phenos mt).
Proof.
  intros Hrect. unfold RareVariants.burden_mt.
  set (g := Hl.group_rows_by_aggregate _ _ _).
  assert (Hl.mt_rows (Hl.filter_rows RareVariants.some_variant true g)
          = Hl.mt_rows g) as Hrows.
  { unfold Hl.filter_rows. cbn -[g]. apply List_filter_all.
    intros [k es] Hrow. apply bool_decide_eq_true. cbn.
    eapply grouped_row_has_carrier; [|apply mt_step2_ok|exact Hrow].
    by apply rectangular_mt_step2. }
  unfold Hl.filter_rows in *. cbn -[g] in *. rewrite Hrows.
  by destruct g.
Qed.

Lemma burden_filter_removes_nothing_after_quality_control_witness :
  RareVariants.burden_mt
    (RareVariants.mt_step2 Examples.gene_intervals ∅ Examples.one_carrier)
  = Hl.group_rows_by_aggregate RareVariants.gene_name RareVariants.n_variants
      (RareVariants.mt_step2 Examples.gene_intervals ∅ Examples.one_carrier).
Proof.
  apply (burden_filter_removes_nothing_after_quality_control
           Examples.gene_intervals ∅ Examples.one_carrier).
  repeat constructor.
Defined.

(** ** Exercise 2: the weighted burden cell *)

Section WeightedBurden.
Import RareVariants.

Lemma column_records_filter {R E} (p : R → bool) (rs : list (R * list E))
    (j : nat) :
  List.filter (λ re, p re.1) (Hl.column_records rs j)
  = Hl.column_records (List.filter (λ re, p re.1) rs) j.
Proof.
  unfold Hl.column_records.
  induction rs as [|[r es] rs IH]; cbn; [done|].
  destruct (es !! j) as [e|] eqn:He; cbn; destruct (p r) eqn:Hp; cbn;
    rewrite ?He; cbn; rewrite ?Hp, ?IH; done.
Qed.

Lemma weighted_has_alt_spec (r : variant) (e : entry) :
  weighted_has_alt r e
  = if Shape.positive_weight2 r then has_alt e
    else match weight2 r, GT e with
         | Some _, Some _ => Some false
         | _, _ => None
         end.
Proof.
  unfold weighted_has_alt, Shape.positive_weight2, has_alt, Hl.float_gt,
    Hl.float_lt, Hl.float_mul, Hl.int_gt.
  destruct (weight2 r) as [w|]; [|done].
  destruct (GT e) as [c|]; cbn; [|by destruct (Hl.Qltb 0 w)].
  pose proof (n_alt_alleles_range c) as Hc.
  assert (0 <= inject_Z (Hl.n_alt_alleles c)) as Hq.
  { change 0 with (inject_Z 0). rewrite <- Zle_Qle. lia. }
  destruct (Hl.Qltb 0 w) eqn:Hw; f_equal.
  - apply Qltb_true_iff in Hw. apply eq_true_iff_eq.
    rewrite Qltb_true_iff, bool_decide_eq_true. split.
    + intros Hm. destruct (decide (0 < Hl.n_alt_alleles c)%Z); [done|].
      assert (Hl.n_alt_alleles c = 0%Z) as Hz by lia.
      rewrite Hz in Hm. change (inject_Z 0) with 0 in Hm. lra.
    + intros Hn. apply Qmult_lt_0_compat; [done|].
      change 0 with (inject_Z 0). by rewrite <- Zlt_Qlt.
  - apply not_true_iff_false. rewrite Qltb_true_iff. intros Hm.
    apply not_true_iff_false in Hw. apply Hw, Qltb_true_iff.
    destruct (Qlt_le_dec 0 w) as [|Hle]; [done|]. exfalso. nra.
Qed.

Lemma weighted_n_variants_spec (recs : list (variant * entry)) :
  weighted_n_variants recs
  = n_variants (List.filter (λ re, Shape.positive_weight2 re.1) recs).
Proof.
  unfold weighted_n_variants, n_variants.
  induction recs as [|[r e] recs IH]; [done|].
  cbn [map List.filter fst snd]. rewrite weighted_has_alt_spec.
  destruct (Shape.positive_weight2 r); cbn [map fst snd].
  - destruct (has_alt e) as [[]|]; cbn [Hl.agg_count_where]; by rewrite IH.
  - rewrite <- IH. by destruct (weight2 r), (GT e).
Qed.

End WeightedBurden.

(** X5.  The weighted burden cell counts carriers too: the value of
    [xx.n_variants] for a gene and a sample is the number of variants of
    the gene with a positive [weight2] at which the sample carries an
    alternate allele.  A variant whose [weight2] is missing, zero or
    negative is not counted, and the size of a positive weight has no
    effect: when every variant of the gene has a positive weight the
    value is the unweighted count of [burden_mt]. *)
Theorem weighted_burden_counts_carriers (mt : RareVariants.GenotypeMatrix)
    (g : option string) (es : list Z) (i : nat) (x : Z) :
  In (g, es) (Hl.mt_rows (RareVariants.xx mt)) →
  es !! i = Some x →
  x = RareVariants.carrier_count
        (List.filter (λ re, Shape.positive_weight2 re.1)
           (RareVariants.gene_rows mt g)) i
  ∧ (Forall (λ re, Shape.positive_weight2 re.1 = true)
       (RareVariants.gene_rows mt g) →
     x = RareVariants.carrier_count (RareVariants.gene_rows mt g) i).
Proof.
  intros Hrow Hi. apply filter_rows_In in Hrow as [Hrow _].
  rewrite (group_rows_by_aggregate_entry _ _ _ _ _ _ _ Hrow Hi).
  rewrite weighted_n_variants_spec, column_records_filter,
    n_variants_carrier_count.
  split; [done|]. intros Hall. f_equal. apply List_filter_all.
  intros re Hre. rewrite Forall_forall in Hall.
  by apply Hall, list_elem_of_In.
Qed.

Lemma weighted_burden_counts_carriers_witness :
  In (Some "MREG"%string, 1%Z :: replicate 100 0%Z)
     (Hl.mt_rows
        (RareVariants.xx
           (RareVariants.mt_exercise2 ∅ Examples.gene_intervals ∅
              Examples.one_carrier)))
  ∧ 1%Z = RareVariants.carrier_count
            (List.filter (λ re, Shape.positive_weight2 re.1)
               (RareVariants.gene_rows
                  (RareVariants.mt_exercise2 ∅ Examples.gene_intervals ∅
                     Examples.one_carrier)
                  (Some "MREG"%string))) 0.
Proof.
  assert (In (Some "MREG"%string, 1%Z :: replicate 100 0%Z)
            (Hl.mt_rows
               (RareVariants.xx
                  (RareVariants.mt_exercise2 ∅ Examples.gene_intervals ∅
                     Examples.one_carrier)))) as Hrow.
  { vm_compute. left. reflexivity. }
  split; [exact Hrow|].
  exact (proj1 (weighted_burden_counts_carriers _ _ _ 0 1%Z Hrow eq_refl)).
Defined.

Section GroupingOfAnnotatedRows.
Context {R R' C E K A : Type} `{EqDecision K}.

Lemma List_filter_map {X Y} (h : X → Y) (p : Y → bool) (l : list X) :
  List.filter p (map h l) = map h (List.filter (λ x, p (h x)) l).
Proof.
  induction l as [|x l IH]; cbn; [done|].
  destruct (p (h x)); cbn; by rewrite IH.
Qed.

Lemma column_records_map (h : R → R') (rs : list (R * list E)) (j : nat) :
  Hl.column_records (map (λ re, (h re.1, re.2)) rs) j
  = map (λ re, (h re.1, re.2)) (Hl.column_records rs j).
Proof.
  unfold Hl.column_records.
  induction rs as [|[r es] rs IH]; cbn; [done|].
  destruct (es !! j) as [e|]; cbn; by rewrite IH.
Qed.

Lemma group_rows_by_aggregate_ext (key key' : R → K)
    (agg agg' : list (R * E) → A) (mt : Hl.MatrixTable R C E) :
  (∀ r, key r = key' r) → (∀ recs, agg recs = agg' recs) →
  Hl.group_rows_by_aggregate key agg mt
  = Hl.group_rows_by_aggregate key' agg' mt.
Proof.
  intros Hkey Hagg. unfold Hl.group_rows_by_aggregate. f_equal.
  rewrite (map_ext (λ re, key re.1) (λ re, key' re.1)) by (intros; apply Hkey).
  apply map_ext. intros k. f_equal. apply imap_ext. intros j c _.
  rewrite Hagg. do 2 f_equal. apply List.filter_ext. intros re.
  by rewrite Hkey.
Qed.

Lemma group_rows_by_aggregate_annotate_rows (h : R → R') (key : R' → K)
    (agg : list (R' * E) → A) (mt : Hl.MatrixTable R C E) :
  Hl.group_rows_by_aggregate key agg (Hl.annotate_rows (λ r _, h r) mt)
  = Hl.group_rows_by_aggregate (λ r, key (h r))
      (λ recs, agg (map (λ re, (h re.1, re.2)) recs)) mt.
Proof.
  unfold Hl.group_rows_by_aggregate, Hl.annotate_rows. cbn. f_equal.
  rewrite map_map. cbn. apply map_ext. intros k. f_equal.
  apply imap_ext. intros j c _. f_equal.
  rewrite (List_filter_map (λ re, (h re.1, re.2))
             (λ re, bool_decide (key re.1 = k))).
  apply column_records_map.
Qed.

End GroupingOfAnnotatedRows.

Section UnusedWeights.
Import RareVariants.

Lemma weighted_n_variants_reads_weight2 (h h' : variant → variant)
    (recs : list (variant * entry)) :
  (∀ r, weight2 (h r) = weight2 (h' r)) →
  weighted_n_variants (map (λ re, (h re.1, re.2)) recs)
  = weighted_n_variants (map (λ re, (h' re.1, re.2)) recs).
Proof.
  intros Hw. unfold weighted_n_variants. rewrite !map_map. cbn.
  f_equal. apply map_ext. intros [r e]. cbn.
  unfold weighted_has_alt. by rewrite Hw.
Qed.

Lemma xx_reads_gene_name_and_weight2 (h h' : variant → variant)
    (mt : GenotypeMatrix) :
  (∀ r, gene_name (h r) = gene_name (h' r)) →
  (∀ r, weight2 (h r) = weight2 (h' r)) →
  xx (Hl.annotate_rows (λ r _, h r) mt)
  = xx (Hl.annotate_rows (λ r _, h' r) mt).
Proof.
  intros Hg Hw. unfold xx.
  rewrite !group_rows_by_aggregate_annotate_rows. f_equal.
  apply group_rows_by_aggregate_ext; [done|]. intros recs.
  by apply weighted_n_variants_reads_weight2.
Qed.

Lemma annotate_pca_idemp {R E} pca_scores (mt : Hl.MatrixTable R sample E) :
  annotate_pca pca_scores (annotate_pca pca_scores mt)
  = annotate_pca pca_scores mt.
Proof.
  unfold annotate_pca, Hl.annotate_cols. cbn. f_equal.
  rewrite map_map. by apply map_ext.
Qed.

Lemma skat_input_reads_no_burden_weight pca_scores (h : variant → variant)
    (mt : GenotypeMatrix) :
  (∀ r, gene_name (h r) = gene_name r) →
  skat_input (skat_mt pca_scores (Hl.annotate_rows (λ r _, h r) mt))
  = skat_input (skat_mt pca_scores mt).
Proof.
  intros Hg. unfold skat_input, skat_mt, annotate_weight, variant_qc,
    annotate_pca, Hl.annotate_rows, Hl.annotate_cols. cbn. f_equal.
  rewrite !map_map. cbn. apply map_ext. intros [r es]. cbn.
  by rewrite Hg.
Qed.

End UnusedWeights.

(** X6.  [weight1] is annotated and never read: whatever values the
    [hl.case()] of the Exercise 2 cell gave it, the weighted aggregation
    [xx] would be the same.  And [hl.skat] reads neither [weight1] nor
    [weight2]: the arguments it receives are those it would receive from
    [mt] as Step 2 left it. *)
Theorem weight1_is_never_read (w1 : RareVariants.variant → option Z)
    (pca_scores : gmap string (list Q))
    (genes : list RareVariants.gene_row)
    (phenos : gmap string RareVariants.pheno_row)
    (mt : RareVariants.GenotypeMatrix) (sc : list (list Q)) :
  RareVariants.xx
    (RareVariants.annotate_pca pca_scores
       (Hl.annotate_rows
          (λ r _, RareVariants.set_weights (w1 r) (RareVariants.cadd_phred r) r)
          mt))
  = RareVariants.xx
      (RareVariants.annotate_pca pca_scores (RareVariants.annotate_weights mt))
  ∧ RareVariants.skat_test_input genes phenos mt sc
    = RareVariants.skat_input
        (RareVariants.skat_mt
           (RareVariants.pca_table (RareVariants.mt_step2 genes phenos mt) sc)
           (RareVariants.mt_step2 genes phenos mt)).
Proof.
  split.
  - apply (xx_reads_gene_name_and_weight2
             (λ r, RareVariants.set_weights (w1 r) (RareVariants.cadd_phred r) r)
             (λ r, RareVariants.set_weights
                     (RareVariants.weight1_case
                        (RareVariants.most_severe_consequence r))
                     (RareVariants.cadd_phred r) r)
             (RareVariants.annotate_pca pca_scores mt)); done.
  - unfold RareVariants.skat_test_input, RareVariants.mt_exercise2.
    set (p := RareVariants.pca_table _ _).
    set (m := RareVariants.mt_step2 _ _ _).
    transitivity
      (RareVariants.skat_input
         (RareVariants.skat_mt p
            (RareVariants.annotate_weights
               (RareVariants.annotate_pca p (RareVariants.annotate_pca p m)))));
      [done|].
    rewrite annotate_pca_idemp. unfold RareVariants.annotate_weights.
    rewrite skat_input_reads_no_burden_weight by done.
    unfold RareVariants.skat_mt. by rewrite annotate_pca_idemp.
Qed.

(** ** Step 2: gene names *)

Section GeneNames.
Import RareVariants.

Lemma genes_index_Some genes l g :
  genes_index genes l = Some g →
  ∃ gr, In gr genes ∧ interval_contains gr l = true ∧ gene gr = Some g.
Proof.
  unfold genes_index.
  destruct (List.find _ genes) as [gr|] eqn:Hfind; [|done].
  intros Hg. apply List.find_some in Hfind as [Hin Hc]. by exists gr.
Qed.

Lemma genes_index_outside genes l :
  Forall (λ gr, interval_contains gr l = false) genes →
  genes_index genes l = None.
Proof.
  intros Hall. unfold genes_index.
  destruct (List.find _ genes) as [gr|] eqn:Hfind; [|done].
  apply List.find_some in Hfind as [Hin Hc].
  rewrite Forall_forall in Hall.
  by rewrite (Hall gr) in Hc by by apply list_elem_of_In.
Qed.

Lemma mt_step2_rows genes phenos mt re :
  In re (Hl.mt_rows (mt_step2 genes phenos mt)) →
  ∃ r, In (r, re.2) (Hl.mt_rows (quality_control mt))
       ∧ re.1 = set_gene_name (genes_index genes (locus r)) r.
Proof.
  unfold mt_step2, annotate_phenos, annotate_gene_name, Hl.annotate_cols.
  cbn -[quality_control]. intros ([r es] & <- & Hin)%in_map_iff.
  by exists r.
Qed.

End GeneNames.

(** X7.  Every gene name that keys a row of [burden_mt] is the name
    that [resources/genes.ht] gives an interval holding the locus of a
    variant that passed Step 1; and a variant whose locus lies in no
    interval of the table gets a missing [gene_name]. *)
Theorem burden_genes_come_from_the_gene_table
    (genes : list RareVariants.gene_row)
    (phenos : gmap string RareVariants.pheno_row)
    (mt : RareVariants.GenotypeMatrix) :
  (∀ g es,
     In (Some g, es)
        (Hl.mt_rows
           (RareVariants.burden_mt (RareVariants.mt_step2 genes phenos mt))) →
     ∃ gr r res,
       In gr genes ∧ RareVariants.gene gr = Some g
       ∧ In (r, res) (Hl.mt_rows (RareVariants.quality_control mt))
       ∧ RareVariants.interval_contains gr (RareVariants.locus r) = true)
  ∧ ∀ r es,
      In (r, es) (Hl.mt_rows (RareVariants.mt_step2 genes phenos mt)) →
      Forall (λ gr, RareVariants.interval_contains gr (RareVariants.locus r)
                    = false) genes →
      RareVariants.gene_name r = None.
Proof.
  split.
  - intros g es Hrow. apply filter_rows_In in Hrow as [Hrow _].
    apply group_rows_by_aggregate_key_In in Hrow as (re & Hre & Hkey).
    apply mt_step2_rows in Hre as (r & Hr & Hre).
    rewrite Hre in Hkey. cbn in Hkey.
    apply genes_index_Some in Hkey as (gr & Hgr & Hc & Hg).
    by exists gr, r, re.2.
  - intros r es Hre Hall.
    apply mt_step2_rows in Hre as (r0 & Hr0 & Hre). cbn in Hre.
    rewrite Hre. cbn. rewrite Hre in Hall. cbn in Hall.
    by apply genes_index_outside.
Qed.

(** ** Notebook 03: the true relatedness [get_rel] *)

Section GetRelFacts.
Import Relatedness.

Lemma get_rel_case_defined rel (s1 s2 : Z) :
  get_rel_case rel (Some s1) (Some s2)
  = Some (if decide (s1 = s2) then 1 # 2
          else rel_entry rel (Z.max s1 s2) (Z.min s1 s2)).
Proof.
  destruct (decide (s1 = s2)) as [->|Hne]; [apply get_rel_case_eq|].
  destruct (Z.lt_total s1 s2) as [Hlt|[Heq|Hgt]]; [|done|].
  - rewrite (get_rel_case_lt rel s1 s2 Hlt), Z.max_r, Z.min_l by lia. done.
  - rewrite (get_rel_case_gt rel s1 s2 Hgt), Z.max_l, Z.min_r by lia. done.
Qed.

End GetRelFacts.

(** X8.  [get_rel] is missing exactly when one of the two indices or the
    jitter is missing: an index that the relatedness graph does not hold,
    or a pair it has no entry for, never makes the result missing (the
    [hl.coalesce] turns it into [0.0]). *)
Theorem get_rel_is_missing_only_on_missing_arguments
    (rel : Relatedness.relatedness) (s1 s2 : option Z) (z : option Q) :
  is_Some (Relatedness.get_rel rel s1 s2 z)
  ↔ is_Some s1 ∧ is_Some s2 ∧ is_Some z.
Proof.
  unfold Relatedness.get_rel.
  destruct s1 as [a|], s2 as [b|];
    [rewrite get_rel_case_defined|..]; destruct z as [q|]; cbn;
    (split;
     [intros [x Hx]; try discriminate Hx; repeat split; eexists; reflexivity
     |intros ([x Hx] & [y Hy] & [q' Hq]); try discriminate; eexists;
      reflexivity]).
Qed.

(** X9.  [get_rel] reads the relatedness graph below its diagonal only:
    two graphs with the same entries [rel[a][b]] for [a > b] give the same
    value for every pair, whatever they hold for [a <= b]. *)
Theorem get_rel_reads_the_lower_triangle (rel rel' : Relatedness.relatedness)
    (s1 s2 : option Z) (z : option Q) :
  (∀ a b : Z, (b < a)%Z →
     Relatedness.rel_entry rel a b = Relatedness.rel_entry rel' a b) →
  Relatedness.get_rel rel s1 s2 z = Relatedness.get_rel rel' s1 s2 z.
Proof.
  intros Hlow. unfold Relatedness.get_rel. f_equal.
  destruct s1 as [a|], s2 as [b|]; [|done..].
  rewrite !get_rel_case_defined. destruct (decide (a = b)); [done|].
  f_equal. apply Hlow. lia.
Qed.

Lemma get_rel_reads_the_lower_triangle_witness :
  Relatedness.get_rel ∅ (Some 2%Z) (Some 5%Z) (Some 0)
  = Relatedness.get_rel {[ 2%Z := {[ 5%Z := 9 # 10 ]} ]}
      (Some 2%Z) (Some 5%Z) (Some 0).
Proof.
  apply get_rel_reads_the_lower_triangle. intros a b Hlt.
  unfold Relatedness.rel_entry. rewrite lookup_empty.
  destruct (decide (a = 2%Z)) as [->|Hne].
  - rewrite lookup_singleton_eq. cbn.
    rewrite lookup_singleton_ne by lia. reflexivity.
  - rewrite lookup_singleton_ne by done. reflexivity.
Defined.

(** ** Notebook 03: the KING cells *)

(** X10.  [king.filter(king.sample_idx != king.sample_idx_1)] keeps, in
    their order, exactly the rows whose two indices are defined and
    differ; so no point of the KING plot is a self-comparison, and its
    abscissa is never the [0.5] of [get_rel]'s first branch but the graph
    entry [rel[max][min]] (or [0.0]) plus the jitter. *)
Theorem king_plot_has_no_self_comparison (rel : Relatedness.relatedness)
    (king : list Relatedness.pair_row) :
  sublist (Relatedness.remove_self_comparisons king) king
  ∧ (∀ r, In r (Relatedness.remove_self_comparisons king)
          ↔ In r king
            ∧ ∃ a b, Relatedness.i r = Some a ∧ Relatedness.j r = Some b
                     ∧ a ≠ b)
  ∧ ∀ r z, In r (Relatedness.remove_self_comparisons king) →
      ∃ a b, Relatedness.i r = Some a ∧ Relatedness.j r = Some b
        ∧ Relatedness.get_rel rel (Relatedness.i r) (Relatedness.j r) (Some z)
          = Some (Relatedness.rel_entry rel (Z.max a b) (Z.min a b) + z).
Proof.
  assert (∀ r, In r (Relatedness.remove_self_comparisons king)
               ↔ In r king
                 ∧ ∃ a b, Relatedness.i r = Some a ∧ Relatedness.j r = Some b
                          ∧ a ≠ b) as Hin.
  { intros r. unfold Relatedness.remove_self_comparisons.
    rewrite List.filter_In, bool_decide_eq_true. apply and_iff_compat_l.
    unfold Hl.int_ne.
    destruct (Relatedness.i r) as [a|], (Relatedness.j r) as [b|]; cbn.
    - split.
      + intros [= Hd]. exists a, b. apply negb_true_iff in Hd.
        by apply bool_decide_eq_false in Hd.
      + intros (a' & b' & [= <-] & [= <-] & Hne). f_equal.
        by apply negb_true_iff, bool_decide_eq_false.
    - split; [done|]. by intros (? & ? & _ & [=] & _).
    - split; [done|]. by intros (? & ? & [=] & _).
    - split; [done|]. by intros (? & ? & [=] & _). }
  split; [apply List_filter_sublist|]. split; [exact Hin|].
  intros r z (_ & a & b & Ha & Hb & Hne)%Hin. exists a, b.
  split; [done|]. split; [done|]. rewrite Ha, Hb.
  unfold Relatedness.get_rel. rewrite get_rel_case_defined.
  by rewrite decide_False by done.
Qed.

(** ** Notebook 03: sample indices *)

Section SampleIndex.
Import Relatedness.

Lemma find_indexed (F : nat → sample → sample) (l : list sample) (n : nat) :
  (∀ k c, sample_idx (F k c) = Some (Z.of_nat k)) →
  (∀ (k : nat) c, l !! k = Some c →
     List.find (λ c, bool_decide (sample_idx c = Some (Z.of_nat (n + k))))
       (imap (λ m c, F (n + m)%nat c) l)
     = Some (F (n + k)%nat c))
  ∧ ∀ z, (z < Z.of_nat n ∨ Z.of_nat (n + length l) ≤ z)%Z →
      List.find (λ c, bool_decide (sample_idx c = Some z))
        (imap (λ m c, F (n + m)%nat c) l)
      = None.
Proof.
  intros HF. revert n. induction l as [|c0 l IH]; intros n.
  { split; [done|]. intros z _. reflexivity. }
  assert (imap ((λ m c, F (n + m)%nat c) ∘ S) l
          = imap (λ m c, F (S n + m)%nat c) l) as Himap.
  { apply imap_ext. intros m c _. cbn. f_equal. lia. }
  split.
  - intros k c Hk. rewrite imap_cons, Himap. cbn [List.find].
    rewrite HF. destruct k as [|k]; cbn in Hk.
    + injection Hk as <-. rewrite Nat.add_0_r.
      by rewrite bool_decide_eq_true_2.
    + rewrite bool_decide_eq_false_2
        by (intros [= Hz]; apply Nat2Z.inj in Hz; lia).
      replace (n + S k)%nat with (S n + k)%nat by lia.
      by apply (proj1 (IH (S n))).
  - intros z Hz. rewrite imap_cons, Himap. cbn [List.find].
    rewrite HF, Nat.add_0_r.
    rewrite bool_decide_eq_false_2 by (cbn in Hz; intros [= <-]; lia).
    apply (proj2 (IH (S n))). cbn in Hz. lia.
Qed.

End SampleIndex.

(** X11.  [sample_idx = hl.int(hl.scan.count())] numbers the columns of
    [mt] by position, from [0]; looking a position up in
    [mt.key_cols_by('sample_idx')] gives back the sample data joined to
    the column at that position (a round trip), while a missing index or
    one outside [0 .. n-1] finds nothing.  So a column of [mt1] whose
    index is no founder's gets missing [continental_pop] and
    [population]. *)
Theorem sample_idx_is_the_column_position
    (sd : gmap string Relatedness.sample_data_row)
    (mt mt1 : Relatedness.RelMatrix) :
  (∀ (k : nat) c, Hl.mt_cols mt !! k = Some c →
     Hl.mt_cols (Relatedness.annotate_sample_idx sd mt) !! k
     = Some (Relatedness.MkSample (Relatedness.s c) (Some (Z.of_nat k))
               (sd !! Relatedness.s c) (Relatedness.continental_pop c)
               (Relatedness.population c))
     ∧ Relatedness.founder_data (Relatedness.annotate_sample_idx sd mt)
         (Some (Z.of_nat k))
       = sd !! Relatedness.s c)
  ∧ (∀ z, (z < 0 ∨ Z.of_nat (length (Hl.mt_cols mt)) ≤ z)%Z →
       Relatedness.founder_data (Relatedness.annotate_sample_idx sd mt)
         (Some z) = None)
  ∧ Relatedness.founder_data (Relatedness.annotate_sample_idx sd mt) None
    = None
  ∧ ∀ (j : nat) c1 d, Hl.mt_cols mt1 !! j = Some c1 →
      Relatedness.founder_data (Relatedness.annotate_sample_idx sd mt)
        (Relatedness.sample_idx c1) = d →
      Hl.mt_cols
        (Relatedness.annotate_founder_data
           (Relatedness.annotate_sample_idx sd mt) mt1) !! j
      = Some (Relatedness.MkSample (Relatedness.s c1)
                (Relatedness.sample_idx c1) (Relatedness.sample_data c1)
                (d ≫= Relatedness.sd_continental_pop)
                (d ≫= Relatedness.sd_population)).
Proof.
  set (F := λ (k : nat) c,
    Relatedness.MkSample (Relatedness.s c) (Some (Z.of_nat k))
      (sd !! Relatedness.s c) (Relatedness.continental_pop c)
      (Relatedness.population c)).
  destruct (find_indexed F (Hl.mt_cols mt) 0 (λ _ _, eq_refl))
    as [Hfound Hnone].
  unfold F in *. clear F. cbn in Hfound, Hnone.
  split; [|split; [|split; [done|]]].
  - intros k c Hk. split.
    + unfold Relatedness.annotate_sample_idx. cbn.
      by rewrite list_lookup_imap, Hk.
    + unfold Relatedness.founder_data, Relatedness.annotate_sample_idx. cbn.
      by rewrite (Hfound k c Hk).
  - intros z Hz. unfold Relatedness.founder_data,
      Relatedness.annotate_sample_idx. cbn.
    by rewrite Hnone by lia.
  - intros j c1 d Hj <-. unfold Relatedness.annotate_founder_data,
      Hl.annotate_cols. cbn -[Relatedness.founder_data].
    change (map ?f ?l) with (f <$> l).
    by rewrite list_lookup_fmap, Hj.
Qed.

Section KingEntries.
Import Relatedness Notebook03.

Lemma List_filter_concat {X} (f : X → bool) (ls : list (list X)) :
  List.filter f (concat ls) = concat (map (List.filter f) ls).
Proof.
  induction ls as [|l ls IH]; cbn; [done|].
  by rewrite List.filter_app, IH.
Qed.

Lemma list_sum_constant (ls : list nat) (m : nat) :
  Forall (λ x, x = m) ls → list_sum ls = (length ls * m)%nat.
Proof.
  induction 1 as [|x ls -> _ IH]; [done|].
  change (list_sum (m :: ls)) with (m + list_sum ls)%nat.
  rewrite IH. cbn. lia.
Qed.

Lemma length_filter_imap {X Y} (g : nat → X → Y) (p : Y → bool)
    (q : X → bool) (l : list X) :
  (∀ b x, x ∈ l → p (g b x) = q x) →
  length (List.filter p (imap g l)) = length (List.filter q l).
Proof.
  revert g. induction l as [|x l IH]; intros g Hpq; [done|].
  rewrite imap_cons. cbn. rewrite Hpq by apply list_elem_of_here.
  assert (length (List.filter p (imap (g ∘ S) l))
          = length (List.filter q l)) as Hl.
  { apply IH. intros b y Hy. apply Hpq. by apply list_elem_of_further. }
  destruct (q x); cbn; by rewrite Hl.
Qed.

Lemma length_filter_others (cols : list sample) (ca : sample) :
  NoDup (map sample_idx cols) → ca ∈ cols →
  length (List.filter
            (λ cb, negb (bool_decide (sample_idx cb = sample_idx ca))) cols)
  = (length cols - 1)%nat.
Proof.
  induction cols as [|c cols IH]; cbn; [by intros _ ?%elem_of_nil|].
  intros [Hc Hnd]%NoDup_cons Hin.
  destruct (decide (sample_idx c = sample_idx ca)) as [Heq|Hne].
  - rewrite bool_decide_eq_true_2 by done. cbn. rewrite Nat.sub_0_r.
    rewrite List_filter_all; [done|]. intros cb Hcb.
    apply negb_true_iff, bool_decide_eq_false. intros Hcb'.
    apply Hc. rewrite Heq, <- Hcb'. apply list_elem_of_In.
    by apply in_map.
  - rewrite bool_decide_eq_false_2 by done. cbn.
    apply elem_of_cons in Hin as [->|Hin]; [done|].
    rewrite IH by done. destruct cols; [by apply elem_of_nil in Hin|].
    cbn. lia.
Qed.

Lemma king_entries_length cols phi :
  length (king_entries cols phi) = (length cols * length cols)%nat.
Proof.
  unfold king_entries. rewrite length_concat.
  rewrite list_sum_constant with (m := length cols);
    [by rewrite length_map, length_imap|].
  apply Forall_forall. intros n Hn.
  apply list_elem_of_In, in_map_iff in Hn as (l & <- & Hl).
  apply list_elem_of_In, elem_of_lookup_imap_1 in Hl as (a & ca & -> & _).
  apply length_imap.
Qed.

Lemma king_pairs_length cols phi :
  NoDup (map sample_idx cols) →
  Forall (λ c, is_Some (sample_idx c)) cols →
  length (remove_self_comparisons (king_entries cols phi))
  = (length cols * (length cols - 1))%nat.
Proof.
  intros Hnd Hdef. unfold remove_self_comparisons, king_entries.
  rewrite List_filter_concat, length_concat.
  rewrite list_sum_constant with (m := (length cols - 1)%nat);
    [by rewrite !length_map, length_imap|].
  apply Forall_forall. intros n Hn.
  apply list_elem_of_In, in_map_iff in Hn as (l & <- & Hl).
  apply in_map_iff in Hl as (l0 & <- & Hl0).
  apply list_elem_of_In, elem_of_lookup_imap_1 in Hl0
    as (a & ca & -> & Ha).
  apply list_elem_of_lookup_2 in Ha.
  rewrite Forall_forall in Hdef. destruct (Hdef ca Ha) as [ia Hia].
  rewrite (length_filter_imap _ _
             (λ cb, negb (bool_decide (sample_idx cb = sample_idx ca))));
    [by apply length_filter_others|].
  intros b cb Hcb. cbn. destruct (Hdef cb Hcb) as [ib Hib].
  rewrite Hia, Hib. cbn.
  destruct (decide (ia = ib)) as [->|Hne].
  - rewrite (bool_decide_eq_true_2 (ib = ib)) by done.
    by rewrite (bool_decide_eq_true_2 (Some ib = Some ib)) by done.
  - rewrite (bool_decide_eq_false_2 (ia = ib)) by done.
    by rewrite (bool_decide_eq_false_2 (Some ib = Some ia)) by congruence.
Qed.

End KingEntries.

(** X12.  [hl.king(mt1.GT).entries()] has one row for every ordered pair
    of columns, [n * n] rows for [n] columns; when the sample indices of
    the columns are defined and distinct, removing the self-comparisons
    leaves [n * (n - 1)] rows, the number of points of the KING plot. *)
Theorem king_plot_point_count (cols : list Relatedness.sample)
    (phi : list (list (option Q))) :
  NoDup (map Relatedness.sample_idx cols) →
  Forall (λ c, is_Some (Relatedness.sample_idx c)) cols →
  length (Notebook03.king_entries cols phi)
  = (length cols * length cols)%nat
  ∧ length (Relatedness.remove_self_comparisons
              (Notebook03.king_entries cols phi))
    = (length cols * (length cols - 1))%nat.
Proof.
  intros Hnd Hdef. split; [apply king_entries_length|].
  by apply king_pairs_length.
Qed.

Lemma annotate_sample_idx_indices
    (sd : gmap string Relatedness.sample_data_row)
    (mt : Relatedness.RelMatrix) :
  map Relatedness.sample_idx
    (Hl.mt_cols (Relatedness.annotate_sample_idx sd mt))
  = map (λ k, Some (Z.of_nat k)) (seq 0 (length (Hl.mt_cols mt))).
Proof.
  unfold Relatedness.annotate_sample_idx. cbn.
  generalize (Hl.mt_cols mt). intros l.
  change (imap ?f l) with (imap (λ n, f (0 + n)%nat) l).
  generalize 0%nat. induction l as [|c l IH]; intros n; [done|].
  rewrite imap_cons. cbn. rewrite Nat.add_0_r. f_equal.
  rewrite <- IH. f_equal. apply imap_ext. intros m x _. cbn.
  do 2 f_equal. lia.
Qed.

Lemma annotate_sample_idx_distinct
    (sd : gmap string Relatedness.sample_data_row)
    (mt : Relatedness.RelMatrix) :
  NoDup (map Relatedness.sample_idx
           (Hl.mt_cols (Relatedness.annotate_sample_idx sd mt)))
  ∧ Forall (λ c, is_Some (Relatedness.sample_idx c))
      (Hl.mt_cols (Relatedness.annotate_sample_idx sd mt)).
Proof.
  split.
  - rewrite annotate_sample_idx_indices.
    change (map ?f ?l) with (f <$> l).
    apply NoDup_fmap_2; [|apply NoDup_seq].
    intros a b [= Hab]. by apply Nat2Z.inj.
  - unfold Relatedness.annotate_sample_idx. cbn. apply Forall_forall.
    intros c (k & c0 & -> & _)%elem_of_lookup_imap_1. by eexists.
Qed.

Lemma king_plot_point_count_witness :
  length (Notebook03.king_entries
            (Hl.mt_cols (Relatedness.annotate_sample_idx
                           Examples.sample_sheet Examples.founders)) [])
  = 36%nat
  ∧ length (Relatedness.remove_self_comparisons
              (Notebook03.king_entries
                 (Hl.mt_cols (Relatedness.annotate_sample_idx
                                Examples.sample_sheet Examples.founders)) []))
    = 30%nat.
Proof.
  apply (king_plot_point_count
           (Hl.mt_cols (Relatedness.annotate_sample_idx
                          Examples.sample_sheet Examples.founders)) []);
    apply annotate_sample_idx_distinct.
Defined.

(** ** Notebook 02: the cells that explore [burden_mt] *)

Section Counting.

Lemma count_where_complement (es : list Z) :
  Hl.agg_count_where (map (λ n, Some (negb (n =? 0)%Z)) es)
  = (Z.of_nat (length es)
     - Hl.agg_count_where (map (λ n, Some (n =? 0)%Z) es))%Z.
Proof.
  induction es as [|n es IH]; [done|]. cbn [map length Hl.agg_count_where].
  destruct (n =? 0)%Z; cbn [negb]; rewrite IH; lia.
Qed.

Lemma count_where_zero_range (es : list Z) :
  (0 ≤ Hl.agg_count_where (map (λ n, Some (n =? 0)%Z) es)
   ≤ Z.of_nat (length es))%Z.
Proof.
  induction es as [|n es IH]; [done|]. cbn [map length Hl.agg_count_where].
  destruct (n =? 0)%Z; lia.
Qed.

Lemma count_where_zero_lt (es : list Z) (i : nat) x :
  es !! i = Some x → x ≠ 0%Z →
  (Hl.agg_count_where (map (λ n, Some (n =? 0)%Z) es)
   < Z.of_nat (length es))%Z.
Proof.
  revert i. induction es as [|n es IH]; intros i Hi Hx; [done|].
  cbn [map length Hl.agg_count_where].
  pose proof (count_where_zero_range es).
  destruct i as [|i]; cbn in Hi.
  - injection Hi as ->. rewrite (proj2 (Z.eqb_neq x 0)) by done. lia.
  - specialize (IH i Hi Hx). destruct (n =? 0)%Z; lia.
Qed.

(** The sizes of the classes of a list under distinct keys that cover it
    add up to its length. *)
Lemma sum_of_class_sizes {A} (same : A → A → bool) (ks l : list A) :
  (∀ a b, same a b = true ↔ a = b) →
  NoDup ks → (∀ x, x ∈ l → x ∈ ks) →
  foldr Z.add 0%Z
    (map (λ a, Z.of_nat (length (List.filter (same a) l))) ks)
  = Z.of_nat (length l).
Proof.
  intros Hsame Hnd. revert l.
  assert (∀ x, x ∈ ks →
            foldr Z.add 0%Z (map (λ a, if same a x then 1 else 0)%Z ks) = 1%Z)
    as Hone.
  { intros x. induction Hnd as [|k ks Hk Hnd IH]; [by intros ?%elem_of_nil|].
    cbn. intros [->|Hx]%elem_of_cons.
    - rewrite (proj2 (Hsame k k) eq_refl).
      assert (foldr Z.add 0%Z
                (map (λ a, if same a k then 1 else 0)%Z ks) = 0%Z) as ->; [|done].
      clear IH Hnd. induction ks as [|a ks IH]; [done|]. cbn.
      apply not_elem_of_cons in Hk as [Hne Hk].
      destruct (same a k) eqn:Hs; [by apply Hsame in Hs|].
      by rewrite IH.
    - destruct (same k x) eqn:Hs; [apply Hsame in Hs; by subst|].
      by rewrite IH. }
  induction l as [|x l IH]; intros Hcover.
  - clear. induction ks as [|k ks IHk]; [done|]. cbn in *. by rewrite IHk.
  - transitivity
      (foldr Z.add 0%Z
         (map (λ a, Z.of_nat (length (List.filter (same a) l))) ks)
       + foldr Z.add 0%Z (map (λ a, if same a x then 1 else 0) ks))%Z.
    + clear. induction ks as [|k ks IHk]; [done|]. cbn [map foldr].
      rewrite IHk. cbn [List.filter]. destruct (same k x); cbn [length]; lia.
    + rewrite IH by (intros y Hy; apply Hcover; by apply list_elem_of_further).
      rewrite Hone by apply Hcover, list_elem_of_here. cbn [length]. lia.
Qed.

Lemma agg_counter_total {A} `{EqDecision A} (l : list A) :
  foldr Z.add 0%Z (map snd (Hl.agg_counter l)) = Z.of_nat (length l).
Proof.
  unfold Hl.agg_counter. rewrite map_map. cbn.
  apply (sum_of_class_sizes (λ a b, bool_decide (b = a))).
  - intros a b. rewrite bool_decide_eq_true. split; congruence.
  - apply NoDup_remove_dups.
  - intros x Hx. by apply elem_of_remove_dups.
Qed.

End Counting.

Section Histogram.

Lemma Zpos_of_nat (n : nat) : n ≠ 0%nat → Z.pos (Pos.of_nat n) = Z.of_nat n.
Proof.
  intros Hn. rewrite <- (Nat2Pos.id n) at 2 by done.
  by rewrite positive_nat_Z.
Qed.

Lemma hist_bin_lt (bins : nat) (x : Q) :
  (0 < bins)%nat → (Hl.hist_bin bins x < bins)%nat.
Proof. unfold Hl.hist_bin. lia. Qed.

Lemma agg_hist_length (bins : nat) l : length (Hl.agg_hist bins l) = bins.
Proof. unfold Hl.agg_hist. by rewrite length_map, length_seq. Qed.

Lemma agg_hist_total (bins : nat) (l : list (option Q)) :
  (0 < bins)%nat →
  Forall (λ o, ∃ x, o = Some x ∧ 0 <= x ∧ x <= 1) l →
  foldr Z.add 0%Z (Hl.agg_hist bins l) = Z.of_nat (length l).
Proof.
  intros Hbins Hall. unfold Hl.agg_hist.
  set (inside := omap _ l).
  assert (length inside = length l ∧ ∀ b, b ∈ inside → (b < bins)%nat)
    as [Hlen Hlt].
  { subst inside. induction Hall as [|o l (x & -> & H0 & H1) Hall IH];
      [split; [done|by intros b ?%elem_of_nil]|].
    cbn. apply Qle_bool_iff in H0, H1. rewrite H0, H1. cbn.
    destruct IH as [IHlen IHlt]. split; [by rewrite IHlen|].
    intros b [->|Hb]%elem_of_cons; [by apply hist_bin_lt|by apply IHlt]. }
  rewrite <- Hlen. apply (sum_of_class_sizes Nat.eqb).
  - intros a b. apply Nat.eqb_eq.
  - apply NoDup_seq.
  - intros b Hb. apply elem_of_seq. specialize (Hlt b Hb). lia.
Qed.

Lemma fraction_zero_range (es : list Z) :
  es ≠ [] →
  ∃ x, Hl.agg_fraction (map (λ n, Some (n =? 0)%Z) es) = Some x
       ∧ 0 <= x ∧ x <= 1.
Proof.
  intros Hes. destruct es as [|n es]; [done|].
  eexists. split; [reflexivity|].
  pose proof (count_where_zero_range (n :: es)) as Hr.
  rewrite length_map. unfold Qle. cbn [Qnum Qden].
  rewrite Zpos_of_nat by done. lia.
Qed.

End Histogram.

Section ExploreCells.
Import Session RareVariants.

Lemma as_grouped_run r w m :
  objs w !! r = Some (OGrouped m) → as_grouped r w = inr (m, w).
Proof. intros Hr. unfold as_grouped, deref, mbind, M_bind. by rewrite Hr. Qed.

Lemma burden_mt_row_nonempty mt g es :
  In (g, es) (Hl.mt_rows (burden_mt mt)) →
  es ≠ [] ∧ ∃ (i : nat) x, es !! i = Some x ∧ x ≠ 0%Z.
Proof.
  intros Hrow.
  destruct (burden_mt_row_has_carrier mt g es Hrow) as (i & x & Hi & Hx).
  split; [by intros ->|]. exists i, x. split; [done|lia].
Qed.

End ExploreCells.

(** X13.  On [burden_mt], the cell that histograms [frac_zero] prints
    twenty bin counts that add up to the number of genes: every gene has a
    defined fraction of zero counts, between [0] and [1]. *)
Theorem histogram_zero_counts_every_gene (mt : RareVariants.GenotypeMatrix)
    (r : nat) (w : Session.world) :
  Session.objs w !! r = Some (Session.OGrouped (RareVariants.burden_mt mt)) →
  ∃ w' h,
    Notebook02.histogram_zero r w = inr ((), w')
    ∧ Session.screen w' = Session.screen w ++ [Session.Histogram h]
    ∧ length h = 20%nat
    ∧ foldr Z.add 0%Z h
      = Z.of_nat (length (Hl.mt_rows (RareVariants.burden_mt mt))).
Proof.
  intros Hr. unfold Notebook02.histogram_zero.
  rewrite (bind_returns _ _ _ _ _ (as_grouped_run _ _ _ Hr)).
  eexists _, _. split; [reflexivity|].
  cbn -[RareVariants.burden_mt Hl.agg_hist].
  split; [reflexivity|]. split; [apply agg_hist_length|].
  rewrite agg_hist_total; [by rewrite !length_map|lia|].
  rewrite map_map. cbn -[RareVariants.burden_mt]. apply Forall_forall.
  intros o Ho. apply list_elem_of_In, in_map_iff in Ho as ([g es] & <- & Hrow).
  cbn. apply fraction_zero_range. by eapply burden_mt_row_nonempty.
Qed.

Lemma histogram_zero_counts_every_gene_witness :
  ∃ w' h,
    Notebook02.histogram_zero 0
      (Session.MkWorld ∅ (λ _, 0) 0
         [Session.OGrouped
            (RareVariants.burden_mt
               (RareVariants.mt_step2 Examples.gene_intervals ∅
                  Examples.one_carrier))] [] [] [])
    = inr ((), w')
    ∧ Session.screen w' = [Session.Histogram h]
    ∧ length h = 20%nat
    ∧ foldr Z.add 0%Z h
      = Z.of_nat
          (length
             (Hl.mt_rows
                (RareVariants.burden_mt
                   (RareVariants.mt_step2 Examples.gene_intervals ∅
                      Examples.one_carrier)))).
Proof.
  apply (histogram_zero_counts_every_gene
           (RareVariants.mt_step2 Examples.gene_intervals ∅
              Examples.one_carrier) 0).
  reflexivity.
Defined.

(** X14.  On [burden_mt], the cell that counts [n_zero_variants] prints
    a counter whose counts add up to the number of genes, and whose keys
    (numbers of samples with a zero count) are below the number of
    samples: no gene of [burden_mt] is zero throughout. *)
Theorem counter_zero_counts_every_gene (mt : RareVariants.GenotypeMatrix)
    (r : nat) (w : Session.world) :
  Session.objs w !! r = Some (Session.OGrouped (RareVariants.burden_mt mt)) →
  ∃ w' c,
    Notebook02.counter_zero r w = inr ((), w')
    ∧ Session.screen w' = Session.screen w ++ [Session.Counter c]
    ∧ foldr Z.add 0%Z (map snd c)
      = Z.of_nat (length (Hl.mt_rows (RareVariants.burden_mt mt)))
    ∧ ∀ k n, In (k, n) c →
        (0 ≤ k < Z.of_nat (length (Hl.mt_cols mt)))%Z.
Proof.
  intros Hr. unfold Notebook02.counter_zero.
  rewrite (bind_returns _ _ _ _ _ (as_grouped_run _ _ _ Hr)).
  eexists _, _. split; [reflexivity|].
  cbn -[RareVariants.burden_mt Hl.agg_counter].
  split; [reflexivity|]. split; [by rewrite agg_counter_total, length_map|].
  intros k n Hk. unfold Hl.agg_counter in Hk.
  apply in_map_iff in Hk as (k' & [= <- _] & Hk').
  apply list_elem_of_In in Hk'. rewrite elem_of_remove_dups in Hk'.
  apply list_elem_of_In, in_map_iff in Hk' as ([g es] & <- & Hrow). cbn.
  destruct (burden_mt_row_nonempty mt g es Hrow) as [_ (i & x & Hi & Hx)].
  pose proof (count_where_zero_range es).
  pose proof (count_where_zero_lt es i x Hi Hx).
  rewrite <- (burden_mt_row_length mt g es Hrow). lia.
Qed.

Lemma counter_zero_counts_every_gene_witness :
  ∃ w' c,
    Notebook02.counter_zero 0
      (Session.MkWorld ∅ (λ _, 0) 0
         [Session.OGrouped
            (RareVariants.burden_mt
               (RareVariants.mt_step2 Examples.gene_intervals ∅
                  Examples.one_carrier))] [] [] [])
    = inr ((), w')
    ∧ Session.screen w' = [Session.Counter c]
    ∧ foldr Z.add 0%Z (map snd c)
      = Z.of_nat
          (length
             (Hl.mt_rows
                (RareVariants.burden_mt
                   (RareVariants.mt_step2 Examples.gene_intervals ∅
                      Examples.one_carrier))))
    ∧ ∀ k n, In (k, n) c → (0 ≤ k < 101)%Z.
Proof.
  apply (counter_zero_counts_every_gene
           (RareVariants.mt_step2 Examples.gene_intervals ∅
              Examples.one_carrier) 0).
  reflexivity.
Defined.

(** X15.  The bar chart of [n_zero] shows, for every gene of
    [burden_mt], [hl.agg.count_where(xx.n_variants != 0)]: the number of
    samples with a count that is not zero, that is the number of samples
    less the number of zero counts; every bar is at least [1] high. *)
Theorem n_zero_counts_the_samples_that_are_not_zero
    (mt : RareVariants.GenotypeMatrix) (r : nat) (w : Session.world) :
  Session.objs w !! r = Some (Session.OGrouped (RareVariants.burden_mt mt)) →
  ∃ w' fig,
    Notebook02.plot_n_zero r w = inr ((), w')
    ∧ Session.screen w'
      = Session.screen w ++ [Session.Shown "show" [] (Session.OFigure fig)]
    ∧ Session.fig_points fig
      = map (λ re,
          Session.MkPoint (Session.Label re.1)
            (Session.Int
               (Some (Z.of_nat (length (Hl.mt_cols mt))
                      - Hl.agg_count_where
                          (map (λ n, Some (n =? 0)%Z) re.2))%Z)) [])
          (Hl.mt_rows (RareVariants.burden_mt mt))
    ∧ Forall (λ re,
        (1 ≤ Z.of_nat (length (Hl.mt_cols mt))
             - Hl.agg_count_where (map (λ n, Some (n =? 0)%Z) re.2))%Z)
        (Hl.mt_rows (RareVariants.burden_mt mt)).
Proof.
  intros Hr. unfold Notebook02.plot_n_zero.
  rewrite (bind_returns _ _ _ _ _ (as_grouped_run _ _ _ Hr)).
  rewrite (bind_returns _ _ _ _ _ (method_run _ _ _)).
  rewrite (bind_returns _ _ _ _ _ (method_run _ _ _)).
  unfold Session.show, Session.deref, mbind, Session.M_bind.
  cbn -[RareVariants.burden_mt Hl.agg_count_where].
  rewrite list_lookup_middle by done.
  eexists _, _. split; [reflexivity|].
  cbn -[RareVariants.burden_mt Hl.agg_count_where].
  split; [reflexivity|]. split.
  - apply map_ext_in. intros [g es] Hrow. cbn [fst snd].
    rewrite count_where_complement.
    by rewrite (burden_mt_row_length mt g es Hrow).
  - apply Forall_forall. intros [g es] Hrow%list_elem_of_In. cbn [snd].
    destruct (burden_mt_row_nonempty mt g es Hrow) as [_ (i & x & Hi & Hx)].
    pose proof (count_where_zero_lt es i x Hi Hx).
    rewrite <- (burden_mt_row_length mt g es Hrow). lia.
Qed.

Lemma n_zero_counts_the_samples_that_are_not_zero_witness :
  ∃ w' fig,
    Notebook02.plot_n_zero 0
      (Session.MkWorld ∅ (λ _, 0) 0
         [Session.OGrouped
            (RareVariants.burden_mt
               (RareVariants.mt_step2 Examples.gene_intervals ∅
                  Examples.one_carrier))] [] [] [])
    = inr ((), w')
    ∧ Session.screen w'
      = [Session.Shown "show" [] (Session.OFigure fig)]
    ∧ Session.fig_points fig
      = [Session.MkPoint (Session.Label (Some "MREG"%string))
           (Session.Int (Some 1%Z)) []].
Proof.
  destruct (n_zero_counts_the_samples_that_are_not_zero
              (RareVariants.mt_step2 Examples.gene_intervals ∅
                 Examples.one_carrier) 0
              (Session.MkWorld ∅ (λ _, 0) 0
                 [Session.OGrouped
                    (RareVariants.burden_mt
                       (RareVariants.mt_step2 Examples.gene_intervals ∅
                          Examples.one_carrier))] [] [] [])
              eq_refl) as (w' & fig & Hrun & Hscreen & Hpoints & _).
  exists w', fig. split; [exact Hrun|]. split; [exact Hscreen|].
  rewrite Hpoints. vm_compute. reflexivity.
Defined.

(** ** The arguments of the tests *)

Section Consistency.
Import RareVariants.

Lemma covariates_length (l : list sample) :
  Forall (λ c, length c = 4%nat) (map covariates l).
Proof.
  apply Forall_forall. intros c Hc.
  by apply list_elem_of_In, in_map_iff in Hc as (x & <- & _).
Qed.

Lemma burden_regression_input_consistent (m : BurdenMatrix) :
  Shape.rectangular m → Shape.consistent (burden_regression_input m).
Proof.
  intros Hrect. unfold Shape.consistent, burden_regression_input. cbn.
  split; [|split; [by rewrite !length_map|apply covariates_length]].
  apply Forall_forall. intros kx Hkx.
  apply list_elem_of_In, in_map_iff in Hkx as (re & <- & Hre). cbn.
  rewrite !length_map. unfold Shape.rectangular in Hrect.
  rewrite Forall_forall in Hrect. by apply Hrect, list_elem_of_In.
Qed.

Lemma gwas_regression_input_consistent y (m : GenotypeMatrix) :
  Shape.rectangular m → Shape.consistent (gwas_regression_input y m).
Proof.
  intros Hrect. unfold Shape.consistent, gwas_regression_input. cbn.
  split; [|split; [by rewrite !length_map|apply covariates_length]].
  apply Forall_forall. intros kx Hkx.
  apply list_elem_of_In, in_map_iff in Hkx as (re & <- & Hre). cbn.
  rewrite !length_map. unfold Shape.rectangular in Hrect.
  rewrite Forall_forall in Hrect. by apply Hrect, list_elem_of_In.
Qed.

Lemma skat_input_consistent (m : GenotypeMatrix) :
  Shape.rectangular m → Shape.consistent (skat_input m).
Proof.
  intros Hrect. unfold Shape.consistent, skat_input. cbn.
  split; [|split; [by rewrite !length_map|apply covariates_length]].
  apply Forall_forall. intros kx Hkx.
  apply list_elem_of_In, in_map_iff in Hkx as (re & <- & Hre). cbn.
  rewrite !length_map. unfold Shape.rectangular in Hrect.
  rewrite Forall_forall in Hrect. by apply Hrect, list_elem_of_In.
Qed.

Lemma rectangular_group_rows_by_aggregate {R C E K A} `{EqDecision K}
    (key : R → K) (agg : list (R * E) → A) (mt : Hl.MatrixTable R C E) :
  Shape.rectangular (Hl.group_rows_by_aggregate key agg mt).
Proof.
  unfold Shape.rectangular. apply Forall_forall. intros [k es] Hrow.
  apply list_elem_of_In in Hrow. cbn [snd].
  by rewrite (group_rows_by_aggregate_length _ _ _ _ _ Hrow).
Qed.

End Consistency.

(** X16.  The four tests of notebook 02 receive arguments that fit
    together: on a matrix table with one entry per row and column, every
    row handed to the burden regression, the per-variant regression, the
    weighted burden regression and [hl.skat] gives [x] for exactly the
    samples that have a [y], and every sample has its four covariates;
    the filters and annotations of the notebook keep the table's shape. *)
Theorem tests_receive_consistent_arguments
    (genes : list RareVariants.gene_row)
    (phenos : gmap string RareVariants.pheno_row)
    (mt : RareVariants.GenotypeMatrix) (sc : list (list Q)) :
  Shape.rectangular mt →
  Shape.consistent (RareVariants.burden_test_input genes phenos mt sc)
  ∧ Shape.consistent (RareVariants.gwas_test_input genes phenos mt sc)
  ∧ Shape.consistent
      (RareVariants.weighted_burden_test_input genes phenos mt sc)
  ∧ Shape.consistent (RareVariants.skat_test_input genes phenos mt sc)
  ∧ length (RareVariants.reg_y
              (RareVariants.skat_test_input genes phenos mt sc))
    = length (Hl.mt_cols mt)
  ∧ length (RareVariants.reg_x
              (RareVariants.skat_test_input genes phenos mt sc))
    = length (Hl.mt_rows (RareVariants.quality_control mt)).
Proof.
  intros Hrect.
  pose proof (rectangular_mt_step2 genes phenos mt Hrect) as H2.
  split; [|split; [|split; [|split; [|split]]]].
  - apply burden_regression_input_consistent, rectangular_annotate_cols,
      rectangular_filter_rows, rectangular_group_rows_by_aggregate.
  - apply gwas_regression_input_consistent. by apply rectangular_annotate_cols.
  - apply burden_regression_input_consistent, rectangular_filter_rows,
      rectangular_group_rows_by_aggregate.
  - apply skat_input_consistent, rectangular_skat_mt.
    by apply rectangular_mt_exercise2.
  - cbn. by rewrite !length_map.
  - cbn. by rewrite !length_map.
Qed.

Lemma tests_receive_consistent_arguments_witness :
  Shape.consistent
    (RareVariants.burden_test_input Examples.gene_intervals ∅
       Examples.one_carrier [])
  ∧ length (RareVariants.reg_y
              (RareVariants.skat_test_input Examples.gene_intervals ∅
                 Examples.one_carrier []))
    = 101%nat.
Proof.
  destruct (tests_receive_consistent_arguments Examples.gene_intervals ∅
              Examples.one_carrier [])
    as (Hburden & _ & _ & _ & Hlen & _); [repeat constructor|].
  split; [exact Hburden|exact Hlen].
Defined.

(** ** SKAT: the weights and the reported p-values *)

Section SkatWeightRange.
Import RareVariants.

Lemma dbeta_1_25_range (af : Q) :
  0 <= af → af < 1 # 100 →
  19 < Hl.dbeta_Q af 1 25 ∧ Hl.dbeta_Q af 1 25 <= 25.
Proof.
  intros H0 H1. rewrite dbeta_1_25 by lra.
  assert ((99 # 100) ^ 24 <= (1 - af) ^ 24) as Hlow.
  { apply (Qpower_nat_le_compat (99 # 100) (1 - af) 24); lra. }
  assert ((1 - af) ^ 24 <= 1 ^ 24) as Hhigh.
  { apply (Qpower_nat_le_compat (1 - af) 1 24); lra. }
  assert (19 < 25 * (99 # 100) ^ 24) as Hc by (vm_compute; reflexivity).
  assert (1 ^ 24 == 1) as H1p by (vm_compute; reflexivity).
  rewrite H1p in Hhigh. split; lra.
Qed.

End SkatWeightRange.

(** X17.  Every weight that [hl.skat] receives is defined and lies
    between [19] and [25]: Step 1 left only variants with [AF[1]] in
    [[0, 0.01)], where the Beta(1, 25) density [25 (1 - AF)^24] is at most
    [25] and at least [25 * 0.99^24 > 19]. *)
Theorem skat_weights_lie_between_19_and_25
    (genes : list RareVariants.gene_row)
    (phenos : gmap string RareVariants.pheno_row)
    (mt : RareVariants.GenotypeMatrix) (sc : list (list Q)) :
  Forall (λ kx, ∃ w, kx.1.2 = Some w ∧ 19 < w ∧ w <= 25)
    (RareVariants.reg_x (RareVariants.skat_test_input genes phenos mt sc)).
Proof.
  apply Forall_forall. intros [[g wgt] xs] Hkx%list_elem_of_In.
  unfold RareVariants.skat_test_input in Hkx.
  set (p := RareVariants.pca_table _ _) in Hkx.
  destruct (skat_input_weight_is_beta_density p genes phenos mt g wgt xs Hkx)
    as (r & es & af & Hrow & _ & _ & _ & Haf & -> & _).
  destruct (pipeline_rows_pass_quality_control p genes phenos mt)
    as (_ & _ & _ & Hok).
  rewrite Forall_forall in Hok.
  destruct (Hok (r, es)) as (_ & (af' & Haf' & Hlt) & _);
    [by apply list_elem_of_In|].
  cbn in Haf'. rewrite Haf in Haf'. injection Haf' as <-.
  exists (Hl.dbeta_Q af 1 25). split; [done|].
  apply dbeta_1_25_range; [|done]. by eapply call_stats_AF_nonneg.
Qed.

(** X18.  The fault translation is idempotent (running the cell on its
    own result changes nothing); the p-value it leaves is missing only
    when the fault code is missing, or is [0] with a missing p-value; and
    p-values between [0] and [1] stay between [0] and [1]. *)
Theorem fault_translation_is_idempotent (r : RareVariants.skat_row) :
  RareVariants.annotate_p_value (RareVariants.annotate_p_value r)
  = RareVariants.annotate_p_value r
  ∧ (RareVariants.p_value (RareVariants.annotate_p_value r) = None
     ↔ RareVariants.fault r = None
       ∨ (RareVariants.fault r = Some 0%Z ∧ RareVariants.p_value r = None))
  ∧ ((∀ p, RareVariants.p_value r = Some p → 0 <= p ∧ p <= 1) →
     ∀ p, RareVariants.p_value (RareVariants.annotate_p_value r) = Some p →
          0 <= p ∧ p <= 1).
Proof.
  destruct r as [i n q p [f|]]; unfold RareVariants.annotate_p_value; cbn.
  - destruct (decide (f = 0%Z)) as [->|Hne].
    + cbn. split; [done|]. split; [|done]. destruct p as [p|].
      * split; [done|]. by intros [[=]|[_ [=]]].
      * split; [by right|done].
    + rewrite bool_decide_eq_false_2 by done. cbn.
      split; [done|]. split.
      * split; [done|]. by intros [[=]|[[= ->] _]].
      * intros _ p' [= <-]. split; lra.
  - split; [done|]. split; [split; [by left|done]|]. by intros _ p' [=].
Qed.

(** ** Notebook 03: the points of a relatedness plot *)

Section PlotPairs.
Import Session.


End PlotPairs.



(** ** Notebook 02: the sum of effects and their magnitude *)

Section EffectsFacts.
Import Effects.

Lemma Qabs_square (y : Q) : Qabs y * Qabs y == y * y.
Proof.
  rewrite <- Qabs_Qmult. apply Qabs_pos. nra.
Qed.

Lemma sum_of_abs_nonneg l : 0 <= sum_of_abs_of_effects l.
Proof.
  unfold sum_of_abs_of_effects. induction l as [|y l IH]; cbn; [lra|].
  pose proof (Qabs_nonneg y). lra.
Qed.

Lemma squared_magnitude_cons y l :
  squared_magnitude_of_effects (y :: l)
  = y * y + squared_magnitude_of_effects l.
Proof. reflexivity. Qed.

Lemma sum_of_abs_cons y l :
  sum_of_abs_of_effects (y :: l) = Qabs y + sum_of_abs_of_effects l.
Proof. reflexivity. Qed.

Lemma squared_magnitude_nonneg l : 0 <= squared_magnitude_of_effects l.
Proof.
  induction l as [|y l IH]; [cbn; lra|]. rewrite squared_magnitude_cons. nra.
Qed.

End EffectsFacts.

(** X20.  In the cell that contrasts a sum of effects with their
    magnitude: [effects] holds one hundred draws; [np.sum(effects)] is at
    most [np.sum(np.abs(effects))] in absolute value (effects of opposite
    sign cancel in the sum); [effects.T @ effects], whose square root the
    cell takes, is never negative, is zero only when every effect is
    zero, and is at most the square of [np.sum(np.abs(effects))]. *)
Theorem sum_of_effects_against_their_magnitude (noise : nat → Q)
    (effects : list Q) :
  length (Effects.effects noise) = 100%nat
  ∧ Qabs (Effects.sum_of_effects effects)
    <= Effects.sum_of_abs_of_effects effects
  ∧ 0 <= Effects.squared_magnitude_of_effects effects
  ∧ (Effects.squared_magnitude_of_effects effects == 0
     ↔ Forall (λ y, y == 0) effects)
  ∧ Effects.squared_magnitude_of_effects effects
    <= Effects.sum_of_abs_of_effects effects
       * Effects.sum_of_abs_of_effects effects.
Proof.
  split; [reflexivity|]. split; [|split; [apply squared_magnitude_nonneg|split]].
  - unfold Effects.sum_of_effects, Effects.sum_of_abs_of_effects.
    induction effects as [|y l IH]; cbn; [apply Qle_refl|].
    eapply Qle_trans; [apply Qabs_triangle|]. lra.
  - induction effects as [|y l IH].
    + split; [constructor|reflexivity].
    + rewrite squared_magnitude_cons.
      pose proof (squared_magnitude_nonneg l). split.
      * intros Hz. assert (y * y == 0) as Hy by nra.
        assert (Effects.squared_magnitude_of_effects l == 0) as Hl by nra.
        constructor; [|by apply IH].
        apply Qmult_integral in Hy. tauto.
      * intros [Hy Hl]%Forall_cons. apply IH in Hl. rewrite Hy, Hl. ring.
  - induction effects as [|y l IH]; [cbn; lra|].
    rewrite squared_magnitude_cons, sum_of_abs_cons.
    pose proof (sum_of_abs_nonneg l). pose proof (Qabs_nonneg y).
    pose proof (Qabs_square y). nra.
Qed.

(** ** The covariates of a sample *)

Section Scores.
Import RareVariants.

Lemma list_to_map_zip_lookup {V} (ks : list string) (vs : list V) (k : nat)
    (key : string) :
  NoDup ks → ks !! k = Some key →
  (list_to_map (zip ks vs) : gmap string V) !! key = vs !! k.
Proof.
  intros Hnd. revert vs k.
  induction Hnd as [|a ks Ha Hnd IH]; intros vs k Hk; [done|].
  destruct vs as [|v vs]; [by destruct k|]. cbn.
  destruct k as [|k]; cbn in Hk.
  - injection Hk as <-. by rewrite lookup_insert_eq.
  - rewrite lookup_insert_ne; [cbn; by apply IH|].
    intros <-. apply Ha. by eapply list_elem_of_lookup_2.
Qed.

Lemma mt_step2_cols genes phenos (mt : GenotypeMatrix) :
  Hl.mt_cols (mt_step2 genes phenos mt)
  = map (λ c, set_phenos (phenos !! s c ≫= p1) (phenos !! s c ≫= p2) c)
      (Hl.mt_cols mt).
Proof. reflexivity. Qed.

Lemma pca_table_lookup genes phenos (mt : GenotypeMatrix) sc (k : nat) c :
  NoDup (map s (Hl.mt_cols mt)) → Hl.mt_cols mt !! k = Some c →
  pca_table (mt_step2 genes phenos mt) sc !! s c = sc !! k.
Proof.
  intros Hnd Hk. unfold pca_table. rewrite mt_step2_cols, map_map. cbn.
  apply list_to_map_zip_lookup; [done|].
  change (map ?f ?l) with (f <$> l). by rewrite list_lookup_fmap, Hk.
Qed.

End Scores.

(** X23.  Every sample gets its own principal-component scores as
    covariates.  When the sample identifiers are distinct, the [k]-th
    sample meets, in the burden regression and in [hl.skat], the
    covariates [1.0] and the first three scores of the [k]-th row that
    the PCA returned, and the phenotype that
    [rare-variant-phenotypes.ht] has under its identifier; scores the PCA
    did not return and phenotypes the table does not hold are missing. *)
Theorem every_sample_gets_its_own_scores
    (genes : list RareVariants.gene_row)
    (phenos : gmap string RareVariants.pheno_row)
    (mt : RareVariants.GenotypeMatrix) (sc : list (list Q))
    (k : nat) (c : RareVariants.sample) :
  NoDup (map RareVariants.s (Hl.mt_cols mt)) →
  Hl.mt_cols mt !! k = Some c →
  let scores := [Some 1; sc !! k ≫= (.!! 0%nat); sc !! k ≫= (.!! 1%nat);
                 sc !! k ≫= (.!! 2%nat)] in
  RareVariants.reg_covariates
    (RareVariants.burden_test_input genes phenos mt sc) !! k = Some scores
  ∧ RareVariants.reg_covariates
      (RareVariants.skat_test_input genes phenos mt sc) !! k = Some scores
  ∧ RareVariants.reg_y
      (RareVariants.burden_test_input genes phenos mt sc) !! k
    = Some (phenos !! RareVariants.s c ≫= RareVariants.p1)
  ∧ RareVariants.reg_y
      (RareVariants.skat_test_input genes phenos mt sc) !! k
    = Some (phenos !! RareVariants.s c ≫= RareVariants.p2).
Proof.
  intros Hnd Hk scores.
  pose proof (pca_table_lookup genes phenos mt sc k c Hnd Hk) as Hp.
  unfold RareVariants.burden_test_input, RareVariants.skat_test_input.
  set (p := RareVariants.pca_table _ _) in *. cbn -[p].
  rewrite !map_map. change (map ?f ?l) with (f <$> l).
  rewrite !list_lookup_fmap, Hk. cbn -[p].
  unfold RareVariants.covariates. cbn -[p]. by rewrite Hp.
Qed.

Lemma every_sample_gets_its_own_scores_witness :
  RareVariants.reg_covariates
    (RareVariants.burden_test_input Examples.gene_intervals ∅
       Examples.one_carrier [[1; 2; 3]]) !! 0%nat
  = Some [Some 1; Some 1; Some 2; Some 3].
Proof.
  refine (proj1 (every_sample_gets_its_own_scores Examples.gene_intervals ∅
                   Examples.one_carrier [[1; 2; 3]] 0 _ _ eq_refl)).
  apply (bool_decide_unpack _). vm_compute. exact I.
Defined.

(** ** Notebook 02: the fraction of zero counts *)

Section FractionZero.
Import Session RareVariants.

Lemma count_where_zero_lt_elem (l : list Z) x :
  x ∈ l → x ≠ 0%Z →
  (Hl.agg_count_where (map (λ n, Some (n =? 0)%Z) l) < Z.of_nat (length l))%Z.
Proof.
  intros [i Hi]%list_elem_of_lookup Hx. by eapply count_where_zero_lt.
Qed.

Lemma fraction_below_one (l : list Z) x :
  x ∈ l → x ≠ 0%Z →
  ∃ q, Hl.agg_fraction (map (λ n, Some (n =? 0)%Z) l) = Some q
       ∧ 0 <= q ∧ q < 1.
Proof.
  intros Hx Hne. pose proof (count_where_zero_lt_elem l x Hx Hne) as Hlt.
  pose proof (count_where_zero_range l) as Hr.
  destruct l as [|n l]; [by apply elem_of_nil in Hx|].
  eexists. split; [reflexivity|]. rewrite length_map.
  unfold Qle, Qlt. cbn [Qnum Qden]. rewrite Zpos_of_nat by done. lia.
Qed.

End FractionZero.

(** X24.  On [burden_mt], [hl.agg.fraction(xx.n_variants == 0)] over all
    entries is missing when the table has no gene, and otherwise a number
    in [[0, 1)]: it never reaches [1], because every gene kept has a
    sample with a count that is not zero. *)
Theorem fraction_zero_is_below_one (mt : RareVariants.GenotypeMatrix)
    (r : nat) (w : Session.world) :
  Session.objs w !! r = Some (Session.OGrouped (RareVariants.burden_mt mt)) →
  ∃ w' v,
    Notebook02.fraction_zero r w = inr ((), w')
    ∧ Session.screen w' = Session.screen w ++ [Session.Number v]
    ∧ (Hl.mt_rows (RareVariants.burden_mt mt) = [] → v = None)
    ∧ (Hl.mt_rows (RareVariants.burden_mt mt) ≠ [] →
       ∃ q, v = Some q ∧ 0 <= q ∧ q < 1).
Proof.
  intros Hr. unfold Notebook02.fraction_zero.
  rewrite (bind_returns _ _ _ _ _ (as_grouped_run _ _ _ Hr)).
  eexists _, _. split; [reflexivity|].
  cbn -[RareVariants.burden_mt Hl.agg_fraction].
  split; [reflexivity|]. split; [by intros ->|].
  intros Hrows.
  destruct (Hl.mt_rows (RareVariants.burden_mt mt)) as [|[g es] rows] eqn:Hm;
    [done|].
  destruct (burden_mt_row_nonempty mt g es) as [_ (i & x & Hi & Hx)];
    [rewrite Hm; by left|].
  apply (fraction_below_one _ x); [|done]. cbn.
  apply elem_of_app. left. by eapply list_elem_of_lookup_2.
Qed.

Lemma fraction_zero_is_below_one_witness :
  ∃ w' v,
    Notebook02.fraction_zero 0
      (Session.MkWorld ∅ (λ _, 0) 0
         [Session.OGrouped
            (RareVariants.burden_mt
               (RareVariants.mt_step2 Examples.gene_intervals ∅
                  Examples.one_carrier))] [] [] [])
    = inr ((), w')
    ∧ Session.screen w' = [Session.Number v]
    ∧ v = Some (100 # 101).
Proof.
  destruct (fraction_zero_is_below_one
              (RareVariants.mt_step2 Examples.gene_intervals ∅
                 Examples.one_carrier) 0
              (Session.MkWorld ∅ (λ _, 0) 0
                 [Session.OGrouped
                    (RareVariants.burden_mt
                       (RareVariants.mt_step2 Examples.gene_intervals ∅
                          Examples.one_carrier))] [] [] [])
              eq_refl) as (w' & v & Hrun & Hscreen & _).
  exists w', v. split; [exact Hrun|]. split; [exact Hscreen|].
  vm_compute in Hrun. injection Hrun as <-. cbn in Hscreen.
  by injection Hscreen as <-.
Defined.
